(** * spalipy: detection-based astronomical image registration

    A shallow embedding of [spalipy/spalipy.py] and the properties of its
    matching and transform-estimation pipeline.

    Numbers.  The program computes on IEEE float64 values.  Here a finite
    float is an exact rational ([Q]); rounding and overflow are not modelled.
    A theorem that gives the value of a computation therefore gives it in
    exact arithmetic, and says so; the float64 value of the program agrees
    with it up to rounding.  Where the program decides on computed
    distances, the properties are stated about the array of distances as it
    was computed, whatever its entries ([match_dets_from],
    [find_affine_transform_from]).  Module [Float64] evaluates formulas of
    the program on the binary64 floats of Rocq, for the inputs on which
    rounding matters.

    The only operations of the program that leave the finite values are the
    two divisions in [quad]; a division by zero there yields a non-finite
    value (inf or nan), which is modelled by [option]: [None] is "not a
    finite number", without telling inf from nan.  The properties stated do
    not depend on which of the two the program has.

    Files.  [align] is modelled for an instance without [output_filename]:
    no FITS file is written.  The constructor is given twice: [init] takes
    tables and works in exact arithmetic, [construct] follows the statements
    of [__init__] one by one, with the files it may read and the float64
    product [ndets * ntot].

    Euclidean distances ([pdist], [cdist], the kd-tree radius test) are
    square roots of rationals.  A distance is kept as the rational under the
    root ([dist]); comparing two distances compares the radicands, and
    comparing a distance with a rational threshold is decided exactly by
    squaring with the sign of the threshold taken into account.

    Exceptions.  Code that can raise returns a [result]. *)

From Stdlib Require Import QArith Qabs Qround ZArith List Lia Lra Psatz Bool.
From Stdlib Require Import Permutation Sorted.
From Stdlib Require String Floats.
Import ListNotations.
Open Scope Q_scope.

(** ** Exceptions and the error monad *)

Inductive exn : Set :=
| ValueError
| IndexError
| LinAlgError
| AttributeError
| TypeError
| dfitpackError
| OverflowError.

Inductive result (A : Type) : Type :=
| Ok (a : A)
| Raise (e : exn).

Arguments Ok {A} a.
Arguments Raise {A} e.

Definition bind {A B : Type} (m : result A) (k : A -> result B) : result B :=
  match m with
  | Ok a => k a
  | Raise e => Raise e
  end.

Notation "x <- m ;; k" := (bind m (fun x => k))
  (at level 61, m at next level, right associativity).
Notation "' p <- m ;; k" := (bind m (fun p => k))
  (at level 61, p pattern, m at next level, right associativity).

(** [l[i]] on a Python list or along the first axis of an array. *)
Definition getitem {A : Type} (l : list A) (i : nat) : result A :=
  match nth_error l i with
  | Some a => Ok a
  | None => Raise IndexError
  end.

Fixpoint mapM {A B : Type} (f : A -> result B) (l : list A) : result (list B) :=
  match l with
  | [] => Ok []
  | a :: l' => b <- f a ;; bs <- mapM f l' ;; Ok (b :: bs)
  end.

(** Integer-array ("fancy") indexing [arr[idx, :]]. *)
Definition take_rows {A : Type} (arr : list A) (idx : list nat) : result (list A) :=
  mapM (getitem arr) idx.

(** ** Numbers *)

Definition Qlt_bool (x y : Q) : bool := negb (Qle_bool y x).

(** float64 division: a zero divisor gives inf or nan. *)
Definition fdiv (x y : Q) : option Q :=
  if Qeq_bool y 0 then None else Some (x / y).

Definition obind {A B : Type} (m : option A) (k : A -> option B) : option B :=
  match m with
  | Some a => k a
  | None => None
  end.

(** The Euclidean norm [sqrt sq], kept as its radicand. *)
Record dist : Set := Sqrt { sq : Q }.

Definition dist_leb (d e : dist) : bool := Qle_bool (sq d) (sq e).
Definition dist_ltb (d e : dist) : bool := Qlt_bool (sq d) (sq e).

(** [sqrt sq <= m], [sqrt sq < m], [sqrt sq >= m], [sqrt sq > m] for a
    rational [m] (the radicand is never negative). *)
Definition dist_le_Q (d : dist) (m : Q) : bool :=
  Qle_bool 0 m && Qle_bool (sq d) (m * m).
Definition dist_lt_Q (d : dist) (m : Q) : bool :=
  Qlt_bool 0 m && Qlt_bool (sq d) (m * m).
Definition dist_ge_Q (d : dist) (m : Q) : bool := negb (dist_lt_Q d m).
Definition dist_gt_Q (d : dist) (m : Q) : bool := negb (dist_le_Q d m).

Definition point : Type := Q * Q.

Definition euclidean (p q : point) : dist :=
  Sqrt ((fst p - fst q) * (fst p - fst q) + (snd p - snd q) * (snd p - snd q)).

(** [scipy.spatial.distance.pdist]: the condensed distance vector, pairs
    [(i, j)] with [i < j] in lexicographic order. *)
Fixpoint pdist (X : list point) : list dist :=
  match X with
  | [] => []
  | p :: X' => map (euclidean p) X' ++ pdist X'
  end.

(** [np.argmax] / [np.min] on a one-dimensional array of finite values: the
    first index of the maximum; empty input raises. *)
Fixpoint argmax_from (best : dist) (bi i : nat) (l : list dist) : nat :=
  match l with
  | [] => bi
  | d :: l' =>
      if dist_ltb best d then argmax_from d i (S i) l'
      else argmax_from best bi (S i) l'
  end.

Definition argmax (l : list dist) : result nat :=
  match l with
  | [] => Raise ValueError
  | d :: l' => Ok (argmax_from d 0%nat 1%nat l')
  end.

Definition dist_min (d e : dist) : dist := if dist_leb d e then d else e.

Definition np_min (l : list dist) : result dist :=
  match l with
  | [] => Raise ValueError
  | d :: l' => Ok (fold_left dist_min l' d)
  end.

(** ** class AffineTransform *)

(** [v = [a, b, c, d]]: [[x', y'] = [[a -b], [b a]] * [x, y] + [c d]]. *)
Record AffineTransform : Set := mkAffine { v0 : Q; v1 : Q; v2 : Q; v3 : Q }.

Definition matrix3 : Type := (Q * Q * Q) * (Q * Q * Q) * (Q * Q * Q).

Definition det3 (m : matrix3) : Q :=
  let '((a, b, c), (d, e, f), (g, h, i)) := m in
  a * (e * i - f * h) - b * (d * i - f * g) + c * (d * h - e * g).

(** [scipy.linalg.inv] on a 3x3 matrix: the exact inverse (adjugate over
    determinant); a singular matrix raises [LinAlgError]. *)
Definition linalg_inv (m : matrix3) : result matrix3 :=
  let '((a, b, c), (d, e, f), (g, h, i)) := m in
  let dt := det3 m in
  if Qeq_bool dt 0 then Raise LinAlgError
  else Ok (((e * i - f * h) / dt, (c * h - b * i) / dt, (b * f - c * e) / dt),
           ((f * g - d * i) / dt, (a * i - c * g) / dt, (c * d - a * f) / dt),
           ((d * h - e * g) / dt, (b * g - a * h) / dt, (a * e - b * d) / dt)).

Definition inverse (self : AffineTransform) : result AffineTransform :=
  let homo : matrix3 :=
    ((v0 self, - v1 self, v2 self),
     (v1 self, v0 self, v3 self),
     (0, 0, 1)) in
  inv <- linalg_inv homo ;;
  let '((i00, _, i02), (i10, _, i12), _) := inv in
  Ok (mkAffine i00 i10 i02 i12).

Definition matrix_form (self : AffineTransform) : ((Q * Q) * (Q * Q)) * (Q * Q) :=
  (((v0 self, - v1 self), (v1 self, v0 self)), (v2 self, v3 self)).

(** [apply_transform] on one [(x, y)] (the one-dimensional case). *)
Definition apply_transform_xy (self : AffineTransform) (xy : point) : point :=
  let xn := v0 self * fst xy - v1 self * snd xy + v2 self in
  let yn := v1 self * fst xy + v0 self * snd xy + v3 self in
  (xn, yn).

(** [apply_transform] on an [n x 2] array of points. *)
Definition apply_transform (self : AffineTransform) (xy : list point) : list point :=
  map (apply_transform_xy self) xy.

(** ** quad *)

Definition hash : Type := Q * Q * Q * Q.

Definition orders : list (list nat) :=
  [[0; 1; 2; 3]; [0; 2; 1; 3]; [0; 3; 1; 2];
   [1; 2; 0; 3]; [1; 3; 0; 2]; [2; 3; 0; 1]]%nat.

(** The transform [[a -b], [b a]] + [c d] that brings A and B to 00 11;
    [None] when one of the two divisions is by zero. *)
Definition quad_transform (A B : point) : option AffineTransform :=
  let x := fst B - fst A in
  let y := snd B - snd A in
  obind (fdiv (x - y) (x * x + y * y)) (fun b =>
  obind (fdiv 1 x) (fun inv_x =>
  let a := inv_x * (1 + b * y) in
  let c := b * snd A - a * fst A in
  let d := - (b * fst A + a * snd A) in
  Some (mkAffine a b c d))).

(** The part of [quad] after the rows are reordered: the hash of the
    ordered points A, B, C, D and the symmetry breaking.  The hash is [None]
    when it is made of non-finite values (both symmetry tests are then false
    and the order chosen from the longest pair is kept). *)
Definition quad_ordered (A B C D : point) : list point * option hash :=
  match quad_transform A B with
  | None => ([A; B; C; D], None)
  | Some t =>
      let '(xC, yC) := apply_transform_xy t C in
      let '(xD, yD) := apply_transform_xy t D in
      let testa := Qlt_bool xD xC in
      let testb := Qlt_bool 1 (xC + xD) in
      if testa then
        if testb then ([B; A; C; D], Some (1 - xC, 1 - yC, 1 - xD, 1 - yD))
        else ([A; B; D; C], Some (xD, yD, xC, yC))
      else if testb then
        ([B; A; D; C], Some (1 - xD, 1 - yD, 1 - xC, 1 - yC))
      else ([A; B; C; D], Some (xC, yC, xD, yD))
  end.

(** [combo[order, :]] for the pair of largest distance. *)
Definition longest_first (combo : list point) (dists : list dist)
  : result (list point) :=
  max_dist_idx <- argmax dists ;;
  order <- getitem orders max_dist_idx ;;
  take_rows combo order.

Definition quad (combo : list point) (dists : list dist)
  : result (list point * option hash) :=
  combo <- longest_first combo dists ;;
  match combo with
  | [A; B; C; D] => Ok (quad_ordered A B C D)
  | _ => Raise IndexError
  end.

(** ** Dense linear algebra ([scipy.linalg]) over exact rationals

    A matrix is the list of its rows. *)

Definition matrix : Type := list (list Q).

Definition dot (u w : list Q) : Q :=
  fold_right Qplus 0 (map (fun p => fst p * snd p) (combine u w)).

Definition col (j : nat) (m : matrix) : list Q := map (fun r => nth j r 0) m.

Definition transpose (ncols : nat) (m : matrix) : matrix :=
  map (fun j => col j m) (seq 0 ncols).

Definition matvec (m : matrix) (w : list Q) : list Q := map (fun r => dot r w) m.

Definition drop_nth {A : Type} (j : nat) (l : list A) : list A :=
  firstn j l ++ skipn (S j) l.

(** Determinant of an [n x n] matrix, by expansion along the first row. *)
Fixpoint det (n : nat) (m : matrix) : Q :=
  match n with
  | O => 1
  | S n' =>
      match m with
      | [] => 0
      | r :: m' =>
          fold_right Qplus 0
            (map (fun j =>
                    (if Nat.even j then 1 else -1) * nth j r 0
                    * det n' (map (drop_nth j) m'))
                 (seq 0 n))
      end
  end.

Definition set_col (j : nat) (b : list Q) (m : matrix) : matrix :=
  map (fun rb => firstn j (fst rb) ++ snd rb :: skipn (S j) (fst rb)) (combine m b).

Definition is_square (n : nat) (m : matrix) : bool :=
  Nat.eqb (length m) n && forallb (fun r => Nat.eqb (length r) n) m.

(** [linalg.solve(a, b)]: the unique solution of a square system (Cramer's
    rule); mismatched shapes raise [ValueError], a singular [a] raises
    [LinAlgError]. *)
Definition linalg_solve (a : matrix) (b : list Q) : result (list Q) :=
  let n := length a in
  if negb (is_square n a && Nat.eqb (length b) n) then Raise ValueError
  else
    let dt := det n a in
    if Qeq_bool dt 0 then Raise LinAlgError
    else Ok (map (fun j => det n (set_col j b a) / dt) (seq 0 n)).

(** Moore-Penrose inverse by Greville's column recursion.  [cols] are the
    columns of the matrix already processed, [pinv] the rows of their
    pseudo-inverse.  Fractions are kept in lowest terms ([Qred]) so that the
    recursion computes. *)
Definition vsub (u w : list Q) : list Q :=
  map (fun p => Qred (fst p - snd p)) (combine u w).
Definition vscale (k : Q) (u : list Q) : list Q := map (fun q => Qred (k * q)) u.
Definition vzero (m : nat) : list Q := repeat 0 m.

Definition lincomb (m : nat) (coef : list Q) (vecs : matrix) : list Q :=
  fold_right (fun kv acc => map (fun p => Qred (fst p + snd p))
                                (combine (vscale (fst kv) (snd kv)) acc))
             (vzero m) (combine coef vecs).

Definition greville_step (m : nat) (acc : matrix * matrix) (a : list Q)
  : matrix * matrix :=
  let '(cols, pinv) := acc in
  let d := map Qred (matvec pinv a) in
  let c := vsub a (lincomb m d cols) in
  let b := if forallb (fun q => Qeq_bool q 0) c
           then vscale (/ (1 + dot d d)) (lincomb m d pinv)
           else vscale (/ dot c c) c in
  (cols ++ [a],
   map (fun rd => vsub (fst rd) (vscale (snd rd) b)) (combine pinv d) ++ [b]).

Definition pinv (ncols : nat) (a : matrix) : matrix :=
  snd (fold_left (greville_step (length a)) (transpose ncols a) ([], [])).

(** [linalg.lstsq(a, b)[0]] for a matrix with [ncols] columns: the
    least-squares solution of minimum norm.  When the normal equations are
    non-singular (full column rank) it is their unique solution; otherwise it
    is the pseudo-inverse applied to [b].  Mismatched shapes raise. *)
Definition linalg_lstsq (ncols : nat) (a : matrix) (b : list Q) : result (list Q) :=
  if negb (Nat.eqb (length b) (length a)) then Raise ValueError
  else
    let at_ := transpose ncols a in
    match linalg_solve (map (matvec at_) at_) (matvec at_ b) with
    | Ok x => Ok x
    | Raise _ => Ok (matvec (pinv ncols a) b)
    end.

(** ** calc_affine_transform *)

(** [coo.ravel()] of an [n x 2] array. *)
Definition ravel (coo : list point) : list Q :=
  flat_map (fun p => [fst p; snd p]) coo.

(** The [2n x 4] design matrix: rows [2i] and [2i+1] hold the two equations
    of detection [i]. *)
Definition source_matrix (source_coo : list point) : matrix :=
  flat_map (fun p => [[fst p; - snd p; 1; 0]; [snd p; fst p; 0; 1]]) source_coo.

Definition calc_affine_transform (source_coo template_coo : list point)
  : result AffineTransform :=
  let n := length source_coo in
  let template_matrix := ravel template_coo in
  transform <-
    (if Nat.eqb n 2 then linalg_solve (source_matrix source_coo) template_matrix
     else linalg_lstsq 4 (source_matrix source_coo) template_matrix) ;;
  match transform with
  | [a; b; c; d] => Ok (mkAffine a b c d)
  | _ => Raise ValueError
  end.

(** ** Detection catalogues *)

(** One row of a catalogue, restricted to [COLUMNS]. *)
Record detection : Set := mkDet {
  X_IMAGE : Q;
  Y_IMAGE : Q;
  FLUX_BEST : Q;
  FWHM_IMAGE : Q;
  FLAGS : Z
}.

Definition table : Type := list detection.

Definition get_det_coords (cat : table) : list point :=
  map (fun r => (X_IMAGE r, Y_IMAGE r)) cat.

(** Sorting.  [np.argsort] and [Table.sort] are modelled by a stable
    insertion sort; the order they give to equal keys is not relied upon. *)
Fixpoint insert_by {A : Type} (leb : A -> A -> bool) (a : A) (l : list A) : list A :=
  match l with
  | [] => [a]
  | b :: l' => if leb a b then a :: b :: l' else b :: insert_by leb a l'
  end.

Definition sort_by {A : Type} (leb : A -> A -> bool) (l : list A) : list A :=
  fold_right (insert_by leb) [] l.

Definition enumerate {A : Type} (l : list A) : list (nat * A) :=
  combine (seq 0 (length l)) l.

Definition argsort {A : Type} (leb : A -> A -> bool) (l : list A) : list nat :=
  map fst (sort_by (fun p q => leb (snd p) (snd q)) (enumerate l)).

(** The radius test of the kd-tree: the squared distance is compared with
    the squared radius, so a negative radius acts as its absolute value. *)
Definition within_radius (d : dist) (r : Q) : bool := Qle_bool (sq d) (r * r).

(** [cKDTree(X).query_pairs(r)]: the pairs [(i, j)], [i < j], whose points
    are at distance at most [r]. *)
Fixpoint query_pairs_from (i : nat) (X : list point) (r : Q) : list (nat * nat) :=
  match X with
  | [] => []
  | p :: X' =>
      map (fun jq => (i, fst jq))
          (filter (fun jq => within_radius (euclidean p (snd jq)) r)
                  (combine (seq (S i) (length X')) X'))
      ++ query_pairs_from (S i) X' r
  end.

Definition query_pairs (X : list point) (r : Q) : list (nat * nat) :=
  query_pairs_from 0 X r.

(** [np.unique]: sorted, without repetitions. *)
Fixpoint insert_unique (a : nat) (l : list nat) : list nat :=
  match l with
  | [] => [a]
  | b :: l' =>
      if Nat.ltb a b then a :: b :: l'
      else if Nat.eqb a b then b :: l'
      else b :: insert_unique a l'
  end.

Definition np_unique (l : list nat) : list nat := fold_right insert_unique [] l.

(** [Table.remove_rows(idx)] for in-range row indices. *)
Definition remove_rows {A : Type} (cat : list A) (idx : list nat) : list A :=
  map snd (filter (fun ir => negb (existsb (Nat.eqb (fst ir)) idx)) (enumerate cat)).

(** The slice [l[:n]]; a negative [n] counts from the end. *)
Definition slice_to {A : Type} (n : Z) (l : list A) : list A :=
  if (0 <=? n)%Z then firstn (Z.to_nat n) l
  else firstn (length l - Z.to_nat (- n)) l.

(** [arr[mask]] for a boolean mask of the length of [arr]. *)
Definition mask_rows {A : Type} (arr : list A) (mask : list bool) : list A :=
  map fst (filter snd (combine arr mask)).

(** ** class Spalipy *)

Definition image : Type := list (list Q).
Definition surface : Type := Q -> Q -> Q.
Definition quad_t : Type := list point * option hash.

Inductive message : Type :=
| MsgRestrictingNquaddets (n : nat)
| MsgNoMatchingQuads (minquaddist : Q)
| MsgTooFewMatches (nmatch : nat) (minnmatch : Z)
| MsgNoInitialAffine
| MsgMatched (nmatch : nat) (maxmatchdist : Q)
| MsgAffineResiduals (dx dy : list Q)
| MsgFinalResiduals (dx dy : list Q)
| MsgSplineFailed
| MsgAffineNotDefined.

(** The instance attributes.  Reading and writing catalogue and FITS files
    is left out: the catalogues are tables, [source_data] is the pixel array
    of the chosen hdu.  [source_coo] and [template_coo] are always
    [get_det_coords] of the trimmed catalogues and are derived from them.
    [spline_transform] and [final_transform] are closures over [self]: the
    fields record whether they are defined, and calling them reads the
    attributes they close over.  [stdout] collects what the methods print. *)
Record Spalipy : Type := mkSpalipy {
  source_cat_full : table;
  template_cat_full : table;
  source_data : image;
  shape : nat * nat;
  ndets : Z;
  nquaddets : Z;
  minquadsep : Q;
  maxmatchdist : Q;
  minnmatch : Z;
  spline_order : Z;
  interp_order : Z;
  source_cat : table;
  template_cat : table;
  source_quadlist : list quad_t;
  template_quadlist : list quad_t;
  nmatch : nat;
  source_matchdets : option table;
  template_matchdets : option table;
  affine_transform : option AffineTransform;
  spline_transform : bool;
  sbs_x : option surface;
  sbs_y : option surface;
  source_data_transform : option image;
  final_transform : bool;
  quiet : bool;
  stdout : list message
}.

Definition source_coo (self : Spalipy) : list point := get_det_coords (source_cat self).
Definition template_coo (self : Spalipy) : list point := get_det_coords (template_cat self).

Definition print (m : message) (self : Spalipy) : Spalipy :=
  mkSpalipy (source_cat_full self) (template_cat_full self) (source_data self)
    (shape self) (ndets self) (nquaddets self) (minquadsep self)
    (maxmatchdist self) (minnmatch self) (spline_order self) (interp_order self)
    (source_cat self) (template_cat self) (source_quadlist self)
    (template_quadlist self) (nmatch self) (source_matchdets self)
    (template_matchdets self) (affine_transform self) (spline_transform self)
    (sbs_x self) (sbs_y self) (source_data_transform self) (final_transform self)
    (quiet self) (stdout self ++ [m]).

(** Attribute assignment [self.f = x]. *)
Definition set_source_quadlist (x : list quad_t) (self : Spalipy) : Spalipy :=
  mkSpalipy (source_cat_full self) (template_cat_full self) (source_data self)
    (shape self) (ndets self) (nquaddets self) (minquadsep self)
    (maxmatchdist self) (minnmatch self) (spline_order self)
    (interp_order self) (source_cat self) (template_cat self) x
    (template_quadlist self) (nmatch self) (source_matchdets self)
    (template_matchdets self) (affine_transform self) (spline_transform self)
    (sbs_x self) (sbs_y self) (source_data_transform self)
    (final_transform self) (quiet self) (stdout self).

Definition set_template_quadlist (x : list quad_t) (self : Spalipy) : Spalipy :=
  mkSpalipy (source_cat_full self) (template_cat_full self) (source_data self)
    (shape self) (ndets self) (nquaddets self) (minquadsep self)
    (maxmatchdist self) (minnmatch self) (spline_order self)
    (interp_order self) (source_cat self) (template_cat self)
    (source_quadlist self) x (nmatch self) (source_matchdets self)
    (template_matchdets self) (affine_transform self) (spline_transform self)
    (sbs_x self) (sbs_y self) (source_data_transform self)
    (final_transform self) (quiet self) (stdout self).

Definition set_nmatch (x : nat) (self : Spalipy) : Spalipy :=
  mkSpalipy (source_cat_full self) (template_cat_full self) (source_data self)
    (shape self) (ndets self) (nquaddets self) (minquadsep self)
    (maxmatchdist self) (minnmatch self) (spline_order self)
    (interp_order self) (source_cat self) (template_cat self)
    (source_quadlist self) (template_quadlist self) x (source_matchdets self)
    (template_matchdets self) (affine_transform self) (spline_transform self)
    (sbs_x self) (sbs_y self) (source_data_transform self)
    (final_transform self) (quiet self) (stdout self).

Definition set_source_matchdets (x : option table) (self : Spalipy) : Spalipy :=
  mkSpalipy (source_cat_full self) (template_cat_full self) (source_data self)
    (shape self) (ndets self) (nquaddets self) (minquadsep self)
    (maxmatchdist self) (minnmatch self) (spline_order self)
    (interp_order self) (source_cat self) (template_cat self)
    (source_quadlist self) (template_quadlist self) (nmatch self) x
    (template_matchdets self) (affine_transform self) (spline_transform self)
    (sbs_x self) (sbs_y self) (source_data_transform self)
    (final_transform self) (quiet self) (stdout self).

Definition set_template_matchdets (x : option table) (self : Spalipy) : Spalipy :=
  mkSpalipy (source_cat_full self) (template_cat_full self) (source_data self)
    (shape self) (ndets self) (nquaddets self) (minquadsep self)
    (maxmatchdist self) (minnmatch self) (spline_order self)
    (interp_order self) (source_cat self) (template_cat self)
    (source_quadlist self) (template_quadlist self) (nmatch self)
    (source_matchdets self) x (affine_transform self) (spline_transform self)
    (sbs_x self) (sbs_y self) (source_data_transform self)
    (final_transform self) (quiet self) (stdout self).

Definition set_affine_transform (x : option AffineTransform) (self : Spalipy) : Spalipy :=
  mkSpalipy (source_cat_full self) (template_cat_full self) (source_data self)
    (shape self) (ndets self) (nquaddets self) (minquadsep self)
    (maxmatchdist self) (minnmatch self) (spline_order self)
    (interp_order self) (source_cat self) (template_cat self)
    (source_quadlist self) (template_quadlist self) (nmatch self)
    (source_matchdets self) (template_matchdets self) x
    (spline_transform self) (sbs_x self) (sbs_y self)
    (source_data_transform self) (final_transform self) (quiet self)
    (stdout self).

Definition set_spline_transform (x : bool) (self : Spalipy) : Spalipy :=
  mkSpalipy (source_cat_full self) (template_cat_full self) (source_data self)
    (shape self) (ndets self) (nquaddets self) (minquadsep self)
    (maxmatchdist self) (minnmatch self) (spline_order self)
    (interp_order self) (source_cat self) (template_cat self)
    (source_quadlist self) (template_quadlist self) (nmatch self)
    (source_matchdets self) (template_matchdets self) (affine_transform self)
    x (sbs_x self) (sbs_y self) (source_data_transform self)
    (final_transform self) (quiet self) (stdout self).

Definition set_sbs_x (x : option surface) (self : Spalipy) : Spalipy :=
  mkSpalipy (source_cat_full self) (template_cat_full self) (source_data self)
    (shape self) (ndets self) (nquaddets self) (minquadsep self)
    (maxmatchdist self) (minnmatch self) (spline_order self)
    (interp_order self) (source_cat self) (template_cat self)
    (source_quadlist self) (template_quadlist self) (nmatch self)
    (source_matchdets self) (template_matchdets self) (affine_transform self)
    (spline_transform self) x (sbs_y self) (source_data_transform self)
    (final_transform self) (quiet self) (stdout self).

Definition set_sbs_y (x : option surface) (self : Spalipy) : Spalipy :=
  mkSpalipy (source_cat_full self) (template_cat_full self) (source_data self)
    (shape self) (ndets self) (nquaddets self) (minquadsep self)
    (maxmatchdist self) (minnmatch self) (spline_order self)
    (interp_order self) (source_cat self) (template_cat self)
    (source_quadlist self) (template_quadlist self) (nmatch self)
    (source_matchdets self) (template_matchdets self) (affine_transform self)
    (spline_transform self) (sbs_x self) x (source_data_transform self)
    (final_transform self) (quiet self) (stdout self).

Definition set_source_data_transform (x : option image) (self : Spalipy) : Spalipy :=
  mkSpalipy (source_cat_full self) (template_cat_full self) (source_data self)
    (shape self) (ndets self) (nquaddets self) (minquadsep self)
    (maxmatchdist self) (minnmatch self) (spline_order self)
    (interp_order self) (source_cat self) (template_cat self)
    (source_quadlist self) (template_quadlist self) (nmatch self)
    (source_matchdets self) (template_matchdets self) (affine_transform self)
    (spline_transform self) (sbs_x self) (sbs_y self) x (final_transform self)
    (quiet self) (stdout self).

Definition set_final_transform (x : bool) (self : Spalipy) : Spalipy :=
  mkSpalipy (source_cat_full self) (template_cat_full self) (source_data self)
    (shape self) (ndets self) (nquaddets self) (minquadsep self)
    (maxmatchdist self) (minnmatch self) (spline_order self)
    (interp_order self) (source_cat self) (template_cat self)
    (source_quadlist self) (template_quadlist self) (nmatch self)
    (source_matchdets self) (template_matchdets self) (affine_transform self)
    (spline_transform self) (sbs_x self) (sbs_y self)
    (source_data_transform self) x (quiet self) (stdout self).

(** *** trim_cat *)

Definition flux_leb (r s : detection) : bool := Qle_bool (FLUX_BEST r) (FLUX_BEST s).

(** The arguments [minfwhm], [maxflag] default to 2 and 7, [minsep = None]
    to [2 * maxmatchdist]; the cut is at [ndets]. *)
Definition trim_cat_with (ndets : Z) (maxmatchdist : Q) (cat : table)
    (minfwhm : Q) (maxflag : Z) (minsep : option Q) : table :=
  let minsep := match minsep with
                | None => 2 * maxmatchdist
                | Some s => s
                end in
  let cat := filter (fun r => Qle_bool minfwhm (FWHM_IMAGE r)
                              && (FLAGS r <=? maxflag)%Z) cat in
  let cat := sort_by flux_leb cat in
  let cat := rev cat in
  let close_pairs := query_pairs (get_det_coords cat) minsep in
  let to_remove := flat_map (fun pair => [fst pair; snd pair]) close_pairs in
  let cat := match to_remove with
             | [] => cat
             | _ => remove_rows cat (np_unique to_remove)
             end in
  slice_to ndets cat.

Definition trim_cat (self : Spalipy) (cat : table)
    (minfwhm : Q) (maxflag : Z) (minsep : option Q) : table :=
  trim_cat_with (ndets self) (maxmatchdist self) cat minfwhm maxflag minsep.

(** *** match_dets *)

(** [scipy.spatial.distance.cdist] of two arrays of points: one row per
    point of [XA]. *)
Definition cdist (XA XB : list point) : list (list dist) :=
  map (fun p => map (euclidean p) XB) XA.

(** The column [arr[:, j]] of an array with [ncols] columns. *)
Definition take_col {A : Type} (d : A) (ncols j : nat) (arr : list (list A))
  : result (list A) :=
  if Nat.ltb j ncols then Ok (map (fun row => nth j row d) arr)
  else Raise IndexError.

(** [match_dets] after the call of [cdist]: what it does with the array
    [dists] of the distances computed, one row per source detection and one
    column per template detection. *)
Definition match_dets_from (self : Spalipy) (dists : list (list dist))
    (maxmatchdist : Q) : result (nat * table * table) :=
  let ncols := length (template_coo self) in
  let dists_argsort := map (argsort dist_leb) dists in
  let dists_sort :=
    map (fun ri => map (fun j => nth j (fst ri) (Sqrt 0)) (snd ri))
        (combine dists dists_argsort) in
  nearest <- take_col (Sqrt 0) ncols 0 dists_sort ;;
  second <- take_col (Sqrt 0) ncols 1 dists_sort ;;
  let passed :=
    map (fun ds => dist_le_Q (fst ds) maxmatchdist
                   && dist_ge_Q (snd ds) (2 * maxmatchdist))
        (combine nearest second) in
  let nmatched := length (filter (fun b => b) passed) in
  let source_matchdets := mask_rows (source_cat self) passed in
  nearest_idx <- take_col 0%nat ncols 0 dists_argsort ;;
  template_matchdets <- take_rows (template_cat self) (mask_rows nearest_idx passed) ;;
  Ok (nmatched, source_matchdets, template_matchdets).

Definition match_dets (self : Spalipy) (transform : AffineTransform)
    (maxmatchdist_arg : option Q) : result (nat * table * table) :=
  let maxmatchdist := match maxmatchdist_arg with
                      | None => maxmatchdist self
                      | Some m => m
                      end in
  let source_coo_trans := apply_transform transform (source_coo self) in
  let dists := cdist source_coo_trans (template_coo self) in
  match_dets_from self dists maxmatchdist.

(** *** make_quadlist *)

Inductive image_name : Set := source | template | other_name.

(** [itertools.combinations(l, k)], in lexicographic order. *)
Fixpoint combinations {A : Type} (l : list A) (k : nat) : list (list A) :=
  match l, k with
  | _, O => [[]]
  | [], S _ => []
  | a :: l', S k' => map (cons a) (combinations l' k') ++ combinations l' k
  end.

Fixpoint quads_of (coo : list point) (minquadsep : Q) (quad_idxs : list (list nat))
  : result (list quad_t) :=
  match quad_idxs with
  | [] => Ok []
  | quad_idx :: rest =>
      combo <- take_rows coo quad_idx ;;
      let dists := pdist combo in
      shortest <- np_min dists ;;
      if dist_gt_Q shortest minquadsep then
        q <- quad combo dists ;;
        quadlist <- quads_of coo minquadsep rest ;;
        Ok (q :: quadlist)
      else quads_of coo minquadsep rest
  end.

Definition make_quadlist (self : Spalipy) (image : image_name)
    (nquaddets_arg : option Z) (minquadsep_arg : option Q)
  : result unit * Spalipy :=
  match image with
  | other_name => (Raise ValueError, self)
  | _ =>
      let coo := match image with
                 | source => source_coo self
                 | _ => template_coo self
                 end in
      let nquaddets := match nquaddets_arg with
                       | None => nquaddets self
                       | Some n => n
                       end in
      let restrict := (Z.of_nat (length coo) <? nquaddets)%Z in
      let self := if restrict
                  then print (MsgRestrictingNquaddets (length coo)) self
                  else self in
      let nquaddets := if restrict then Z.of_nat (length coo) else nquaddets in
      let minquadsep := match minquadsep_arg with
                        | None => minquadsep self
                        | Some s => s
                        end in
      let quad_idxs := combinations (seq 0 (Z.to_nat nquaddets)) 4 in
      match quads_of coo minquadsep quad_idxs with
      | Raise e => (Raise e, self)
      | Ok quadlist =>
          (Ok tt, match image with
                  | source => set_source_quadlist quadlist self
                  | _ => set_template_quadlist quadlist self
                  end)
      end
  end.

(** *** find_affine_transform *)

(** Distance of two hashes in signature space; nan when a hash is. *)
Definition hash_dist (h k : option hash) : option dist :=
  match h, k with
  | Some (a, b, c, d), Some (a', b', c', d') =>
      Some (Sqrt ((a - a') * (a - a') + (b - b') * (b - b')
                  + (c - c') * (c - c') + (d - d') * (d - d')))
  | _, _ => None
  end.

(** [cdist] of two hash arrays.  [np.array] of an empty list of hashes is
    one-dimensional and [cdist] raises on it. *)
Definition cdist_hash (XA XB : list (option hash)) : result (list (list (option dist))) :=
  match XA, XB with
  | [], _ => Raise ValueError
  | _, [] => Raise ValueError
  | _, _ => Ok (map (fun h => map (hash_dist h) XB) XA)
  end.

(** [np.argmin] and [np.min] propagate nan: the first nan wins, else the
    first minimum. *)
Definition nan_ltb (d best : option dist) : bool :=
  match best, d with
  | None, _ => false
  | Some _, None => true
  | Some b, Some x => dist_ltb x b
  end.

Fixpoint argmin_from (best : option dist) (bi i : nat) (l : list (option dist)) : nat :=
  match l with
  | [] => bi
  | d :: l' =>
      if nan_ltb d best then argmin_from d i (S i) l'
      else argmin_from best bi (S i) l'
  end.

Definition argmin (l : list (option dist)) : nat :=
  match l with
  | [] => 0%nat
  | d :: l' => argmin_from d 0%nat 1%nat l'
  end.

(** [np.argsort] places nan last. *)
Definition nan_leb (d e : option dist) : bool :=
  match d, e with
  | Some x, Some y => dist_leb x y
  | Some _, None => true
  | None, Some _ => false
  | None, None => true
  end.

(** [dist < minquaddist]; false on nan. *)
Definition below (d : option dist) (minquaddist : Q) : bool :=
  match d with
  | Some x => dist_lt_Q x minquaddist
  | None => false
  end.

Inductive search : Type :=
| Found (nmatch : nat) (source_matchdets template_matchdets : table)
        (transform : AffineTransform)
| NotFound (nmatch : nat).

(** The quick (exact) transformation guess from the first two detections of
    the matched quads of candidate [bi], and the detections it matches. *)
Definition initial_guess (self : Spalipy) (maxmatchdist : Q)
    (minddist_idx : list nat) (bi : nat) : result (nat * table * table) :=
  ti <- getitem minddist_idx bi ;;
  template_quad <- getitem (template_quadlist self) ti ;;
  source_quad <- getitem (source_quadlist self) bi ;;
  transform <- calc_affine_transform (firstn 2 (fst source_quad))
                                     (firstn 2 (fst template_quad)) ;;
  match_dets self transform (Some maxmatchdist).

(** The transformation refined on the matched detections, and the final
    matched detections. *)
Definition refine (self : Spalipy) (maxmatchdist : Q)
    (source_matchdets template_matchdets : table) : result search :=
  let source_match_coo := get_det_coords source_matchdets in
  let template_match_coo := get_det_coords template_matchdets in
  transform <- calc_affine_transform source_match_coo template_match_coo ;;
  '(n, s, t) <- match_dets self transform (Some maxmatchdist) ;;
  Ok (Found n s t transform).

(** The body of the [for i in range(min(maxcands, len(best)))] loop over the
    candidates [best[i]]; [NotFound] is the [else] clause of the loop. *)
Fixpoint candidates (self : Spalipy) (maxmatchdist : Q) (minnmatch : Z)
    (minquaddist : Q) (mindist : list (option dist)) (minddist_idx : list nat)
    (cands : list nat) (nmatch : nat) : result search :=
  match cands with
  | [] => Ok (NotFound nmatch)
  | bi :: rest =>
      dist <- getitem mindist bi ;;
      if below dist minquaddist then
        '(nmatch, source_matchdets, template_matchdets) <-
          initial_guess self maxmatchdist minddist_idx bi ;;
        if (minnmatch <? Z.of_nat nmatch)%Z then
          refine self maxmatchdist source_matchdets template_matchdets
        else
          candidates self maxmatchdist minnmatch minquaddist mindist
                     minddist_idx rest nmatch
      else
        candidates self maxmatchdist minnmatch minquaddist mindist
                   minddist_idx rest nmatch
  end.

Definition columns {A : Type} (ncols : nat) (d : A) (arr : list (list A)) : list (list A) :=
  map (fun j => map (fun row => nth j row d) arr) (seq 0 ncols).

(** [np.argmin(dists, axis=0)] and [np.min(dists, axis=0)]: for each source
    quad the nearest template quad and its hash distance. *)
Definition hash_argmin (ncols : nat) (dists : list (list (option dist))) : list nat :=
  map argmin (columns ncols None dists).

Definition hash_min (ncols : nat) (dists : list (list (option dist)))
  : list (option dist) :=
  map (fun c => nth (argmin c) c None) (columns ncols None dists).

(** The method from [minddist_idx = np.argmin(dists, axis=0)] on, for the
    array [dists] that [cdist] returned. *)
Definition find_affine_transform_from (self : Spalipy)
    (dists : list (list (option dist))) (maxmatchdist : Q) (minnmatch : Z)
    (maxcands : Z) (minquaddist : Q) : result unit * Spalipy :=
  let source_hash := map snd (source_quadlist self) in
  let minddist_idx := hash_argmin (length source_hash) dists in
  let mindist := hash_min (length source_hash) dists in
  let best := argsort nan_leb mindist in
  if negb (existsb (fun d => below d minquaddist) mindist) then
    (Ok tt, print (MsgNoMatchingQuads minquaddist) self)
  else
    let cands := firstn (Z.to_nat (Z.min maxcands (Z.of_nat (length best)))) best in
    match candidates self maxmatchdist minnmatch minquaddist mindist
                     minddist_idx cands 0%nat with
    | Raise e => (Raise e, self)
    | Ok (Found n s t transform) =>
        (Ok tt, set_affine_transform (Some transform)
                  (set_template_matchdets (Some t)
                     (set_source_matchdets (Some s)
                        (set_nmatch n self))))
    | Ok (NotFound n) => (Ok tt, print (MsgTooFewMatches n minnmatch) self)
    end.

Definition find_affine_transform (self : Spalipy)
    (maxmatchdist_arg : option Q) (minnmatch_arg : option Z)
    (maxcands : Z) (minquaddist : Q) : result unit * Spalipy :=
  let maxmatchdist := match maxmatchdist_arg with
                      | None => maxmatchdist self
                      | Some m => m
                      end in
  let minnmatch := match minnmatch_arg with
                   | None => minnmatch self
                   | Some n => n
                   end in
  let template_hash := map snd (template_quadlist self) in
  let source_hash := map snd (source_quadlist self) in
  match cdist_hash template_hash source_hash with
  | Raise e => (Raise e, self)
  | Ok dists =>
      find_affine_transform_from self dists maxmatchdist minnmatch maxcands minquaddist
  end.

(** *** Residual splines, resampling and the whole pipeline

    The spline fit and the two resampling primitives of scipy are taken as
    given: [SmoothBivariateSpline x y z kx ky] is the fitted surface (its
    [ev] method) or the exception raised by the fit; [map_coordinates input
    coordinates order] samples [input] at one coordinate pair per output
    pixel; [ndimage_affine_transform input matrix offset order output_shape]
    samples it at [matrix * (x, y) + offset]. *)

Definition img_T (a : image) : image :=
  transpose (match a with [] => 0%nat | r :: _ => length r end) a.

Definition Zq (n : nat) : Q := inject_Z (Z.of_nat n).

(** [np.meshgrid(np.arange(w), np.arange(h))] stacked: entry [i][j] is the
    pixel [(x, y) = (j, i)]. *)
Definition meshgrid (w h : nat) : list (list point) :=
  map (fun i => map (fun j => (Zq j, Zq i)) (seq 0 w)) (seq 0 h).

Definition default_of {A : Type} (arg : option A) (attr : A) : A :=
  match arg with
  | None => attr
  | Some a => a
  end.

Section Pipeline.

Variable SmoothBivariateSpline :
  list Q -> list Q -> list Q -> Z -> Z -> result surface.
Variable map_coordinates : image -> list (list point) -> Z -> image.
Variable ndimage_affine_transform :
  image -> (Q * Q) * (Q * Q) -> Q * Q -> Z -> nat * nat -> image.

Definition find_spline_transform (self : Spalipy) (spline_order_arg : option Z)
  : result unit * Spalipy :=
  let spline_order := default_of spline_order_arg (spline_order self) in
  match affine_transform self with
  | None => (Raise AttributeError, self)
  | Some t =>
      match source_matchdets self, template_matchdets self with
      | Some smd, Some tmd =>
          let source_coo := apply_transform t (get_det_coords smd) in
          let template_coo := get_det_coords tmd in
          let kx := spline_order in
          let ky := spline_order in
          let offsets (f : point -> Q) :=
            map (fun ts => f (fst ts) - f (snd ts)) (combine template_coo source_coo) in
          let failed (e : exn) (self : Spalipy) :=
            match e with
            | dfitpackError => print MsgSplineFailed self
            | _ => self
            end in
          match SmoothBivariateSpline (map fst template_coo) (map snd template_coo)
                                      (offsets fst) kx ky with
          | Raise e => (Raise e, failed e self)
          | Ok sx =>
              let self := set_sbs_x (Some sx) self in
              match SmoothBivariateSpline (map fst template_coo) (map snd template_coo)
                                          (offsets snd) kx ky with
              | Raise e => (Raise e, failed e self)
              | Ok sy =>
                  let self := set_sbs_y (Some sy) self in
                  (Ok tt, set_spline_transform true self)
              end
          end
      | _, _ => (Raise TypeError, self)
      end
  end.

Definition padd (p q : point) : point := (fst p + fst q, snd p + snd q).
Definition psub (p q : point) : point := (fst p - fst q, snd p - snd q).

(** [self.spline_transform(xy, relative=True)]: the relative shift at each
    pixel, minus the fitted residuals. *)
Definition spline_transform_relative (self : Spalipy) : result (point -> point) :=
  match sbs_x self, sbs_y self with
  | Some sx, Some sy =>
      Ok (fun xy => (0 - sx (fst xy) (snd xy), 0 - sy (fst xy) (snd xy)))
  | _, _ => Raise AttributeError
  end.

(** [final_transform(xy, inverse)] of [align], as the map it applies to
    every coordinate pair of the array [xy]. *)
Definition final_transform_call (self : Spalipy) (inverse_arg : bool)
  : result (point -> point) :=
  match affine_transform self with
  | None => Raise AttributeError
  | Some t =>
      if inverse_arg then
        inv <- inverse t ;;
        shift <- spline_transform_relative self ;;
        Ok (fun xy => padd (apply_transform_xy inv xy) (shift xy))
      else
        shift <- spline_transform_relative self ;;
        Ok (fun xy => psub (apply_transform_xy t xy) (shift xy))
  end.

Definition align (self : Spalipy) : result unit * Spalipy :=
  match affine_transform self with
  | None => (Ok tt, print MsgAffineNotDefined self)
  | Some t =>
      let source_data := img_T (source_data self) in
      if spline_transform self then
        let self := set_final_transform true self in
        let grid := meshgrid (fst (shape self)) (snd (shape self)) in
        match final_transform_call self true with
        | Raise e => (Raise e, self)
        | Ok f =>
            let spline_coords_shift := map (map f) grid in
            (Ok tt, set_source_data_transform
                      (Some (map_coordinates source_data spline_coords_shift
                                             (interp_order self))) self)
        end
      else
        match inverse t with
        | Raise e => (Raise e, self)
        | Ok inv =>
            let '(matrix, offset) := matrix_form inv in
            (Ok tt, set_source_data_transform
                      (Some (img_T (ndimage_affine_transform source_data matrix offset
                                      (interp_order self) (shape self)))) self)
        end
  end.

Inductive which_transform : Set := affine | final.

(** The offsets [dx], [dy] of [get_residuals], whose medians and standard
    deviations are printed. *)
Definition get_residuals (self : Spalipy) (transform : which_transform)
  : result (list Q * list Q) :=
  match template_matchdets self, source_matchdets self with
  | Some tmd, Some smd =>
      let template_coo := get_det_coords tmd in
      let source_coo := get_det_coords smd in
      template_coo_trans <-
        match transform with
        | affine =>
            match affine_transform self with
            | None => Raise AttributeError
            | Some t => inv <- inverse t ;; Ok (apply_transform inv template_coo)
            end
        | final =>
            if final_transform self then
              f <- final_transform_call self true ;; Ok (map f template_coo)
            else Raise TypeError
        end ;;
      let d := map (fun ts => psub (fst ts) (snd ts))
                   (combine template_coo_trans source_coo) in
      Ok (map fst d, map snd d)
  | _, _ => Raise TypeError
  end.

Definition seq_ (m : result unit * Spalipy) (k : Spalipy -> result unit * Spalipy)
  : result unit * Spalipy :=
  match fst m with
  | Ok _ => k (snd m)
  | Raise e => (Raise e, snd m)
  end.

Definition main (self : Spalipy) (quiet_arg : option bool) : result unit * Spalipy :=
  let quiet := default_of quiet_arg (quiet self) in
  seq_ (make_quadlist self source None None) (fun self =>
  seq_ (make_quadlist self template None None) (fun self =>
  seq_ (find_affine_transform self None None 10 (5 # 1000)) (fun self =>
  match affine_transform self with
  | None => (Ok tt, print MsgNoInitialAffine self)
  | Some _ =>
      seq_ (if quiet then (Ok tt, self)
            else
              let self := print (MsgMatched (nmatch self) (maxmatchdist self)) self in
              match get_residuals self affine with
              | Raise e => (Raise e, self)
              | Ok (dx, dy) => (Ok tt, print (MsgAffineResiduals dx dy) self)
              end) (fun self =>
      seq_ (if (0 <? spline_order self)%Z then find_spline_transform self None
            else (Ok tt, self)) (fun self =>
      seq_ (align self) (fun self =>
      if negb quiet && final_transform self then
        match get_residuals self final with
        | Raise e => (Raise e, self)
        | Ok (dx, dy) => (Ok tt, print (MsgFinalResiduals dx dy) self)
        end
      else (Ok tt, self))))
  end))).

End Pipeline.

(** *** __init__ *)

Inductive ndets_arg : Set :=
| ndets_int (n : Z)
| ndets_float (f : Q).

(** [int(q)]: truncation towards zero. *)
Definition int_of (q : Q) : Z := Z.quot (Qnum q) (Zpos (Qden q)).

Definition resolve_ndets (ndets : ndets_arg) (source_cat template_cat : table) : Z :=
  match ndets with
  | ndets_float f =>
      let ntot := Nat.min (length source_cat) (length template_cat) in
      int_of (f * Zq ntot)
  | ndets_int n => n
  end.

(** What the constructor has done to the catalogues when it ends. *)
Inductive step : Set :=
| step_trim_cat (which : image_name)
| step_get_det_coords (which : image_name).

(** The constructor; the default arguments are [ndets = ndets_float (1 # 2)],
    [nquaddets = 20], [minquadsep = 50], [maxmatchdist = 5], [minnmatch =
    200], [spline_order = 3], [interp_order = 3].  Returns the steps
    performed on the catalogues together with the instance or the exception. *)
Definition init (source_cat template_cat : table) (source_data : image)
    (shape : nat * nat) (ndets : ndets_arg) (nquaddets : Z) (minquadsep : Q)
    (maxmatchdist : Q) (minnmatch : Z) (spline_order interp_order : Z)
    (quiet : bool) : list step * result Spalipy :=
  let ndets := resolve_ndets ndets source_cat template_cat in
  if (ndets <? minnmatch)%Z then ([], Raise ValueError)
  else
    let source_trim := trim_cat_with ndets maxmatchdist source_cat 2 7 None in
    let template_trim := trim_cat_with ndets maxmatchdist template_cat 2 7 None in
    ([step_trim_cat source; step_get_det_coords source;
      step_trim_cat template; step_get_det_coords template],
     Ok (mkSpalipy source_cat template_cat source_data shape ndets nquaddets
           minquadsep maxmatchdist minnmatch spline_order interp_order
           source_trim template_trim [] [] 0%nat None None None false None None
           None false quiet [])).

(** ** float64 values

    The arithmetic of the program as it runs, on the binary64 floats of
    Rocq: every product, sum, difference and quotient is rounded to the
    nearest float64.  It is used for [int(ndets * ntot)] in the constructor
    and to evaluate the formulas of [apply_transform] and [quad] on given
    float64 values. *)
Module Float64.
Import Floats.
Local Open Scope float_scope.

Definition fpoint : Set := float * float.

(** [apply_transform] on one [(x, y)], for the parameters [(a, b, c, d)]. *)
Definition apply_transform_f64 (v : float * float * float * float) (xy : fpoint)
  : fpoint :=
  let '(a, b, c, d) := v in
  (a * fst xy - b * snd xy + c, b * fst xy + a * snd xy + d).

(** The parameters [quad] computes from A and B. *)
Definition quad_transform_f64 (A B : fpoint) : float * float * float * float :=
  let x := fst B - fst A in
  let y := snd B - snd A in
  let b := (x - y) / (x * x + y * y) in
  let a := (1 / x) * (1 + b * y) in
  let c := b * snd A - a * fst A in
  let d := - (b * fst A + a * snd A) in
  (a, b, c, d).

(** The hash [quad] returns for the ordered points A, B, C, D. *)
Definition quad_hash_f64 (A B C D : fpoint) : float * float * float * float :=
  let t := quad_transform_f64 A B in
  let '(xC, yC) := apply_transform_f64 t C in
  let '(xD, yD) := apply_transform_f64 t D in
  let testa := ltb xD xC in
  let testb := ltb 1 (xC + xD) in
  if testa then
    if testb then (1 - xC, 1 - yC, 1 - xD, 1 - yD) else (xD, yD, xC, yC)
  else if testb then (1 - xD, 1 - yD, 1 - xC, 1 - yC)
  else (xC, yC, xD, yD).

(** [int(x)]: truncation towards zero; nan and the infinities raise. *)
Definition int_of_float (x : float) : result Z :=
  match Prim2SF x with
  | S754_zero _ => Ok 0%Z
  | S754_finite s m e =>
      let mag := match e with
                 | Z0 => Zpos m
                 | Zpos p => Z.shiftl (Zpos m) (Zpos p)
                 | Zneg p => Z.shiftr (Zpos m) (Zpos p)
                 end in
      Ok (if s then (- mag)%Z else mag)
  | S754_nan => Raise ValueError
  | S754_infinity _ => Raise OverflowError
  end.

(** The float64 value of a length. *)
Definition float_of_nat (n : nat) : float := of_uint63 (Uint63.of_Z (Z.of_nat n)).

(** Values used in the examples. *)
Definition half : float := 0.5.
Definition origin : fpoint := (0, 0).
Definition unit_x : fpoint := (1, 0).
Definition shift_2_53 : float * float * float * float := (1, 0, 9007199254740992, 0).
Definition shift_back : float * float * float * float := (1, 0, -9007199254740992, 0).
Definition quad_A : fpoint := (0, 0).
Definition quad_B : fpoint := (10, 2).
Definition quad_C : fpoint := (3, 8).
Definition quad_D : fpoint := (7, 5).

End Float64.

(** *** __init__, statement by statement

    The constructor with the files it may read.  A catalogue argument is a
    table or the name of a SExtractor file; the image is an opened FITS file
    or a file name; [shape] is [None], a file name, an opened FITS file, or
    any other value, which is kept as it is; [ndets] is an [int] or a
    [float].  [Table.read], [fits.open] and [fits.getheader] are taken as
    given.  Every call on the catalogues, the image and the headers is
    recorded, in the order of the statements. *)

Inductive cat_arg : Type :=
| cat_file (name : String.string)
| cat_table (t : table).

(** The chosen hdu of an opened FITS file: its pixels, and NAXIS1 and NAXIS2
    of its header. *)
Record HDUList : Type := mkHDUList { hdu_data : image; hdu_naxis : nat * nat }.

Inductive fits_arg : Type :=
| fits_file (name : String.string)
| fits_hdulist (h : HDUList).

Inductive shape_arg : Type :=
| shape_None
| shape_file (name : String.string)
| shape_hdulist (h : HDUList)
| shape_value (s : nat * nat).

Inductive ndets_value : Set :=
| ndets_of_int (n : Z)
| ndets_of_float (f : PrimFloat.float).

Inductive call : Set :=
| call_Table_read (which : image_name)
| call_Table_copy (which : image_name)
| call_fits_open
| call_HDUList_copy
| call_fits_getheader
| call_header
| call_len (which : image_name)
| call_trim_cat (which : image_name)
| call_get_det_coords (which : image_name).

(** A computation that records its calls and may raise: the calls made up to
    the end, or up to the exception. *)
Definition traced (A : Type) : Type := list call * result A.

Definition tret {A : Type} (a : A) : traced A := ([], Ok a).

Definition did {A : Type} (c : call) (r : result A) : traced A := ([c], r).

Definition tbind {A B : Type} (m : traced A) (k : A -> traced B) : traced B :=
  match snd m with
  | Ok a => (fst m ++ fst (k a), snd (k a))
  | Raise e => (fst m, Raise e)
  end.

Notation "x <<- m ;; k" := (tbind m (fun x => k))
  (at level 61, m at next level, right associativity).

Section Constructor.

Variable Table_read : String.string -> result table.
Variable fits_open : String.string -> result HDUList.
Variable fits_getheader : String.string -> result (nat * nat).

Definition load_cat (which : image_name) (arg : cat_arg) : traced table :=
  match arg with
  | cat_file name => did (call_Table_read which) (Table_read name)
  | cat_table t => tret t
  end.

Definition load_fits (arg : fits_arg) : traced HDUList :=
  match arg with
  | fits_file name => did call_fits_open (fits_open name)
  | fits_hdulist h => tret h
  end.

Definition load_shape (arg : shape_arg) (source_fits : HDUList) : traced (nat * nat) :=
  match arg with
  | shape_file name => did call_fits_getheader (fits_getheader name)
  | shape_hdulist h => did call_header (Ok (hdu_naxis h))
  | shape_None => did call_header (Ok (hdu_naxis source_fits))
  | shape_value s => tret s
  end.

(** A [float] is resolved to [int(ndets * ntot)], the product being that of
    float64. *)
Definition load_ndets (arg : ndets_value) (source_cat template_cat : table)
  : traced Z :=
  match arg with
  | ndets_of_float f =>
      _ <<- did (call_len source) (Ok tt) ;;
      _ <<- did (call_len template) (Ok tt) ;;
      let ntot := Nat.min (length source_cat) (length template_cat) in
      ([], Float64.int_of_float (PrimFloat.mul f (Float64.float_of_nat ntot)))
  | ndets_of_int n => tret n
  end.

Definition construct (source_cat template_cat : cat_arg) (source_fits : fits_arg)
    (shape : shape_arg) (ndets : ndets_value) (nquaddets : Z) (minquadsep : Q)
    (maxmatchdist : Q) (minnmatch : Z) (spline_order interp_order : Z)
    (quiet : bool) : traced Spalipy :=
  source_cat <<- load_cat source source_cat ;;
  _ <<- did (call_Table_copy source) (Ok tt) ;;
  template_cat <<- load_cat template template_cat ;;
  _ <<- did (call_Table_copy template) (Ok tt) ;;
  source_fits <<- load_fits source_fits ;;
  _ <<- did call_HDUList_copy (Ok tt) ;;
  shape <<- load_shape shape source_fits ;;
  ndets <<- load_ndets ndets source_cat template_cat ;;
  if (ndets <? minnmatch)%Z then ([], Raise ValueError)
  else
    source_trim <<- did (call_trim_cat source)
                        (Ok (trim_cat_with ndets maxmatchdist source_cat 2 7 None)) ;;
    _ <<- did (call_get_det_coords source) (Ok tt) ;;
    template_trim <<- did (call_trim_cat template)
                          (Ok (trim_cat_with ndets maxmatchdist template_cat 2 7 None)) ;;
    _ <<- did (call_get_det_coords template) (Ok tt) ;;
    tret (mkSpalipy source_cat template_cat (hdu_data source_fits) shape ndets
            nquaddets minquadsep maxmatchdist minnmatch spline_order interp_order
            source_trim template_trim [] [] 0%nat None None None false None None
            None false quiet []).

End Constructor.

(** ** Notions used to state the properties *)

(** Equality of rational coordinates, of hashes and of transforms. *)
Definition point_eq (p q : point) : Prop := fst p == fst q /\ snd p == snd q.

Definition hash_eq (h k : hash) : Prop :=
  let '(a, b, c, d) := h in
  let '(a', b', c', d') := k in
  a == a' /\ b == b' /\ c == c' /\ d == d'.

Definition signature_eq (h k : option hash) : Prop :=
  match h, k with
  | Some h, Some k => hash_eq h k
  | None, None => True
  | _, _ => False
  end.

Definition affine_eq (t u : AffineTransform) : Prop :=
  v0 t == v0 u /\ v1 t == v1 u /\ v2 t == v2 u /\ v3 t == v3 u.

(** The signature [make_quadlist] stores for four points. *)
Definition signature (combo : list point) : result (option hash) :=
  q <- quad combo (pdist combo) ;; Ok (snd q).

Definition same_signature (r s : result (option hash)) : Prop :=
  match r, s with
  | Ok h, Ok k => signature_eq h k
  | _, _ => False
  end.

(** All orders in which a list can be enumerated. *)
Fixpoint insert_all {A : Type} (a : A) (l : list A) : list (list A) :=
  match l with
  | [] => [[a]]
  | b :: l' => (a :: l) :: map (cons b) (insert_all a l')
  end.

Fixpoint permutations {A : Type} (l : list A) : list (list A) :=
  match l with
  | [] => [[]]
  | a :: l' => flat_map (insert_all a) (permutations l')
  end.

Definition reindex (combo : list point) (s : list nat) : list point :=
  map (fun i => nth i combo (0, 0)) s.


(** The two symmetry tests of [quad] are strict: the x-coordinates of C and
    D in the frame of A and B are neither equal nor of sum 1. *)
Definition no_symmetry_tie (A B C D : point) : Prop :=
  forall t, quad_transform A B = Some t ->
            ~ fst (apply_transform_xy t C) == fst (apply_transform_xy t D) /\
            ~ fst (apply_transform_xy t C) + fst (apply_transform_xy t D) == 1.


(** Sums over the detections of a catalogue. *)
Definition sum_of (f : point -> Q) (s : list point) : Q :=
  fold_right (fun p acc => f p + acc) 0 s.

Definition norm2 (p : point) : Q := fst p * fst p + snd p * snd p.

(** [n * sum |p|^2 - |sum p|^2], the spread of the points: the determinant
    of the normal equations of [calc_affine_transform] is its square. *)
Definition spread (s : list point) : Q :=
  sum_of (fun _ => 1) s * sum_of norm2 s
  - sum_of fst s * sum_of fst s - sum_of snd s * sum_of snd s.

(** Nearest and second-nearest distance in a collection of distances,
    whatever the order they are enumerated in. *)
Definition nearest_two (ds : list dist) (d1 d2 : dist) : Prop :=
  exists rest, Permutation ds (d1 :: d2 :: rest) /\
               sq d1 <= sq d2 /\ Forall (fun d => sq d2 <= sq d) rest.

(** The match rule for a transformed source point [p]: its nearest template
    distance is at most [maxmatchdist] and its second-nearest at least
    [2 * maxmatchdist]. *)
Definition matched (template_coo : list point) (maxmatchdist : Q) (p : point) : Prop :=
  exists d1 d2,
    nearest_two (map (euclidean p) template_coo) d1 d2 /\
    (0 <= maxmatchdist /\ sq d1 <= maxmatchdist * maxmatchdist) /\
    (2 * maxmatchdist <= 0 \/
     (2 * maxmatchdist) * (2 * maxmatchdist) <= sq d2).

Definition det_coords (r : detection) : point := (X_IMAGE r, Y_IMAGE r).

(** [match_dets] row by row: the distances of a source detection to the
    template, their argsort, and the test it passes. *)
Definition row_dists (self : Spalipy) (transform : AffineTransform) (r : detection)
  : list dist :=
  map (euclidean (apply_transform_xy transform (det_coords r))) (template_coo self).

Definition row_argsort (self : Spalipy) (transform : AffineTransform) (r : detection)
  : list nat :=
  argsort dist_leb (row_dists self transform r).

Definition row_sorted (self : Spalipy) (transform : AffineTransform) (r : detection)
  : list dist :=
  map (fun j => nth j (row_dists self transform r) (Sqrt 0))
      (row_argsort self transform r).

Definition row_passed (self : Spalipy) (transform : AffineTransform) (m : Q)
    (r : detection) : bool :=
  dist_le_Q (nth 0 (row_sorted self transform r) (Sqrt 0)) m
  && dist_ge_Q (nth 1 (row_sorted self transform r) (Sqrt 0)) (2 * m).

Definition row_nearest (self : Spalipy) (transform : AffineTransform) (r : detection)
  : nat :=
  nth 0 (row_argsort self transform r) 0%nat.

(** ** A small run used in the examples

    Six detections; the template is the source mapped through
    [example_transform] (a rotation by [atan (4/3)] and a shift). *)
Definition example_transform : AffineTransform := mkAffine (3 # 5) (4 # 5) 7 (-2).

Definition example_source : table :=
  [mkDet 0 0 10 3 0; mkDet 40 3 9 3 0; mkDet 10 55 8 3 0;
   mkDet 70 60 7 3 0; mkDet 33 21 6 3 0; mkDet 90 5 5 3 0].

Definition example_template : table :=
  [mkDet 7 (-2) 10 3 0; mkDet (143 # 5) (159 # 5) 9 3 0; mkDet (-31) 39 8 3 0;
   mkDet 1 90 7 3 0; mkDet 10 37 6 3 0; mkDet 57 73 5 3 0].

Definition example_image : image := [[1; 2]; [3; 4]].

(** The instance built from them with [ndets = 6], [nquaddets = 6],
    [minquadsep = 1], [maxmatchdist = 1], [minnmatch = 4] and the given
    [spline_order]. *)
Definition example_self (spline_order : Z) : Spalipy :=
  mkSpalipy example_source example_template example_image (2, 2)%nat
            6 6 1 1 4 spline_order 3 example_source example_template
            [] [] 0%nat None None None false None None None false true [].

(** Removal of close pairs, stated on the rows: a row stays when no row at
    another index lies within [minsep] of it. *)
Definition isolated (cat : table) (minsep : Q) (ir : nat * detection) : bool :=
  negb (existsb (fun js => negb (Nat.eqb (fst ir) (fst js))
                           && within_radius (euclidean (det_coords (snd ir))
                                                       (det_coords (snd js))) minsep)
                (enumerate cat)).

Definition remove_close_pairs (cat : table) (minsep : Q) : table :=
  map snd (filter (isolated cat minsep) (enumerate cat)).

(** The rows [trim_cat] keeps in its first step. *)
Definition valid_detection (minfwhm : Q) (maxflag : Z) (r : detection) : bool :=
  Qle_bool minfwhm (FWHM_IMAGE r) && (FLAGS r <=? maxflag)%Z.

(** The same with "closer than [minsep]" read strictly, and the catalogue
    this reading of the trimming would give. *)
Definition remove_closer_pairs (cat : table) (minsep : Q) : table :=
  map snd
      (filter (fun ir =>
                 negb (existsb (fun js => negb (Nat.eqb (fst ir) (fst js))
                                          && dist_lt_Q (euclidean (det_coords (snd ir))
                                                                  (det_coords (snd js)))
                                                       minsep)
                               (enumerate cat)))
              (enumerate cat)).

Definition trim_closer_than (ndets : Z) (maxmatchdist : Q) (cat : table)
    (minfwhm : Q) (maxflag : Z) : table :=
  slice_to ndets
    (remove_closer_pairs
       (rev (sort_by flux_leb (filter (valid_detection minfwhm maxflag) cat)))
       (2 * maxmatchdist)).

(** Candidate [bi] is passed over: its hash distance is not below
    [minquaddist], or its initial guess matches at most [minnmatch]
    detections. *)
Definition rejected (self : Spalipy) (maxmatchdist : Q) (minnmatch : Z)
    (minquaddist : Q) (mindist : list (option dist)) (minddist_idx : list nat)
    (bi : nat) : Prop :=
  exists dist, getitem mindist bi = Ok dist /\
    (below dist minquaddist = false \/
     exists n s t, initial_guess self maxmatchdist minddist_idx bi = Ok (n, s, t) /\
                   (Z.of_nat n <= minnmatch)%Z).

(** Candidate [bi] succeeds with the final result [final]. *)
Definition accepted (self : Spalipy) (maxmatchdist : Q) (minnmatch : Z)
    (minquaddist : Q) (mindist : list (option dist)) (minddist_idx : list nat)
    (bi : nat) (final : search) : Prop :=
  exists dist n s t,
    getitem mindist bi = Ok dist /\ below dist minquaddist = true /\
    initial_guess self maxmatchdist minddist_idx bi = Ok (n, s, t) /\
    (minnmatch < Z.of_nat n)%Z /\
    refine self maxmatchdist s t = Ok final.

(** [self.f = x] for the four results of [find_affine_transform]. *)
Definition set_found (n : nat) (s t : table) (transform : AffineTransform)
    (self : Spalipy) : Spalipy :=
  set_affine_transform (Some transform)
    (set_template_matchdets (Some t) (set_source_matchdets (Some s) (set_nmatch n self))).

(** The transform re-fitted on the detections of the example. *)
Definition example_refit : AffineTransform :=
  match calc_affine_transform (get_det_coords example_source)
                              (get_det_coords example_template) with
  | Ok t => t
  | Raise _ => example_transform
  end.

(** ** Stand-ins for the scipy primitives, used to run the examples

    Order-0 resampling (the nearest pixel, zero outside the image), a fit
    that returns the zero surface and a fit that fails. *)
Definition pixel (a : image) (i j : Z) : Q :=
  if ((0 <=? i) && (0 <=? j))%Z
  then nth (Z.to_nat j) (nth (Z.to_nat i) a []) 0
  else 0.

Definition nearest (q : Q) : Z := Qfloor (q + (1 # 2)).

Definition nearest_map_coordinates (input : image) (coordinates : list (list point))
    (order : Z) : image :=
  map (map (fun c => pixel input (nearest (fst c)) (nearest (snd c)))) coordinates.

Definition nearest_affine_transform (input : image) (matrix : (Q * Q) * (Q * Q))
    (offset : Q * Q) (order : Z) (output_shape : nat * nat) : image :=
  map (fun x =>
         map (fun y =>
                pixel input
                      (nearest (fst (fst matrix) * Zq x + snd (fst matrix) * Zq y
                                + fst offset))
                      (nearest (fst (snd matrix) * Zq x + snd (snd matrix) * Zq y
                                + snd offset)))
             (seq 0 (snd output_shape)))
      (seq 0 (fst output_shape)).

Definition zero_spline (x y z : list Q) (kx ky : Z) : result surface :=
  Ok (fun _ _ => 0).

Definition failing_spline (x y z : list Q) (kx ky : Z) : result surface :=
  Raise dfitpackError.

(** A run small enough to follow by hand: four detections, the template
    being the source shifted by one pixel in [x]; a template of another
    shape; the instance built from them with [ndets = 4], [nquaddets = 4],
    [minquadsep = 1], [maxmatchdist = 1] and the given [minnmatch] and
    [spline_order]. *)
Definition tiny_source : table :=
  [mkDet 0 0 10 3 0; mkDet 10 2 9 3 0; mkDet 3 8 8 3 0; mkDet 7 5 7 3 0].

Definition tiny_template : table :=
  [mkDet 1 0 10 3 0; mkDet 11 2 9 3 0; mkDet 4 8 8 3 0; mkDet 8 5 7 3 0].

Definition tiny_unrelated : table :=
  [mkDet 0 0 10 3 0; mkDet 10 1 9 3 0; mkDet 2 9 8 3 0; mkDet 6 3 7 3 0].

Definition tiny_self (source_cat template_cat : table) (minnmatch spline_order : Z)
  : Spalipy :=
  mkSpalipy source_cat template_cat example_image (2, 2)%nat
            4 4 1 1 minnmatch spline_order 3 source_cat template_cat
            [] [] 0%nat None None None false None None None false true [].

(** The same with a fifth detection, after [make_quadlist] on both images,
    and the results of its run. *)
Definition five_source : table := tiny_source ++ [mkDet 12 9 6 3 0].
Definition five_template : table := tiny_template ++ [mkDet 13 9 6 3 0].

Definition five_ready : Spalipy :=
  snd (make_quadlist
         (snd (make_quadlist (tiny_self five_source five_template 3 0)
                             source (Some 5%Z) None))
         template (Some 5%Z) None).

Definition five_dists : list (list (option dist)) :=
  match cdist_hash (map snd (template_quadlist five_ready))
                   (map snd (source_quadlist five_ready)) with
  | Ok dists => dists
  | Raise _ => []
  end.

Definition five_refit : AffineTransform :=
  match calc_affine_transform (get_det_coords five_source)
                              (get_det_coords five_template) with
  | Ok t => t
  | Raise _ => mkAffine 1 0 1 0
  end.

(** The inputs of the resampler are the same in two states of an
    instance. *)
Definition same_setup (s s' : Spalipy) : Prop :=
  source_data s' = source_data s /\ shape s' = shape s /\
  spline_order s' = spline_order s /\ interp_order s' = interp_order s.


(** [example_self 0] with a shift by one pixel in [x] as its transform, and
    the same with residual surfaces that take the shift back. *)
Definition shifted_self : Spalipy :=
  set_affine_transform (Some (mkAffine 1 0 1 0)) (example_self 0).

Definition splined_self : Spalipy :=
  set_spline_transform true
    (set_sbs_y (Some (fun _ _ => 0))
       (set_sbs_x (Some (fun _ _ => -1)) shifted_self)).

(** What a caller of a method sees: how it ended, what it printed and the
    image it stored. *)
Definition outcome (out : result unit * Spalipy)
  : result unit * list message * option image :=
  (fst out, stdout (snd out), source_data_transform (snd out)).

(** Two lists of distances, the second being the first scaled by [s]. *)
Definition scaled (s : Q) (l l' : list dist) : Prop :=
  Forall2 (fun d d' => sq d' == s * sq d) l l'.

(** The coordinates [make_quadlist] reads for an image and the list it
    writes. *)
Definition coo_of (image : image_name) (self : Spalipy) : list point :=
  match image with
  | source => source_coo self
  | _ => template_coo self
  end.

Definition quadlist_of (image : image_name) (self : Spalipy) : list quad_t :=
  match image with
  | source => source_quadlist self
  | _ => template_quadlist self
  end.

(** The rows [i0 < i1 < i2 < i3] of the first [n] rows of [coo]. *)
Definition combo_of (coo : list point) (n i0 i1 i2 i3 : nat) (combo : list point)
  : Prop :=
  (i0 < i1 < i2)%nat /\ (i2 < i3 < n)%nat /\ (n <= length coo)%nat /\
  combo = [nth i0 coo (0, 0); nth i1 coo (0, 0); nth i2 coo (0, 0); nth i3 coo (0, 0)].

(** All pairs of points of [combo] are farther apart than [sep]. *)
Definition separated (combo : list point) (sep : Q) : Prop :=
  forall d, In d (pdist combo) -> sep < 0 \/ sep * sep < sq d.

(** The template detections are the images of the source detections under
    [t], row by row. *)
Definition exact_transform (t : AffineTransform) (source_cat template_cat : table)
  : Prop :=
  Forall2 (fun s u => point_eq (det_coords u) (apply_transform_xy t (det_coords s)))
          source_cat template_cat.

(** Any two rows of [cat] are at least [sep] apart. *)
Definition spaced (cat : table) (sep : Q) : Prop :=
  forall i j d, (i < length cat)%nat -> (j < length cat)%nat -> i <> j ->
                sep * sep <= sq (euclidean (det_coords (nth i cat d))
                                           (det_coords (nth j cat d))).

(** [tiny_self] asking for more than four matches, after [make_quadlist] on
    both images, and the hash distances of its quads. *)
Definition tiny_ready : Spalipy :=
  snd (make_quadlist
         (snd (make_quadlist (tiny_self tiny_source tiny_template 4 0)
                             source None None))
         template None None).

Definition tiny_dists : list (list (option dist)) :=
  match cdist_hash (map snd (template_quadlist tiny_ready))
                   (map snd (source_quadlist tiny_ready)) with
  | Ok dists => dists
  | Raise _ => []
  end.

(** Five detections and their images under a shift by one pixel in [x]; the
    quad of the detections 1, 3, 4 and 5 has a vertical longest diagonal. *)
Definition vertical_source : table :=
  [mkDet 0 0 10 3 0; mkDet 10 2 9 3 0; mkDet 3 8 8 3 0; mkDet 7 5 7 3 0;
   mkDet 0 20 6 3 0].

Definition vertical_template : table :=
  [mkDet 1 0 10 3 0; mkDet 11 2 9 3 0; mkDet 4 8 8 3 0; mkDet 8 5 7 3 0;
   mkDet 1 20 6 3 0].

Definition vertical_self : Spalipy :=
  mkSpalipy vertical_source vertical_template example_image (2, 2)%nat
            5 5 1 1 3 0 3 vertical_source vertical_template
            [] [] 0%nat None None None false None None None false true [].

(** ** Further notions and examples *)

(** The calls the constructor makes before the check of [ndets]: reading and
    copying the two catalogues and the image, reading the shape, taking the
    lengths. *)
Definition calls_before_check
    (Table_read : String.string -> result table)
    (fits_open : String.string -> result HDUList)
    (fits_getheader : String.string -> result (nat * nat))
    (source_cat template_cat : cat_arg)
    (source_fits : fits_arg) (shape : shape_arg) (ndets : ndets_value)
    (sc tc : table) (h : HDUList) : list call :=
  fst (load_cat Table_read source source_cat) ++ [call_Table_copy source]
  ++ fst (load_cat Table_read template template_cat) ++ [call_Table_copy template]
  ++ fst (load_fits fits_open source_fits) ++ [call_HDUList_copy]
  ++ fst (load_shape fits_getheader shape h) ++ fst (load_ndets ndets sc tc).

(** A constructor that is given tables and an opened image reads no file. *)
Definition no_file {A : Type} (name : String.string) : result A := Raise ValueError.

(** The first entry of a hash, and the test that two float64 values are
    equal. *)
Definition hash_xC {A : Type} (h : A * A * A * A) : A := fst (fst (fst h)).

Definition same_float (x y : PrimFloat.float) : bool := PrimFloat.eqb x y.

(** The match rule on one row of the array of computed distances, the
    distances of one transformed source detection to all template
    detections: the nearest is at most [maxmatchdist] and the second nearest
    at least [2 * maxmatchdist]. *)
Definition matched_row (row : list dist) (maxmatchdist : Q) : Prop :=
  exists d1 d2,
    nearest_two row d1 d2 /\
    dist_le_Q d1 maxmatchdist = true /\ dist_ge_Q d2 (2 * maxmatchdist) = true.

(** A column of a row that holds a smallest distance of the row. *)
Definition nearest_column (row : list dist) (j : nat) : Prop :=
  (j < length row)%nat /\
  forall e, In e row -> sq (nth j row (Sqrt 0)) <= sq e.

(** What [match_dets] does on one row: the row sorted, its test, and the
    column first in its argsort. *)
Definition sorted_row (row : list dist) : list dist :=
  map (fun j => nth j row (Sqrt 0)) (argsort dist_leb row).

Definition row_test (m : Q) (row : list dist) : bool :=
  dist_le_Q (nth 0 (sorted_row row) (Sqrt 0)) m
  && dist_ge_Q (nth 1 (sorted_row row) (Sqrt 0)) (2 * m).

Definition first_column (row : list dist) : nat := nth 0 (argsort dist_leb row) 0%nat.

(** The squared length of the difference of two vectors, and of the
    residual [a w - y] of a linear system. *)
Fixpoint sum_sq_diff (u y : list Q) : Q :=
  match u, y with
  | a :: u', b :: y' => (a - b) * (a - b) + sum_sq_diff u' y'
  | _, _ => 0
  end.

Definition residual (a : matrix) (w y : list Q) : Q := sum_sq_diff (matvec a w) y.

(** [w] is a least-squares solution of [a w = y]: no vector has a smaller
    residual. *)
Definition least_squares (a : matrix) (y w : list Q) : Prop :=
  forall w', length w' = length w -> residual a w y <= residual a w' y.

(** Six detections whose first four are two symmetric pairs: the template
    holds their images under a shift by one pixel in [x], the first four in
    the order of their images under the half turn that exchanges the two
    pairs.  The quad of the first four matches the template quad of the
    first four through the half turn, which matches no other detection.
    The instance has [ndets = 6], [nquaddets = 5], [minquadsep = 1],
    [maxmatchdist = 1], [minnmatch = 4]. *)
Definition twin_source : table :=
  [mkDet 7 (-6) 10 3 0; mkDet 0 0 9 3 0; mkDet 10 2 8 3 0; mkDet 3 8 7 3 0;
   mkDet 6 5 6 3 0; mkDet 12 9 5 3 0].

Definition twin_template : table :=
  [mkDet 4 8 10 3 0; mkDet 11 2 9 3 0; mkDet 1 0 8 3 0; mkDet 8 (-6) 7 3 0;
   mkDet 7 5 6 3 0; mkDet 13 9 5 3 0].

Definition twin_matched : table :=
  [mkDet 8 (-6) 7 3 0; mkDet 1 0 8 3 0; mkDet 11 2 9 3 0; mkDet 4 8 10 3 0;
   mkDet 7 5 6 3 0; mkDet 13 9 5 3 0].

Definition twin_ready : Spalipy :=
  snd (make_quadlist
         (snd (make_quadlist
                 (mkSpalipy twin_source twin_template example_image (2, 2)%nat
                            6 5 1 1 4 0 3 twin_source twin_template
                            [] [] 0%nat None None None false None None None false
                            true [])
                 source None None))
         template None None).

Definition twin_dists : list (list (option dist)) :=
  match cdist_hash (map snd (template_quadlist twin_ready))
                   (map snd (source_quadlist twin_ready)) with
  | Ok dists => dists
  | Raise _ => []
  end.

Definition twin_refit : AffineTransform :=
  match calc_affine_transform (get_det_coords twin_source)
                              (get_det_coords twin_matched) with
  | Ok t => t
  | Raise _ => mkAffine 1 0 1 0
  end.

(** A trial transform of the search: the transform that [calc_affine_transform]
    gives for the first two points of a stored source quad and the first two
    points of a stored template quad. *)
Definition trial_transform (self : Spalipy) (guess : AffineTransform) : Prop :=
  exists template_quad source_quad,
    In template_quad (template_quadlist self) /\
    In source_quad (source_quadlist self) /\
    calc_affine_transform (firstn 2 (fst source_quad)) (firstn 2 (fst template_quad))
    = Ok guess.

(** The count printed when no candidate succeeds: the number of detections
    matched by a trial transform, not above [minnmatch]; or 0, the initial
    value, when no candidate was tried. *)
Definition reported_count (self : Spalipy) (maxmatchdist : Q) (minnmatch : Z)
    (n : nat) : Prop :=
  n = 0%nat \/
  exists guess s t,
    trial_transform self guess /\
    match_dets self guess (Some maxmatchdist) = Ok (n, s, t) /\
    (Z.of_nat n <= minnmatch)%Z.

(** A transform stored by the search is validated: it is the re-fit on the
    more than [minnmatch] detections that a trial transform matched, and
    [n], [s], [t] are what [match_dets] returns for it. *)
Definition validated (self : Spalipy) (maxmatchdist : Q) (minnmatch : Z)
    (n : nat) (s t : table) (transform : AffineTransform) : Prop :=
  exists guess n0 s0 t0,
    trial_transform self guess /\
    match_dets self guess (Some maxmatchdist) = Ok (n0, s0, t0) /\
    (minnmatch < Z.of_nat n0)%Z /\
    calc_affine_transform (get_det_coords s0) (get_det_coords t0) = Ok transform /\
    match_dets self transform (Some maxmatchdist) = Ok (n, s, t).

(** An instance that still holds the transform of an earlier search, with
    catalogues in which no quad matches. *)
Definition stale_self : Spalipy :=
  set_affine_transform (Some (mkAffine 1 0 0 0))
                       (tiny_self tiny_source tiny_unrelated 3 0).

(** Candidate [bi] is not tried: its hash distance is not below
    [minquaddist]. *)
Definition not_tried (minquaddist : Q) (mindist : list (option dist)) (bi : nat)
  : Prop :=
  exists dist, getitem mindist bi = Ok dist /\ below dist minquaddist = false.

(** [twin_ready] with a quad of non-finite hash put in front of its source
    quads. *)
Definition twin_vertical : Spalipy :=
  set_source_quadlist
    (([(0, 0); (0, 4); (1, 2); (3, 1)], None) :: source_quadlist twin_ready)
    twin_ready.

(** * Properties *)

(** ** Booleans of the rational order *)

Lemma Qlt_bool_iff (x y : Q) : Qlt_bool x y = true <-> x < y.
Proof.
  unfold Qlt_bool. rewrite negb_true_iff.
  split; intro H.
  - apply Qnot_le_lt. intro Hle. apply Qle_bool_iff in Hle. congruence.
  - destruct (Qle_bool y x) eqn:E; [|reflexivity].
    apply Qle_bool_iff in E. lra.
Qed.

Lemma Qlt_bool_false_iff (x y : Q) : Qlt_bool x y = false <-> y <= x.
Proof.
  unfold Qlt_bool. rewrite negb_false_iff. apply Qle_bool_iff.
Qed.

Lemma Qle_bool_false_iff (x y : Q) : Qle_bool x y = false <-> y < x.
Proof.
  rewrite <- Qlt_bool_iff. unfold Qlt_bool.
  destruct (Qle_bool x y); simpl; intuition congruence.
Qed.

Lemma Qeq_bool_false_iff (x y : Q) : Qeq_bool x y = false <-> ~ x == y.
Proof.
  split.
  - apply Qeq_bool_neq.
  - intro H. destruct (Qeq_bool x y) eqn:E; [|reflexivity].
    apply Qeq_bool_iff in E. contradiction.
Qed.

Lemma fdiv_None (x y : Q) : fdiv x y = None <-> y == 0.
Proof.
  unfold fdiv. destruct (Qeq_bool y 0) eqn:E.
  - apply Qeq_bool_iff in E. tauto.
  - apply Qeq_bool_false_iff in E. split; [discriminate | tauto].
Qed.

Lemma fdiv_Some (x y q : Q) : fdiv x y = Some q -> ~ y == 0 /\ q = x / y.
Proof.
  unfold fdiv. destruct (Qeq_bool y 0) eqn:E; [discriminate|].
  apply Qeq_bool_false_iff in E. intro H. injection H as <-. auto.
Qed.

(** ** AffineTransform: inverse and round trip *)

Lemma inverse_defined (t : AffineTransform) :
  ~ v0 t * v0 t + v1 t * v1 t == 0 ->
  inverse t =
  Ok (let dt := det3 ((v0 t, - v1 t, v2 t), (v1 t, v0 t, v3 t), (0, 0, 1)) in
      mkAffine ((v0 t * 1 - v3 t * 0) / dt) ((v3 t * 0 - v1 t * 1) / dt)
               ((- v1 t * v3 t - v2 t * v0 t) / dt)
               ((v2 t * v1 t - v0 t * v3 t) / dt)).
Proof.
  intro Hdet. unfold inverse, linalg_inv.
  destruct (Qeq_bool _ 0) eqn:E.
  - apply Qeq_bool_iff in E. exfalso. apply Hdet. unfold det3 in E.
    etransitivity; [|exact E]. ring.
  - reflexivity.
Qed.

Lemma inverse_singular (t : AffineTransform) :
  v0 t * v0 t + v1 t * v1 t == 0 -> inverse t = Raise LinAlgError.
Proof.
  intro H. unfold inverse, linalg_inv.
  destruct (Qeq_bool _ 0) eqn:E; [reflexivity|].
  apply Qeq_bool_false_iff in E. exfalso. apply E. unfold det3.
  etransitivity; [|exact H]. ring.
Qed.

(** C6, in exact arithmetic.  For parameters [(a, b, c, d)] with [a^2 + b^2
    > 0] the inverse transform exists, and mapping any point through the
    transform and back through its inverse returns the point.  In float64
    the round trip is exact only up to rounding, and the error is not within
    a tolerance that holds for all parameters
    ([round_trip_float64_counterexample]). *)
Theorem inverse_round_trip (t : AffineTransform) (p : point) :
  0 < v0 t * v0 t + v1 t * v1 t ->
  exists inv, inverse t = Ok inv /\
              point_eq (apply_transform_xy inv (apply_transform_xy t p)) p.
Proof.
  intro Hpos.
  assert (Hdet : ~ v0 t * v0 t + v1 t * v1 t == 0) by lra.
  eexists. split; [apply inverse_defined; exact Hdet|].
  unfold point_eq, apply_transform_xy, det3. cbn [v0 v1 v2 v3 fst snd].
  split; field; intro H; apply Hdet; (etransitivity; [|exact H]); ring.
Qed.

Lemma inverse_round_trip_witness :
  exists inv, inverse (mkAffine (3 # 5) (4 # 5) 7 (-2)) = Ok inv /\
              point_eq (apply_transform_xy inv
                          (apply_transform_xy (mkAffine (3 # 5) (4 # 5) 7 (-2)) (1, 2)))
                       (1, 2).
Proof.
  apply (inverse_round_trip (mkAffine (3 # 5) (4 # 5) 7 (-2)) (1, 2)).
  reflexivity.
Defined.

(** C6 as stated fails in float64: the round trip is not within a tolerance
    that holds for all parameters.  With the shift [c = 2^53] the points
    (1, 0) and (0, 0) have the same image, so no inverse returns both; with
    the exact inverse parameters (1, 0, -2^53, 0) the round trip of (1, 0)
    is (0, 0). *)
Lemma round_trip_float64_counterexample :
  Float64.apply_transform_f64 Float64.shift_2_53 Float64.unit_x
  = Float64.apply_transform_f64 Float64.shift_2_53 Float64.origin /\
  Float64.unit_x <> Float64.origin /\
  Float64.apply_transform_f64 Float64.shift_back
    (Float64.apply_transform_f64 Float64.shift_2_53 Float64.unit_x)
  = Float64.origin.
Proof.
  split; [vm_compute; reflexivity|]. split; [|vm_compute; reflexivity].
  intro H.
  assert (K : same_float (fst Float64.unit_x) (fst Float64.unit_x)
              = same_float (fst Float64.unit_x) (fst Float64.origin))
    by (rewrite H at 2; reflexivity).
  vm_compute in K. discriminate K.
Qed.



(** ** quad: the two-point transform *)

Lemma quad_transform_None (A B : point) :
  quad_transform A B = None <-> fst B - fst A == 0.
Proof.
  unfold quad_transform. split.
  - intro H.
    destruct (fdiv _ (_ + _)) as [b|] eqn:Eb.
    + cbn [obind] in H.
      destruct (fdiv 1 _) as [ix|] eqn:Ex; [discriminate|].
      apply fdiv_None in Ex. exact Ex.
    + apply fdiv_None in Eb.
      set (x := fst B - fst A) in *. set (y := snd B - snd A) in *. nra.
  - intro H.
    destruct (fdiv _ (_ + _)) as [b|]; [|reflexivity].
    cbn [obind]. apply (fdiv_None 1) in H. rewrite H. reflexivity.
Qed.

Lemma quad_transform_Some (A B : point) (t : AffineTransform) :
  quad_transform A B = Some t ->
  let x := fst B - fst A in
  let y := snd B - snd A in
  ~ x == 0 /\ ~ x * x + y * y == 0 /\
  v1 t == (x - y) / (x * x + y * y) /\
  v0 t == (x + y) / (x * x + y * y) /\
  v2 t == v1 t * snd A - v0 t * fst A /\
  v3 t == - (v1 t * fst A + v0 t * snd A).
Proof.
  unfold quad_transform. intro H.
  destruct (fdiv _ (_ + _)) as [b|] eqn:Eb; [|discriminate].
  cbn [obind] in H.
  destruct (fdiv 1 _) as [ix|] eqn:Ex; [|discriminate].
  cbn [obind] in H. injection H as <-.
  apply fdiv_Some in Eb. destruct Eb as [Hd ->].
  apply fdiv_Some in Ex. destruct Ex as [Hx ->].
  cbn [v0 v1 v2 v3]. repeat split; try assumption; try reflexivity.
  field. split; assumption.
Qed.

(** The transform brings A to [(0, 0)] and B to [(1, 1)]. *)
Lemma quad_transform_frame (A B : point) (t : AffineTransform) :
  quad_transform A B = Some t ->
  point_eq (apply_transform_xy t A) (0, 0) /\
  point_eq (apply_transform_xy t B) (1, 1).
Proof.
  intro H. apply quad_transform_Some in H. cbv zeta in H.
  destruct H as (Hx & Hd & Hb & Ha & Hc & Hdd).
  unfold point_eq, apply_transform_xy. cbn [fst snd].
  rewrite Hc, Hdd, Hb, Ha.
  repeat split; field; assumption.
Qed.

Lemma quad_ordered_hash_None (A B C D : point) :
  snd (quad_ordered A B C D) = None <-> fst B - fst A == 0.
Proof.
  rewrite <- quad_transform_None. unfold quad_ordered.
  destruct (quad_transform A B) as [t|]; [|tauto].
  destruct (apply_transform_xy t C) as [xC yC].
  destruct (apply_transform_xy t D) as [xD yD].
  destruct (Qlt_bool xD xC), (Qlt_bool 1 (xC + xD)); cbn [snd];
    split; discriminate.
Qed.

(** C10.  [quad] divides by [x = Bx - Ax], the difference of the
    x-coordinates of the pair of largest distance: whenever that pair has
    equal x-coordinates the hash is not a finite 4-tuple, and it is finite
    otherwise; [quad] itself still returns. *)
Theorem quad_hash_non_finite_iff_vertical (combo : list point) (dists : list dist)
    (A B C D : point) :
  longest_first combo dists = Ok [A; B; C; D] ->
  exists q, quad combo dists = Ok q /\ (snd q = None <-> fst B - fst A == 0).
Proof.
  intro H. unfold quad. rewrite H. cbn [bind].
  eexists. split; [reflexivity|].
  apply quad_ordered_hash_None.
Qed.

Lemma quad_hash_non_finite_witness :
  exists q,
    quad [(0, 0); (1, 3); (0, 10); (2, 6)] (pdist [(0, 0); (1, 3); (0, 10); (2, 6)])
    = Ok q /\
    (snd q = None <-> fst (0, 10) - fst (0, 0) == 0).
Proof.
  apply (quad_hash_non_finite_iff_vertical
           [(0, 0); (1, 3); (0, 10); (2, 6)]
           (pdist [(0, 0); (1, 3); (0, 10); (2, 6)])
           (0, 0) (0, 10) (1, 3) (2, 6)).
  reflexivity.
Defined.

(** The non-finite hash is reached from [make_quadlist]: four distinct
    detections, pairwise more than [minquadsep = 1] apart. *)
Example quads_of_non_finite :
  quads_of [(0, 0); (1, 3); (0, 10); (2, 6)] 1 (combinations (seq 0 4) 4)
  = Ok [([(0, 0); (0, 10); (1, 3); (2, 6)], None)].
Proof. reflexivity. Qed.


(** ** argmax *)







(** ** quad: symmetry breaking *)

(** Exchanging A and B reflects the frame through [1 - value]. *)
Lemma quad_transform_swap (A B : point) (t : AffineTransform) :
  quad_transform A B = Some t ->
  exists t', quad_transform B A = Some t' /\
             forall p, fst (apply_transform_xy t' p) == 1 - fst (apply_transform_xy t p) /\
                       snd (apply_transform_xy t' p) == 1 - snd (apply_transform_xy t p).
Proof.
  intro H. pose proof (quad_transform_Some A B t H) as Ht. cbv zeta in Ht.
  destruct Ht as (Hx & Hd & Hb & Ha & Hc & Hdd).
  destruct (quad_transform B A) as [t'|] eqn:E.
  - exists t'. split; [reflexivity|].
    pose proof (quad_transform_Some B A t' E) as Ht'. cbv zeta in Ht'.
    destruct Ht' as (Hx' & Hd' & Hb' & Ha' & Hc' & Hdd').
    intro p. unfold apply_transform_xy. cbn [fst snd].
    rewrite Hc', Hdd', Hb', Ha', Hc, Hdd, Hb, Ha.
    split; field; repeat split; assumption.
  - apply quad_transform_None in E. exfalso. apply Hx. lra.
Qed.

Lemma no_symmetry_tie_swap_AB (A B C D : point) :
  no_symmetry_tie A B C D -> no_symmetry_tie B A C D.
Proof.
  intros H t' Ht'.
  destruct (quad_transform_swap B A t' Ht') as (t & Ht & Hrel).
  destruct (H t Ht) as [H1 H2].
  destruct (Hrel C) as [HC _]. destruct (Hrel D) as [HD _].
  split; intro K; [apply H1 | apply H2]; lra.
Qed.


Ltac bool_cases :=
  repeat match goal with
         | |- context [Qlt_bool ?a ?b] =>
             let E := fresh "E" in
             destruct (Qlt_bool a b) eqn:E;
             [apply Qlt_bool_iff in E | apply Qlt_bool_false_iff in E]
         end.







(** ** quad: independence of the enumeration order *)








Example permutations_four :
  length (permutations [0; 1; 2; 3]%nat) = 24%nat /\
  NoDup (permutations [0; 1; 2; 3]%nat).
Proof.
  split; [reflexivity|].
  cbn. repeat (constructor; [cbn; intuition discriminate|]). constructor.
Qed.




(** In float64 the same 4-tuple is reached only up to rounding.  The points
    (0, 0), (10, 2), (3, 8), (7, 5) have (0, 0), (10, 2) as their longest
    pair; with A = (0, 0) and B = (10, 2) the first entry of the hash is
    -0.26923076923076927, with A and B exchanged it is -0.26923076923076916,
    where exact arithmetic gives -7/26 both times. *)
Example quad_signature_rounding_example :
  same_float (hash_xC (Float64.quad_hash_f64 Float64.quad_A Float64.quad_B
                                             Float64.quad_C Float64.quad_D))
             (hash_xC (Float64.quad_hash_f64 Float64.quad_B Float64.quad_A
                                             Float64.quad_C Float64.quad_D))
  = false /\
  (exists h, signature [(0, 0); (10, 2); (3, 8); (7, 5)] = Ok (Some h) /\
             hash_xC h == -7 # 26) /\
  (exists h, signature [(10, 2); (0, 0); (3, 8); (7, 5)] = Ok (Some h) /\
             hash_xC h == -7 # 26).
Proof.
  split; [vm_compute; reflexivity|].
  split; eexists; (split; [vm_compute; reflexivity | vm_compute; reflexivity]).
Qed.



(** The two other ties.  With [xC + xD = 1] exchanging A and B changes the
    signature; with two pairs of the same largest distance the signature
    depends on which of them comes first. *)
Example quad_signature_sum_tie :
  ~ same_signature (signature (reindex [(0, 0); (4, 4); (1, 0); (3, 1)] [1; 0; 2; 3]%nat))
                   (signature [(0, 0); (4, 4); (1, 0); (3, 1)]).
Proof. vm_compute. intros (_ & H & _). discriminate H. Qed.

Example quad_signature_two_longest :
  ~ same_signature
      (signature (reindex [(0, 0); (5, 0); (3 # 2, -2); (9 # 2, 2)] [2; 3; 0; 1]%nat))
      (signature [(0, 0); (5, 0); (3 # 2, -2); (9 # 2, 2)]).
Proof. vm_compute. intros (H & _). discriminate H. Qed.


(** ** __init__ *)

(** Conversely a satisfiable configuration trims both catalogues. *)
Lemma init_accepts (source_cat template_cat : table)
    (source_data : image) (shape : nat * nat) (ndets : ndets_arg)
    (nquaddets : Z) (minquadsep maxmatchdist : Q) (minnmatch : Z)
    (spline_order interp_order : Z) (quiet : bool) :
  (minnmatch <= resolve_ndets ndets source_cat template_cat)%Z ->
  exists self,
    init source_cat template_cat source_data shape ndets nquaddets minquadsep
         maxmatchdist minnmatch spline_order interp_order quiet
    = ([step_trim_cat source; step_get_det_coords source;
        step_trim_cat template; step_get_det_coords template], Ok self) /\
    affine_transform self = None /\ source_data_transform self = None.
Proof.
  intro H. unfold init.
  apply Z.ltb_ge in H. rewrite H. eexists. split; [reflexivity|]. split; reflexivity.
Qed.

(** ** __init__: the order of its statements *)

Section ConstructorProperties.

Variable Table_read : String.string -> result table.
Variable fits_open : String.string -> result HDUList.
Variable fits_getheader : String.string -> result (nat * nat).

Local Abbreviation load_cat_ := (load_cat Table_read).
Local Abbreviation load_fits_ := (load_fits fits_open).
Local Abbreviation load_shape_ := (load_shape fits_getheader).
Local Abbreviation construct_ := (construct Table_read fits_open fits_getheader).
Local Abbreviation calls_before_check_ :=
  (calls_before_check Table_read fits_open fits_getheader).

Lemma tbind_ok {A B : Type} (m : traced A) (k : A -> traced B) (a : A) :
  snd m = Ok a -> tbind m k = (fst m ++ fst (k a), snd (k a)).
Proof. intro H. unfold tbind. now rewrite H. Qed.

Lemma construct_check (source_cat template_cat : cat_arg) (source_fits : fits_arg)
    (shape : shape_arg) (ndets : ndets_value) (nquaddets : Z)
    (minquadsep maxmatchdist : Q) (minnmatch : Z) (spline_order interp_order : Z)
    (quiet : bool) (sc tc : table) (h : HDUList) (sh : nat * nat) (n : Z) :
  snd (load_cat_ source source_cat) = Ok sc ->
  snd (load_cat_ template template_cat) = Ok tc ->
  snd (load_fits_ source_fits) = Ok h ->
  snd (load_shape_ shape h) = Ok sh ->
  snd (load_ndets ndets sc tc) = Ok n ->
  construct_ source_cat template_cat source_fits shape ndets nquaddets minquadsep
             maxmatchdist minnmatch spline_order interp_order quiet
  = if (n <? minnmatch)%Z
    then (calls_before_check_ source_cat template_cat source_fits shape ndets sc tc h,
          Raise ValueError)
    else (calls_before_check_ source_cat template_cat source_fits shape ndets sc tc h
          ++ [call_trim_cat source; call_get_det_coords source;
              call_trim_cat template; call_get_det_coords template],
          Ok (mkSpalipy sc tc (hdu_data h) sh n nquaddets minquadsep maxmatchdist
                minnmatch spline_order interp_order
                (trim_cat_with n maxmatchdist sc 2 7 None)
                (trim_cat_with n maxmatchdist tc 2 7 None)
                [] [] 0%nat None None None false None None None false quiet [])).
Proof.
  intros Hs Ht Hf Hsh Hn. unfold construct, calls_before_check.
  rewrite (tbind_ok _ _ sc Hs).
  rewrite (tbind_ok (did (call_Table_copy source) (Ok tt)) _ tt eq_refl).
  rewrite (tbind_ok _ _ tc Ht).
  rewrite (tbind_ok (did (call_Table_copy template) (Ok tt)) _ tt eq_refl).
  rewrite (tbind_ok _ _ h Hf).
  rewrite (tbind_ok (did call_HDUList_copy (Ok tt)) _ tt eq_refl).
  rewrite (tbind_ok _ _ sh Hsh).
  rewrite (tbind_ok _ _ n Hn).
  destruct (n <? minnmatch)%Z.
  - cbn [fst snd did app]. rewrite !app_nil_r.
    repeat rewrite <- app_assoc. reflexivity.
  - cbn [fst snd did tbind tret app]. rewrite ?app_nil_r.
    repeat (rewrite <- app_assoc; cbn [app]). reflexivity.
Qed.

Lemma load_cat_calls (which which' : image_name) (arg : cat_arg) (c : call) :
  In c (fst (load_cat_ which arg)) -> c = call_Table_read which.
Proof. destruct arg; cbn; intuition. Qed.

Lemma load_fits_calls (arg : fits_arg) (c : call) :
  In c (fst (load_fits_ arg)) -> c = call_fits_open.
Proof. destruct arg; cbn; intuition. Qed.

Lemma load_shape_calls (arg : shape_arg) (h : HDUList) (c : call) :
  In c (fst (load_shape_ arg h)) -> c = call_fits_getheader \/ c = call_header.
Proof. destruct arg; cbn; intuition. Qed.

Lemma load_ndets_calls (arg : ndets_value) (sc tc : table) (c : call) :
  In c (fst (load_ndets arg sc tc)) -> c = call_len source \/ c = call_len template.
Proof. destruct arg; cbn; intuition. Qed.

(** C8, as the code has it.  Whenever the resolved [ndets] is below
    [minnmatch] the constructor raises [ValueError], the configuration error
    of the program.  By then it has read and copied both catalogues and the
    image, read the shape and, for a fractional [ndets], taken the lengths of
    the catalogues; it has trimmed no catalogue and built no coordinate
    array. *)
Theorem construct_raises_before_trimming (source_cat template_cat : cat_arg)
    (source_fits : fits_arg) (shape : shape_arg) (ndets : ndets_value)
    (nquaddets : Z) (minquadsep maxmatchdist : Q) (minnmatch : Z)
    (spline_order interp_order : Z) (quiet : bool)
    (sc tc : table) (h : HDUList) (sh : nat * nat) (n : Z) :
  snd (load_cat_ source source_cat) = Ok sc ->
  snd (load_cat_ template template_cat) = Ok tc ->
  snd (load_fits_ source_fits) = Ok h ->
  snd (load_shape_ shape h) = Ok sh ->
  snd (load_ndets ndets sc tc) = Ok n ->
  (n < minnmatch)%Z ->
  let out := construct_ source_cat template_cat source_fits shape ndets nquaddets
                        minquadsep maxmatchdist minnmatch spline_order interp_order
                        quiet in
  snd out = Raise ValueError /\
  fst out = calls_before_check_ source_cat template_cat source_fits shape ndets sc tc h /\
  In (call_Table_copy source) (fst out) /\
  In (call_Table_copy template) (fst out) /\
  In call_HDUList_copy (fst out) /\
  forall which, ~ In (call_trim_cat which) (fst out) /\
                ~ In (call_get_det_coords which) (fst out).
Proof.
  intros Hs Ht Hf Hsh Hn Hlt out. unfold out.
  rewrite (construct_check source_cat template_cat source_fits shape ndets nquaddets
             minquadsep maxmatchdist minnmatch spline_order interp_order quiet
             sc tc h sh n Hs Ht Hf Hsh Hn).
  apply Z.ltb_lt in Hlt. rewrite Hlt. cbn [fst snd].
  split; [reflexivity|]. split; [reflexivity|].
  unfold calls_before_check.
  split; [rewrite !in_app_iff; cbn; tauto|].
  split; [rewrite !in_app_iff; cbn; tauto|].
  split; [rewrite !in_app_iff; cbn; tauto|].
  intro which. rewrite !in_app_iff. cbn [In].
  split; intro K;
    repeat match goal with
           | K : _ \/ _ |- _ => destruct K as [K | K]
           | K : False |- _ => contradiction
           | K : In _ (fst (load_cat_ _ _)) |- _ =>
               apply (load_cat_calls _ source) in K; discriminate K
           | K : In _ (fst (load_fits_ _)) |- _ =>
               apply load_fits_calls in K; discriminate K
           | K : In _ (fst (load_shape_ _ _)) |- _ =>
               apply load_shape_calls in K; destruct K as [K | K]; discriminate K
           | K : In _ (fst (load_ndets _ _ _)) |- _ =>
               apply load_ndets_calls in K; destruct K as [K | K]; discriminate K
           | K : _ = _ |- _ => discriminate K
           end.
Qed.

(** A configuration that can be satisfied goes on to trim both catalogues. *)
Lemma construct_accepts (source_arg template_arg : cat_arg)
    (source_fits : fits_arg) (shape : shape_arg) (ndets : ndets_value)
    (nquaddets : Z) (minquadsep maxmatchdist : Q) (minnmatch : Z)
    (spline_order interp_order : Z) (quiet : bool)
    (sc tc : table) (h : HDUList) (sh : nat * nat) (n : Z) :
  snd (load_cat_ source source_arg) = Ok sc ->
  snd (load_cat_ template template_arg) = Ok tc ->
  snd (load_fits_ source_fits) = Ok h ->
  snd (load_shape_ shape h) = Ok sh ->
  snd (load_ndets ndets sc tc) = Ok n ->
  (minnmatch <= n)%Z ->
  exists self,
    construct_ source_arg template_arg source_fits shape ndets nquaddets
               minquadsep maxmatchdist minnmatch spline_order interp_order quiet
    = (calls_before_check_ source_arg template_arg source_fits shape ndets sc tc h
       ++ [call_trim_cat source; call_get_det_coords source;
           call_trim_cat template; call_get_det_coords template], Ok self) /\
    source_cat self = trim_cat_with n maxmatchdist sc 2 7 None /\
    template_cat self = trim_cat_with n maxmatchdist tc 2 7 None /\
    affine_transform self = None /\ source_data_transform self = None.
Proof.
  intros Hs Ht Hf Hsh Hn Hge.
  rewrite (construct_check source_arg template_arg source_fits shape ndets nquaddets
             minquadsep maxmatchdist minnmatch spline_order interp_order quiet
             sc tc h sh n Hs Ht Hf Hsh Hn).
  apply Z.ltb_ge in Hge. rewrite Hge.
  eexists. split; [reflexivity|]. repeat split.
Qed.

End ConstructorProperties.

Lemma construct_raises_before_trimming_witness :
  let out := construct no_file no_file no_file
               (cat_table [mkDet 1 1 10 3 0; mkDet 30 1 9 3 0])
               (cat_table [mkDet 2 2 10 3 0]) (fits_hdulist (mkHDUList [[0]] (1, 1)%nat))
               shape_None (ndets_of_int 50) 20 50 5 200 3 3 false in
  snd out = Raise ValueError /\
  fst out = [call_Table_copy source; call_Table_copy template; call_HDUList_copy;
             call_header] /\
  In (call_Table_copy source) (fst out) /\
  In (call_Table_copy template) (fst out) /\
  In call_HDUList_copy (fst out) /\
  forall which, ~ In (call_trim_cat which) (fst out) /\
                ~ In (call_get_det_coords which) (fst out).
Proof.
  apply (construct_raises_before_trimming no_file no_file no_file
           (cat_table [mkDet 1 1 10 3 0; mkDet 30 1 9 3 0])
           (cat_table [mkDet 2 2 10 3 0]) (fits_hdulist (mkHDUList [[0]] (1, 1)%nat))
           shape_None (ndets_of_int 50) 20 50 5 200 3 3 false
           [mkDet 1 1 10 3 0; mkDet 30 1 9 3 0] [mkDet 2 2 10 3 0]
           (mkHDUList [[0]] (1, 1)%nat) (1, 1)%nat 50%Z);
    try reflexivity.
Defined.

(** C8 as stated fails: the check of [ndets] is not the first thing the
    constructor does.  With [ndets = 0.5] and two catalogues of three and
    two detections it has copied both catalogues and the image, read the
    header, taken both lengths and computed [int(0.5 * 2) = 1] before it
    raises. *)
Lemma construct_work_before_check_counterexample :
  construct no_file no_file no_file
    (cat_table [mkDet 1 1 10 3 0; mkDet 30 1 9 3 0; mkDet 60 1 8 3 0])
    (cat_table [mkDet 2 2 10 3 0; mkDet 31 2 9 3 0])
    (fits_hdulist (mkHDUList [[0]] (1, 1)%nat))
    shape_None (ndets_of_float Float64.half) 20 50 5 200 3 3 false
  = ([call_Table_copy source; call_Table_copy template; call_HDUList_copy;
      call_header; call_len source; call_len template], Raise ValueError) /\
  snd (load_ndets (ndets_of_float Float64.half)
                  [mkDet 1 1 10 3 0; mkDet 30 1 9 3 0; mkDet 60 1 8 3 0]
                  [mkDet 2 2 10 3 0; mkDet 31 2 9 3 0]) = Ok 1%Z.
Proof. split; vm_compute; reflexivity. Qed.



(** ** linalg.solve on a 4x4 system *)

Lemma linalg_solve_4 (a00 a01 a02 a03 a10 a11 a12 a13
                      a20 a21 a22 a23 a30 a31 a32 a33 : Q)
    (b0 b1 b2 b3 x0 x1 x2 x3 : Q) :
  let a := [[a00; a01; a02; a03]; [a10; a11; a12; a13];
            [a20; a21; a22; a23]; [a30; a31; a32; a33]] in
  a00 * x0 + a01 * x1 + a02 * x2 + a03 * x3 == b0 ->
  a10 * x0 + a11 * x1 + a12 * x2 + a13 * x3 == b1 ->
  a20 * x0 + a21 * x1 + a22 * x2 + a23 * x3 == b2 ->
  a30 * x0 + a31 * x1 + a32 * x2 + a33 * x3 == b3 ->
  ~ det 4 a == 0 ->
  exists w0 w1 w2 w3,
    linalg_solve a [b0; b1; b2; b3] = Ok [w0; w1; w2; w3] /\
    w0 == x0 /\ w1 == x1 /\ w2 == x2 /\ w3 == x3.
Proof.
  intros a H0 H1 H2 H3 Hdet.
  unfold linalg_solve. cbn [length is_square forallb Nat.eqb andb negb a].
  destruct (Qeq_bool (det 4 a) 0) eqn:E.
  { apply Qeq_bool_iff in E. contradiction. }
  cbn [seq map].
  do 4 eexists. split; [reflexivity|].
  unfold a in *. clear a E.
  cbn in Hdet |- *.
  rewrite <- H0, <- H1, <- H2, <- H3.
  repeat split; field; intro K; apply Hdet; (etransitivity; [|exact K]); ring.
Qed.


(** ** calc_affine_transform: the design matrix and its normal equations *)

Lemma source_matrix_shape (s : list point) :
  length (source_matrix s) = (2 * length s)%nat /\
  Forall (fun r => length r = 4%nat) (source_matrix s).
Proof.
  induction s as [|p s [IH1 IH2]].
  - split; [reflexivity | constructor].
  - split.
    + change (source_matrix (p :: s))
        with ([fst p; - snd p; 1; 0] :: [snd p; fst p; 0; 1] :: source_matrix s).
      cbn [length]. rewrite IH1. lia.
    + repeat constructor. exact IH2.
Qed.

(** Row [2i] and row [2i+1] are the two equations of the model at
    detection [i]. *)
Lemma source_matrix_model (t : AffineTransform) (s : list point) :
  Forall2 Qeq (matvec (source_matrix s) [v0 t; v1 t; v2 t; v3 t])
              (ravel (apply_transform t s)).
Proof.
  induction s as [|p s IH]; cbn.
  - constructor.
  - constructor; [ring|]. constructor; [ring|]. exact IH.
Qed.

Lemma col_source_matrix_cons (j : nat) (p : point) (s : list point) :
  col j (source_matrix (p :: s)) =
  nth j [fst p; - snd p; 1; 0] 0 :: nth j [snd p; fst p; 0; 1] 0
      :: col j (source_matrix s).
Proof. reflexivity. Qed.

Lemma dot_cons (a b : Q) (u w : list Q) : dot (a :: u) (b :: w) = a * b + dot u w.
Proof. reflexivity. Qed.

Lemma ravel_apply_cons (t : AffineTransform) (p : point) (s : list point) :
  ravel (apply_transform t (p :: s)) =
  fst (apply_transform_xy t p) :: snd (apply_transform_xy t p)
      :: ravel (apply_transform t s).
Proof. reflexivity. Qed.

Lemma sum_of_cons (f : point -> Q) (p : point) (s : list point) :
  sum_of f (p :: s) = f p + sum_of f s.
Proof. reflexivity. Qed.

Ltac gram_induction s :=
  let p := fresh "p" in
  let IH := fresh "IH" in
  induction s as [|p s IH];
  [ unfold dot, sum_of;
    cbn [source_matrix flat_map col map combine fold_right ravel apply_transform app];
    ring
  | rewrite ?col_source_matrix_cons, ?ravel_apply_cons, ?dot_cons, ?sum_of_cons;
    cbn [nth apply_transform_xy fst snd];
    rewrite IH; unfold norm2; ring ].

Local Abbreviation c j s := (col j (source_matrix s)).

Lemma gram_00 (s : list point) : dot (c 0 s) (c 0 s) == sum_of norm2 s.
Proof. gram_induction s. Qed.

Lemma gram_01 (s : list point) : dot (c 0 s) (c 1 s) == 0.
Proof. gram_induction s. Qed.

Lemma gram_02 (s : list point) : dot (c 0 s) (c 2 s) == sum_of fst s.
Proof. gram_induction s. Qed.

Lemma gram_03 (s : list point) : dot (c 0 s) (c 3 s) == sum_of snd s.
Proof. gram_induction s. Qed.

Lemma gram_10 (s : list point) : dot (c 1 s) (c 0 s) == 0.
Proof. gram_induction s. Qed.

Lemma gram_11 (s : list point) : dot (c 1 s) (c 1 s) == sum_of norm2 s.
Proof. gram_induction s. Qed.

Lemma gram_12 (s : list point) : dot (c 1 s) (c 2 s) == - sum_of snd s.
Proof. gram_induction s. Qed.

Lemma gram_13 (s : list point) : dot (c 1 s) (c 3 s) == sum_of fst s.
Proof. gram_induction s. Qed.

Lemma gram_20 (s : list point) : dot (c 2 s) (c 0 s) == sum_of fst s.
Proof. gram_induction s. Qed.

Lemma gram_21 (s : list point) : dot (c 2 s) (c 1 s) == - sum_of snd s.
Proof. gram_induction s. Qed.

Lemma gram_22 (s : list point) : dot (c 2 s) (c 2 s) == sum_of (fun _ => 1) s.
Proof. gram_induction s. Qed.

Lemma gram_23 (s : list point) : dot (c 2 s) (c 3 s) == 0.
Proof. gram_induction s. Qed.

Lemma gram_30 (s : list point) : dot (c 3 s) (c 0 s) == sum_of snd s.
Proof. gram_induction s. Qed.

Lemma gram_31 (s : list point) : dot (c 3 s) (c 1 s) == sum_of fst s.
Proof. gram_induction s. Qed.

Lemma gram_32 (s : list point) : dot (c 3 s) (c 2 s) == 0.
Proof. gram_induction s. Qed.

Lemma gram_33 (s : list point) : dot (c 3 s) (c 3 s) == sum_of (fun _ => 1) s.
Proof. gram_induction s. Qed.

Lemma moment_0 (t : AffineTransform) (s : list point) :
  dot (c 0 s) (ravel (apply_transform t s)) ==
  v0 t * sum_of norm2 s + v2 t * sum_of fst s + v3 t * sum_of snd s.
Proof. gram_induction s. Qed.

Lemma moment_1 (t : AffineTransform) (s : list point) :
  dot (c 1 s) (ravel (apply_transform t s)) ==
  v1 t * sum_of norm2 s - v2 t * sum_of snd s + v3 t * sum_of fst s.
Proof. gram_induction s. Qed.

Lemma moment_2 (t : AffineTransform) (s : list point) :
  dot (c 2 s) (ravel (apply_transform t s)) ==
  v0 t * sum_of fst s - v1 t * sum_of snd s + v2 t * sum_of (fun _ => 1) s.
Proof. gram_induction s. Qed.

Lemma moment_3 (t : AffineTransform) (s : list point) :
  dot (c 3 s) (ravel (apply_transform t s)) ==
  v1 t * sum_of fst s + v0 t * sum_of snd s + v3 t * sum_of (fun _ => 1) s.
Proof. gram_induction s. Qed.


(** ** The spread of the source points *)

Lemma sum_of_nonneg (f : point -> Q) (s : list point) :
  (forall q, 0 <= f q) -> 0 <= sum_of f s.
Proof.
  intro Hf. induction s as [|p s IH]; [cbn; lra|].
  rewrite sum_of_cons. specialize (Hf p). lra.
Qed.

Lemma sum_of_ge_term (f : point -> Q) (s : list point) (q : point) :
  (forall q, 0 <= f q) -> In q s -> f q <= sum_of f s.
Proof.
  intros Hf Hq. induction s as [|p s IH]; [contradiction|].
  rewrite sum_of_cons. destruct Hq as [-> | Hq].
  - pose proof (sum_of_nonneg f s Hf). lra.
  - specialize (IH Hq). specialize (Hf p). lra.
Qed.

Lemma euclidean_nonneg (p q : point) : 0 <= sq (euclidean p q).
Proof.
  unfold euclidean. cbn [sq].
  set (dx := fst p - fst q). set (dy := snd p - snd q). nra.
Qed.

Lemma euclidean_pos (p q : point) : ~ point_eq p q -> 0 < sq (euclidean p q).
Proof.
  intro Hne. apply Qnot_le_lt. intro Hle. apply Hne.
  unfold euclidean in Hle. cbn [sq] in Hle. unfold point_eq.
  set (dx := fst p - fst q) in *. set (dy := snd p - snd q) in *.
  assert (Hx : dx == 0) by nra. assert (Hy : dy == 0) by nra.
  unfold dx in Hx. unfold dy in Hy. split; lra.
Qed.

Lemma sum_of_euclidean (p : point) (s : list point) :
  sum_of (fun q => sq (euclidean p q)) s ==
  sum_of (fun _ => 1) s * norm2 p
  - 2 * (fst p * sum_of fst s + snd p * sum_of snd s) + sum_of norm2 s.
Proof.
  induction s as [|q s IH]; [cbn; ring|].
  rewrite !sum_of_cons, IH. unfold norm2. cbn [sq euclidean]. ring.
Qed.

Lemma spread_cons (p : point) (s : list point) :
  spread (p :: s) == spread s + sum_of (fun q => sq (euclidean p q)) s.
Proof.
  rewrite sum_of_euclidean. unfold spread. rewrite !sum_of_cons.
  unfold norm2. ring.
Qed.

Lemma spread_nonneg (s : list point) : 0 <= spread s.
Proof.
  induction s as [|p s IH]; [unfold spread, sum_of; cbn [fold_right]; lra|].
  rewrite spread_cons.
  pose proof (sum_of_nonneg (fun q => sq (euclidean p q)) s (euclidean_nonneg p)).
  lra.
Qed.

Lemma point_eq_sym (p q : point) : point_eq p q -> point_eq q p.
Proof. intros [H1 H2]. split; symmetry; assumption. Qed.

Lemma spread_pos (s : list point) :
  (exists p q, In p s /\ In q s /\ ~ point_eq p q) -> 0 < spread s.
Proof.
  induction s as [|a s IH]; intros (p & q & Hp & Hq & Hne).
  - contradiction.
  - rewrite spread_cons.
    pose proof (spread_nonneg s) as Hs.
    pose proof (sum_of_nonneg (fun r => sq (euclidean a r)) s (euclidean_nonneg a)) as Hw.
    destruct Hp as [<- | Hp], Hq as [<- | Hq].
    + exfalso. apply Hne. split; reflexivity.
    + pose proof (sum_of_ge_term (fun r => sq (euclidean a r)) s q
                                 (euclidean_nonneg a) Hq) as Hge.
      pose proof (euclidean_pos a q Hne). cbv beta in Hge. lra.
    + pose proof (sum_of_ge_term (fun r => sq (euclidean a r)) s p
                                 (euclidean_nonneg a) Hp) as Hge.
      assert (Hne' : ~ point_eq a p) by (intro K; apply Hne, point_eq_sym, K).
      pose proof (euclidean_pos a p Hne'). cbv beta in Hge. lra.
    + assert (0 < spread s) by (apply IH; exists p, q; auto). lra.
Qed.


(** ** calc_affine_transform recovers a noiseless transform *)

Lemma ravel_length (s : list point) : length (ravel s) = (2 * length s)%nat.
Proof.
  induction s as [|p s IH]; [reflexivity|].
  change (ravel (p :: s)) with (fst p :: snd p :: ravel s).
  cbn [length]. rewrite IH. lia.
Qed.

Lemma apply_transform_length (t : AffineTransform) (s : list point) :
  length (apply_transform t s) = length s.
Proof. apply length_map. Qed.

(** Two correspondences: the exactly determined 4x4 system. *)
Lemma solve_two_points (t : AffineTransform) (p q : point) :
  ~ point_eq p q ->
  exists w0 w1 w2 w3,
    linalg_solve (source_matrix [p; q]) (ravel (apply_transform t [p; q]))
    = Ok [w0; w1; w2; w3] /\
    w0 == v0 t /\ w1 == v1 t /\ w2 == v2 t /\ w3 == v3 t.
Proof.
  intro Hne.
  change (source_matrix [p; q])
    with [[fst p; - snd p; 1; 0]; [snd p; fst p; 0; 1];
          [fst q; - snd q; 1; 0]; [snd q; fst q; 0; 1]].
  change (ravel (apply_transform t [p; q]))
    with [fst (apply_transform_xy t p); snd (apply_transform_xy t p);
          fst (apply_transform_xy t q); snd (apply_transform_xy t q)].
  apply linalg_solve_4; cbn [apply_transform_xy fst snd]; try ring.
  intro Hdet. apply (Qlt_irrefl 0).
  pose proof (euclidean_pos p q Hne) as Hpos.
  unfold euclidean in Hpos. cbn [sq] in Hpos.
  cbn in Hdet.
  assert (E : (fst p - fst q) * (fst p - fst q) + (snd p - snd q) * (snd p - snd q) == 0).
  { etransitivity; [|exact Hdet]. ring. }
  lra.
Qed.

(** More correspondences: the normal equations of the least-squares
    problem, whose determinant is the square of the spread. *)
Lemma lstsq_noiseless (t : AffineTransform) (s : list point) :
  0 < spread s ->
  exists w0 w1 w2 w3,
    linalg_lstsq 4 (source_matrix s) (ravel (apply_transform t s))
    = Ok [w0; w1; w2; w3] /\
    w0 == v0 t /\ w1 == v1 t /\ w2 == v2 t /\ w3 == v3 t.
Proof.
  intro Hpos. unfold linalg_lstsq.
  rewrite ravel_length, apply_transform_length.
  rewrite (proj1 (source_matrix_shape s)), Nat.eqb_refl. cbn [negb].
  cbn [transpose seq map matvec].
  pose proof (gram_00 s) as G00. pose proof (gram_01 s) as G01.
  pose proof (gram_02 s) as G02. pose proof (gram_03 s) as G03.
  pose proof (gram_10 s) as G10. pose proof (gram_11 s) as G11.
  pose proof (gram_12 s) as G12. pose proof (gram_13 s) as G13.
  pose proof (gram_20 s) as G20. pose proof (gram_21 s) as G21.
  pose proof (gram_22 s) as G22. pose proof (gram_23 s) as G23.
  pose proof (gram_30 s) as G30. pose proof (gram_31 s) as G31.
  pose proof (gram_32 s) as G32. pose proof (gram_33 s) as G33.
  pose proof (moment_0 t s) as M0. pose proof (moment_1 t s) as M1.
  pose proof (moment_2 t s) as M2. pose proof (moment_3 t s) as M3.
  unfold spread in Hpos.
  repeat match goal with
         | |- context [dot ?u ?w] =>
             let a := fresh "a" in set (a := dot u w) in *
         end.
  match goal with
  | |- exists w0 w1 w2 w3, match ?sol with _ => _ end = _ /\ _ =>
      assert (Hsol : exists w0 w1 w2 w3,
                 sol = Ok [w0; w1; w2; w3] /\
                 w0 == v0 t /\ w1 == v1 t /\ w2 == v2 t /\ w3 == v3 t)
  end.
  { apply linalg_solve_4.
    - rewrite G00, G10, G20, G30, M0. ring.
    - rewrite G01, G11, G21, G31, M1. ring.
    - rewrite G02, G12, G22, G32, M2. ring.
    - rewrite G03, G13, G23, G33, M3. ring.
    - cbn. rewrite G00, G01, G02, G03, G10, G11, G12, G13,
                   G20, G21, G22, G23, G30, G31, G32, G33.
      intro Hdet.
      set (n := sum_of (fun _ => 1) s) in *.
      set (sxx := sum_of norm2 s) in *.
      set (sx := sum_of fst s) in *. set (sy := sum_of snd s) in *.
      assert (E : (n * sxx - sx * sx - sy * sy) * (n * sxx - sx * sx - sy * sy) == 0).
      { etransitivity; [|exact Hdet]. ring. }
      nra. }
  destruct Hsol as (w0 & w1 & w2 & w3 & -> & H).
  exists w0, w1, w2, w3. split; [reflexivity | exact H].
Qed.


(** ** calc_affine_transform: the generating transform is the only solution *)

Lemma sum_sq_diff_nonneg (u y : list Q) : 0 <= sum_sq_diff u y.
Proof.
  revert y. induction u as [|a u IH]; intros [|b y]; cbn [sum_sq_diff]; try lra.
  pose proof (IH y) as H. revert H. generalize (sum_sq_diff u y), (a - b).
  intros r d H. assert (K : 0 <= d * d) by nra. lra.
Qed.

Lemma sum_sq_diff_zero (u y : list Q) : Forall2 Qeq u y -> sum_sq_diff u y == 0.
Proof.
  induction 1 as [|a b u y Hab _ IH]; cbn [sum_sq_diff]; [reflexivity|].
  rewrite IH, Hab. ring.
Qed.

Lemma sum_sq_diff_zero_inv (u y : list Q) :
  length u = length y -> sum_sq_diff u y <= 0 -> Forall2 Qeq u y.
Proof.
  revert y. induction u as [|a u IH]; intros [|b y] Hlen H; try discriminate Hlen.
  - constructor.
  - cbn [sum_sq_diff] in H. pose proof (sum_sq_diff_nonneg u y) as Hn.
    assert (Hsq : 0 <= (a - b) * (a - b)) by (generalize (a - b); intro d; nra).
    constructor.
    + assert (K : (a - b) * (a - b) == 0) by lra.
      apply Qmult_integral in K. destruct K as [K | K]; lra.
    + apply IH; [now injection Hlen | lra].
Qed.

(** The two equations of a detection, read off a solution of the system. *)
Lemma system_at (t : AffineTransform) (s : list point) (w0 w1 w2 w3 : Q) (p : point) :
  In p s ->
  Forall2 Qeq (matvec (source_matrix s) [w0; w1; w2; w3])
              (ravel (apply_transform t s)) ->
  w0 * fst p - w1 * snd p + w2 == v0 t * fst p - v1 t * snd p + v2 t /\
  w1 * fst p + w0 * snd p + w3 == v1 t * fst p + v0 t * snd p + v3 t.
Proof.
  induction s as [|q s IH]; intros Hin H; [contradiction|].
  change (matvec (source_matrix (q :: s)) [w0; w1; w2; w3])
    with (dot [fst q; - snd q; 1; 0] [w0; w1; w2; w3]
          :: dot [snd q; fst q; 0; 1] [w0; w1; w2; w3]
          :: matvec (source_matrix s) [w0; w1; w2; w3]) in H.
  rewrite ravel_apply_cons in H.
  inversion H as [|? ? ? ? E1 H']; subst. inversion H' as [|? ? ? ? E2 H'']; subst.
  destruct Hin as [<- | Hin]; [|apply (IH Hin H'')].
  cbn in E1, E2. split.
  - rewrite <- E1. ring.
  - rewrite <- E2. ring.
Qed.

(** Noiseless correspondences with two different source points determine
    the transform: the system has no other solution. *)
Lemma noiseless_solution_unique (t : AffineTransform) (s : list point)
    (w0 w1 w2 w3 : Q) :
  (exists p q, In p s /\ In q s /\ ~ point_eq p q) ->
  Forall2 Qeq (matvec (source_matrix s) [w0; w1; w2; w3])
              (ravel (apply_transform t s)) ->
  affine_eq (mkAffine w0 w1 w2 w3) t.
Proof.
  intros (p & q & Hp & Hq & Hne) H.
  destruct (system_at t s w0 w1 w2 w3 p Hp H) as [P1 P2].
  destruct (system_at t s w0 w1 w2 w3 q Hq H) as [Q1 Q2].
  pose proof (euclidean_pos p q Hne) as Hpos.
  unfold euclidean in Hpos. cbn [sq] in Hpos.
  set (a := w0 - v0 t). set (b := w1 - v1 t).
  set (dx := fst p - fst q) in *. set (dy := snd p - snd q) in *.
  assert (E1 : a * dx - b * dy == 0).
  { unfold a, b, dx, dy.
    setoid_replace ((w0 - v0 t) * (fst p - fst q) - (w1 - v1 t) * (snd p - snd q))
      with ((w0 * fst p - w1 * snd p + w2) - (v0 t * fst p - v1 t * snd p + v2 t)
            - ((w0 * fst q - w1 * snd q + w2) - (v0 t * fst q - v1 t * snd q + v2 t)))
      by ring.
    rewrite P1, Q1. ring. }
  assert (E2 : b * dx + a * dy == 0).
  { unfold a, b, dx, dy.
    setoid_replace ((w1 - v1 t) * (fst p - fst q) + (w0 - v0 t) * (snd p - snd q))
      with ((w1 * fst p + w0 * snd p + w3) - (v1 t * fst p + v0 t * snd p + v3 t)
            - ((w1 * fst q + w0 * snd q + w3) - (v1 t * fst q + v0 t * snd q + v3 t)))
      by ring.
    rewrite P2, Q2. ring. }
  assert (E : (a * a + b * b) * (dx * dx + dy * dy) == 0).
  { setoid_replace ((a * a + b * b) * (dx * dx + dy * dy))
      with ((a * dx - b * dy) * (a * dx - b * dy) + (b * dx + a * dy) * (b * dx + a * dy))
      by ring.
    rewrite E1, E2. ring. }
  assert (Hab : a * a + b * b == 0).
  { apply Qmult_integral in E. destruct E as [E | E]; [exact E | lra]. }
  assert (Ha : a == 0) by nra.
  assert (Hb : b == 0) by nra.
  unfold a in Ha. unfold b in Hb.
  assert (H0 : w0 == v0 t) by lra.
  assert (H1 : w1 == v1 t) by lra.
  unfold affine_eq. cbn [v0 v1 v2 v3].
  split; [exact H0|]. split; [exact H1|].
  rewrite H0, H1 in P1, P2. split; lra.
Qed.

(** A least-squares solution of noiseless correspondences solves them. *)
Lemma noiseless_least_squares (t : AffineTransform) (s : list point)
    (w0 w1 w2 w3 : Q) :
  least_squares (source_matrix s) (ravel (apply_transform t s)) [w0; w1; w2; w3] ->
  Forall2 Qeq (matvec (source_matrix s) [w0; w1; w2; w3])
              (ravel (apply_transform t s)).
Proof.
  intro H. apply sum_sq_diff_zero_inv.
  - unfold matvec. rewrite length_map, ravel_length, apply_transform_length.
    apply source_matrix_shape.
  - specialize (H [v0 t; v1 t; v2 t; v3 t] eq_refl). unfold residual in H.
    rewrite (sum_sq_diff_zero _ _ (source_matrix_model t s)) in H. exact H.
Qed.

(** In exact arithmetic the solver returns the generating transform. *)
Lemma calc_affine_transform_returns (t : AffineTransform) (s : list point) :
  (exists p q, In p s /\ In q s /\ ~ point_eq p q) ->
  exists u,
    (if Nat.eqb (length s) 2
     then linalg_solve (source_matrix s) (ravel (apply_transform t s))
     else linalg_lstsq 4 (source_matrix s) (ravel (apply_transform t s)))
    = Ok [v0 u; v1 u; v2 u; v3 u] /\
    calc_affine_transform s (apply_transform t s) = Ok u /\
    affine_eq u t.
Proof.
  intro Hs.
  assert (Hsol : exists w0 w1 w2 w3,
             (if Nat.eqb (length s) 2
              then linalg_solve (source_matrix s) (ravel (apply_transform t s))
              else linalg_lstsq 4 (source_matrix s) (ravel (apply_transform t s)))
             = Ok [w0; w1; w2; w3] /\
             w0 == v0 t /\ w1 == v1 t /\ w2 == v2 t /\ w3 == v3 t).
  { destruct (Nat.eqb (length s) 2) eqn:E.
    - apply Nat.eqb_eq in E.
      destruct s as [|p [|q [|r s]]]; try discriminate E.
      apply solve_two_points.
      destruct Hs as (p' & q' & Hp & Hq & Hne).
      cbn in Hp, Hq.
      destruct Hp as [<- | [<- | []]], Hq as [<- | [<- | []]].
      + exfalso. apply Hne. split; reflexivity.
      + exact Hne.
      + intro K. apply Hne, point_eq_sym, K.
      + exfalso. apply Hne. split; reflexivity.
    - apply lstsq_noiseless, spread_pos, Hs. }
  destruct Hsol as (w0 & w1 & w2 & w3 & Hsol & H0 & H1 & H2 & H3).
  exists (mkAffine w0 w1 w2 w3). split; [exact Hsol|].
  split; [|repeat split; assumption].
  unfold calc_affine_transform. rewrite Hsol. reflexivity.
Qed.

(** C5, as the code has it.  [calc_affine_transform] builds the [2n x 4]
    design matrix whose rows [2i], [2i+1] are the two equations of the model
    at detection [i]; with exactly two correspondences it hands the 4x4
    system to [linalg.solve], otherwise it hands the system to
    [linalg.lstsq], and it returns the four numbers it gets back.  When the
    correspondences are noiseless and the source points are not all the same
    point, the generating transform solves the system, it is the only
    solution and the only least-squares solution, and the call returns. *)
Theorem calc_affine_transform_noiseless (t : AffineTransform) (s : list point) :
  (exists p q, In p s /\ In q s /\ ~ point_eq p q) ->
  let a := source_matrix s in
  let y := ravel (apply_transform t s) in
  length a = (2 * length s)%nat /\
  Forall (fun r => length r = 4%nat) a /\
  Forall2 Qeq (matvec a [v0 t; v1 t; v2 t; v3 t]) y /\
  (forall w0 w1 w2 w3,
      Forall2 Qeq (matvec a [w0; w1; w2; w3]) y -> affine_eq (mkAffine w0 w1 w2 w3) t) /\
  (forall w0 w1 w2 w3,
      least_squares a y [w0; w1; w2; w3] -> affine_eq (mkAffine w0 w1 w2 w3) t) /\
  exists u,
    (if Nat.eqb (length s) 2 then linalg_solve a y else linalg_lstsq 4 a y)
    = Ok [v0 u; v1 u; v2 u; v3 u] /\
    calc_affine_transform s (apply_transform t s) = Ok u.
Proof.
  intros Hs a y.
  split; [apply source_matrix_shape|].
  split; [apply source_matrix_shape|].
  split; [apply source_matrix_model|].
  split; [intros w0 w1 w2 w3; apply (noiseless_solution_unique t s _ _ _ _ Hs)|].
  split.
  { intros w0 w1 w2 w3 Hls. apply (noiseless_solution_unique t s _ _ _ _ Hs).
    apply noiseless_least_squares, Hls. }
  destruct (calc_affine_transform_returns t s Hs) as (u & Hsol & Hu & _).
  exists u. split; assumption.
Qed.

Lemma calc_affine_transform_noiseless_witness :
  let t := mkAffine (3 # 5) (4 # 5) 7 (-2) in
  let s := [(1, 2); (5, -3); (0, 0)] in
  let a := source_matrix s in
  let y := ravel (apply_transform t s) in
  length a = (2 * length s)%nat /\
  Forall (fun r => length r = 4%nat) a /\
  Forall2 Qeq (matvec a [v0 t; v1 t; v2 t; v3 t]) y /\
  (forall w0 w1 w2 w3,
      Forall2 Qeq (matvec a [w0; w1; w2; w3]) y -> affine_eq (mkAffine w0 w1 w2 w3) t) /\
  (forall w0 w1 w2 w3,
      least_squares a y [w0; w1; w2; w3] -> affine_eq (mkAffine w0 w1 w2 w3) t) /\
  exists u,
    (if Nat.eqb (length s) 2 then linalg_solve a y else linalg_lstsq 4 a y)
    = Ok [v0 u; v1 u; v2 u; v3 u] /\
    calc_affine_transform s (apply_transform t s) = Ok u.
Proof.
  apply (calc_affine_transform_noiseless
           (mkAffine (3 # 5) (4 # 5) 7 (-2)) [(1, 2); (5, -3); (0, 0)]).
  exists (1, 2), (5, -3). cbn. split; [tauto|]. split; [tauto|].
  intros [H _]. discriminate H.
Defined.

(** ** calc_affine_transform in exact arithmetic *)

(** Computed without rounding, the fit of noiseless correspondences whose
    source points are not all the same point is the generating transform. *)
Theorem calc_affine_transform_exact (t : AffineTransform) (s : list point) :
  (exists p q, In p s /\ In q s /\ ~ point_eq p q) ->
  exists u, calc_affine_transform s (apply_transform t s) = Ok u /\ affine_eq u t.
Proof.
  intro Hs. destruct (calc_affine_transform_returns t s Hs) as (u & _ & Hu & He).
  exists u. auto.
Qed.

Lemma calc_affine_transform_exact_witness :
  exists u,
    calc_affine_transform [(1, 2); (5, -3)]
                          (apply_transform (mkAffine (3 # 5) (4 # 5) 7 (-2))
                                           [(1, 2); (5, -3)]) = Ok u /\
    affine_eq u (mkAffine (3 # 5) (4 # 5) 7 (-2)).
Proof.
  apply (calc_affine_transform_exact (mkAffine (3 # 5) (4 # 5) 7 (-2))
                                     [(1, 2); (5, -3)]).
  exists (1, 2), (5, -3). cbn. split; [tauto|]. split; [tauto|].
  intros [H _]. discriminate H.
Defined.


(** C5 as stated fails on correspondences that share one source point.  Two
    of them make the 4x4 system singular and [linalg.solve] raises; three of
    them leave the least-squares problem rank-deficient and the minimum-norm
    solution is not the generating transform. *)
Lemma calc_affine_transform_degenerate_counterexample :
  let t := mkAffine (3 # 5) (4 # 5) 7 (-2) in
  calc_affine_transform [(1, 2); (1, 2)] (apply_transform t [(1, 2); (1, 2)])
  = Raise LinAlgError /\
  exists u,
    calc_affine_transform [(1, 2); (1, 2); (1, 2)]
                          (apply_transform t [(1, 2); (1, 2); (1, 2)]) = Ok u /\
    affine_eq u (mkAffine 1 (-2) 1 0) /\ ~ affine_eq u t.
Proof.
  split; [vm_compute; reflexivity|].
  eexists. split; [vm_compute; reflexivity|].
  split.
  - vm_compute. repeat split.
  - vm_compute. intros (H & _). discriminate H.
Qed.


(** ** Sorting *)

Section SortBy.
Context {A : Type} (leb : A -> A -> bool).
Hypothesis leb_total : forall a b, leb a b = true \/ leb b a = true.
Hypothesis leb_trans : forall a b c, leb a b = true -> leb b c = true -> leb a c = true.

Let le (a b : A) : Prop := leb a b = true.

Lemma insert_by_perm (a : A) (l : list A) : Permutation (insert_by leb a l) (a :: l).
Proof.
  induction l as [|b l IH]; cbn.
  - apply Permutation_refl.
  - destruct (leb a b).
    + apply Permutation_refl.
    + eapply perm_trans; [apply perm_skip, IH | apply perm_swap].
Qed.

Lemma sort_by_perm (l : list A) : Permutation (sort_by leb l) l.
Proof.
  induction l as [|a l IH]; cbn.
  - apply Permutation_refl.
  - eapply perm_trans; [apply insert_by_perm | apply perm_skip, IH].
Qed.

Lemma insert_by_sorted (a : A) (l : list A) :
  StronglySorted le l -> StronglySorted le (insert_by leb a l).
Proof.
  induction 1 as [|b l Hs IH Hb]; cbn.
  - constructor; constructor.
  - destruct (leb a b) eqn:E.
    + constructor; [constructor; assumption|].
      constructor; [exact E|].
      eapply Forall_impl; [|exact Hb]. intros c Hc. eapply leb_trans; eassumption.
    + constructor; [exact IH|].
      assert (Hba : le b a) by (destruct (leb_total a b); [congruence | assumption]).
      eapply Permutation_Forall; [apply Permutation_sym, insert_by_perm|].
      constructor; assumption.
Qed.

Lemma sort_by_sorted (l : list A) : StronglySorted le (sort_by leb l).
Proof.
  induction l as [|a l IH]; cbn.
  - constructor.
  - apply insert_by_sorted, IH.
Qed.
End SortBy.

Lemma enumerate_from_nth {A : Type} (d : A) (l : list A) (k : nat) (i : nat) (x : A) :
  In (i, x) (combine (seq k (length l)) l) ->
  (k <= i < k + length l)%nat /\ nth (i - k) l d = x.
Proof.
  revert k. induction l as [|a l IH]; intros k H; cbn in H.
  - contradiction.
  - destruct H as [H | H].
    + injection H as <- <-. rewrite Nat.sub_diag. cbn. split; [lia | reflexivity].
    + apply IH in H. destruct H as [Hi Hx]. cbn [length]. split; [lia|].
      replace (i - k)%nat with (S (i - S k)) by lia. exact Hx.
Qed.

Lemma enumerate_nth {A : Type} (d : A) (l : list A) (i : nat) (x : A) :
  In (i, x) (enumerate l) -> (i < length l)%nat /\ nth i l d = x.
Proof.
  intro H. apply (enumerate_from_nth d) in H. rewrite Nat.sub_0_r in H.
  split; [lia | tauto].
Qed.

Lemma map_fst_enumerate {A : Type} (l : list A) : map fst (enumerate l) = seq 0 (length l).
Proof.
  unfold enumerate. generalize 0%nat.
  induction l as [|a l IH]; intro k; cbn; [reflexivity|]. now rewrite IH.
Qed.

Lemma map_snd_enumerate {A : Type} (l : list A) : map snd (enumerate l) = l.
Proof.
  unfold enumerate. generalize 0%nat.
  induction l as [|a l IH]; intro k; cbn; [reflexivity|]. now rewrite IH.
Qed.

(** [argsort] is a permutation of the indices, and reading the list
    through it gives the sorted list. *)
Lemma argsort_perm {A : Type} (leb : A -> A -> bool) (l : list A) :
  Permutation (argsort leb l) (seq 0 (length l)).
Proof.
  unfold argsort. rewrite <- map_fst_enumerate.
  apply Permutation_map, sort_by_perm.
Qed.

Lemma argsort_values {A : Type} (leb : A -> A -> bool) (d : A) (l : list A) :
  map (fun j => nth j l d) (argsort leb l) =
  map snd (sort_by (fun p q => leb (snd p) (snd q)) (enumerate l)).
Proof.
  unfold argsort. rewrite map_map. apply map_ext_in.
  intros [i x] H. cbn [fst snd].
  apply (Permutation_in _ (sort_by_perm _ _)) in H.
  apply (enumerate_nth d) in H. tauto.
Qed.

Lemma argsort_values_perm {A : Type} (leb : A -> A -> bool) (d : A) (l : list A) :
  Permutation (map (fun j => nth j l d) (argsort leb l)) l.
Proof.
  rewrite argsort_values. rewrite <- (map_snd_enumerate l) at 2.
  apply Permutation_map, sort_by_perm.
Qed.

Lemma StronglySorted_map {A B : Type} (f : A -> B) (R : B -> B -> Prop) (l : list A) :
  StronglySorted (fun a b => R (f a) (f b)) l -> StronglySorted R (map f l).
Proof.
  induction 1 as [|a l Hs IH Ha]; cbn; constructor; [exact IH|].
  apply Forall_map. exact Ha.
Qed.

Lemma argsort_values_sorted {A : Type} (leb : A -> A -> bool) (d : A) (l : list A) :
  (forall a b, leb a b = true \/ leb b a = true) ->
  (forall a b c, leb a b = true -> leb b c = true -> leb a c = true) ->
  StronglySorted (fun a b => leb a b = true)
                 (map (fun j => nth j l d) (argsort leb l)).
Proof.
  intros Htot Htrans. rewrite argsort_values.
  apply StronglySorted_map.
  apply (sort_by_sorted (fun p q : nat * A => leb (snd p) (snd q))).
  - intros a b. apply Htot.
  - intros a b c. apply Htrans.
Qed.

Lemma argsort_length {A : Type} (leb : A -> A -> bool) (l : list A) :
  length (argsort leb l) = length l.
Proof.
  rewrite (Permutation_length (argsort_perm leb l)). apply length_seq.
Qed.

Lemma argsort_in_range {A : Type} (leb : A -> A -> bool) (l : list A) (j : nat) :
  In j (argsort leb l) -> (j < length l)%nat.
Proof.
  intro H. apply (Permutation_in _ (argsort_perm leb l)) in H.
  apply in_seq in H. lia.
Qed.

Lemma dist_leb_total (a b : dist) : dist_leb a b = true \/ dist_leb b a = true.
Proof.
  unfold dist_leb. rewrite !Qle_bool_iff.
  destruct (Qlt_le_dec (sq b) (sq a)); [right | left]; lra.
Qed.

Lemma dist_leb_trans (a b c : dist) :
  dist_leb a b = true -> dist_leb b c = true -> dist_leb a c = true.
Proof. unfold dist_leb. rewrite !Qle_bool_iff. lra. Qed.


(** ** match_dets, row by row *)

Lemma combine_map_same {A B C : Type} (f : A -> B) (g : A -> C) (l : list A) :
  combine (map f l) (map g l) = map (fun a => (f a, g a)) l.
Proof. induction l as [|a l IH]; cbn; [reflexivity | now rewrite IH]. Qed.

Lemma mask_rows_map {A B : Type} (f : A -> B) (p : A -> bool) (l : list A) :
  mask_rows (map f l) (map p l) = map f (filter p l).
Proof.
  unfold mask_rows. rewrite combine_map_same.
  induction l as [|a l IH]; cbn; [reflexivity|].
  destruct (p a); cbn; now rewrite IH.
Qed.

Lemma mask_rows_self {A : Type} (p : A -> bool) (l : list A) :
  mask_rows l (map p l) = filter p l.
Proof.
  rewrite <- (map_id l) at 1. rewrite mask_rows_map. apply map_id.
Qed.

Lemma count_passed {A : Type} (p : A -> bool) (l : list A) :
  length (filter (fun b : bool => b) (map p l)) = length (filter p l).
Proof.
  induction l as [|a l IH]; cbn; [reflexivity|].
  destruct (p a); cbn; now rewrite IH.
Qed.

Lemma take_rows_in_range {A : Type} (d : A) (arr : list A) (idx : list nat) :
  Forall (fun j => (j < length arr)%nat) idx ->
  take_rows arr idx = Ok (map (fun j => nth j arr d) idx).
Proof.
  unfold take_rows. induction 1 as [|j idx Hj Hidx IH]; cbn; [reflexivity|].
  unfold getitem at 1.
  destruct (nth_error arr j) as [a|] eqn:E.
  - cbn. rewrite IH. cbn. f_equal. f_equal.
    symmetry. apply nth_error_nth. exact E.
  - apply nth_error_None in E. lia.
Qed.

Lemma get_det_coords_length (cat : table) : length (get_det_coords cat) = length cat.
Proof. apply length_map. Qed.

Lemma row_dists_length (self : Spalipy) (t : AffineTransform) (r : detection) :
  length (row_dists self t r) = length (template_cat self).
Proof.
  unfold row_dists, template_coo. now rewrite length_map, get_det_coords_length.
Qed.

Lemma row_nearest_in_range (self : Spalipy) (t : AffineTransform) (r : detection) :
  (1 <= length (template_cat self))%nat ->
  (row_nearest self t r < length (template_cat self))%nat.
Proof.
  intro H. unfold row_nearest, row_argsort.
  rewrite <- (row_dists_length self t r) in *.
  apply (argsort_in_range dist_leb). apply nth_In.
  rewrite argsort_length. lia.
Qed.

(** With at least two template detections [match_dets] returns; the
    matched source rows are those that pass the test, in catalogue order,
    each paired with the template row first in its argsort. *)
Lemma match_dets_rows (self : Spalipy) (t : AffineTransform) (m_arg : option Q)
    (d : detection) :
  (2 <= length (template_cat self))%nat ->
  let m := default_of m_arg (maxmatchdist self) in
  let src := filter (row_passed self t m) (source_cat self) in
  match_dets self t m_arg =
  Ok (length src, src,
      map (fun r => nth (row_nearest self t r) (template_cat self) d) src).
Proof.
  intros Hlen m src. unfold match_dets, match_dets_from.
  fold (default_of m_arg (maxmatchdist self)). fold m.
  unfold source_coo, apply_transform, cdist, get_det_coords.
  rewrite !map_map.
  change (fun x : detection =>
            map (euclidean (apply_transform_xy t (X_IMAGE x, Y_IMAGE x)))
                (template_coo self))
    with (row_dists self t).
  rewrite combine_map_same, !map_map. cbn [fst snd].
  change (fun x : detection =>
            map (fun j => nth j (row_dists self t x) (Sqrt 0))
                (argsort dist_leb (row_dists self t x)))
    with (row_sorted self t).
  unfold take_col.
  replace (length (template_coo self)) with (length (template_cat self))
    by (symmetry; apply get_det_coords_length).
  assert (H0 : Nat.ltb 0 (length (template_cat self)) = true) by (apply Nat.ltb_lt; lia).
  assert (H1 : Nat.ltb 1 (length (template_cat self)) = true) by (apply Nat.ltb_lt; lia).
  rewrite H0, H1. cbn [bind].
  rewrite !map_map, combine_map_same, map_map. cbn [fst snd].
  change (fun x : detection =>
            dist_le_Q (nth 0 (row_sorted self t x) (Sqrt 0)) m
            && dist_ge_Q (nth 1 (row_sorted self t x) (Sqrt 0)) (2 * m))
    with (row_passed self t m).
  change (fun x : detection => nth 0 (argsort dist_leb (row_dists self t x)) 0%nat)
    with (row_nearest self t).
  rewrite count_passed, mask_rows_self, mask_rows_map.
  rewrite (take_rows_in_range d).
  - cbn [bind]. rewrite map_map. reflexivity.
  - apply Forall_forall. intros j Hj.
    apply in_map_iff in Hj. destruct Hj as (r & <- & _).
    refine (row_nearest_in_range self t r _). lia.
Qed.

(** With fewer than two template detections the second-nearest column does
    not exist and indexing it raises. *)
Lemma match_dets_few_templates (self : Spalipy) (t : AffineTransform) (m_arg : option Q) :
  (length (template_cat self) < 2)%nat ->
  match_dets self t m_arg = Raise IndexError.
Proof.
  intro H. unfold match_dets, match_dets_from, take_col.
  replace (length (template_coo self)) with (length (template_cat self))
    by (symmetry; apply get_det_coords_length).
  destruct (Nat.ltb 0 (length (template_cat self))) eqn:E0; [|reflexivity].
  cbn [bind].
  assert (E1 : Nat.ltb 1 (length (template_cat self)) = false) by (apply Nat.ltb_ge; lia).
  rewrite E1. reflexivity.
Qed.


(** ** Thresholds on distances *)

Lemma dist_le_Q_iff (d : dist) (m : Q) :
  dist_le_Q d m = true <-> 0 <= m /\ sq d <= m * m.
Proof. unfold dist_le_Q. now rewrite andb_true_iff, !Qle_bool_iff. Qed.

Lemma dist_lt_Q_iff (d : dist) (m : Q) :
  dist_lt_Q d m = true <-> 0 < m /\ sq d < m * m.
Proof. unfold dist_lt_Q. now rewrite andb_true_iff, !Qlt_bool_iff. Qed.

Lemma dist_ge_Q_iff (d : dist) (m : Q) :
  dist_ge_Q d m = true <-> m <= 0 \/ m * m <= sq d.
Proof.
  unfold dist_ge_Q. rewrite negb_true_iff.
  destruct (dist_lt_Q d m) eqn:E.
  - apply dist_lt_Q_iff in E. split; [discriminate | lra].
  - split; [intros _ | reflexivity].
    destruct (Qlt_le_dec 0 m) as [Hm | Hm]; [|now left].
    right. destruct (Qlt_le_dec (sq d) (m * m)) as [Hd | Hd]; [|exact Hd].
    assert (K : dist_lt_Q d m = true) by (apply dist_lt_Q_iff; split; assumption).
    congruence.
Qed.

Lemma dist_gt_Q_iff (d : dist) (m : Q) :
  dist_gt_Q d m = true <-> m < 0 \/ m * m < sq d.
Proof.
  unfold dist_gt_Q. rewrite negb_true_iff.
  destruct (dist_le_Q d m) eqn:E.
  - apply dist_le_Q_iff in E. split; [discriminate | lra].
  - split; [intros _ | reflexivity].
    destruct (Qlt_le_dec m 0) as [Hm | Hm]; [now left|].
    right. destruct (Qlt_le_dec (m * m) (sq d)) as [Hd | Hd]; [exact Hd|].
    assert (K : dist_le_Q d m = true) by (apply dist_le_Q_iff; split; assumption).
    congruence.
Qed.

(** The thresholds are those of the square root: [sqrt (sq d) <= m] holds
    exactly when every non-negative rational whose square is at most [sq d]
    is at most [m]. *)
Lemma dist_le_Q_sqrt (d : dist) (m : Q) :
  0 <= sq d ->
  (dist_le_Q d m = true <-> forall r, 0 <= r -> r * r <= sq d -> r <= m).
Proof.
  intro Hd. rewrite dist_le_Q_iff. split.
  - intros [Hm Hle] r Hr Hrr.
    destruct (Qlt_le_dec m r) as [Hlt | Hge]; [|exact Hge]. nra.
  - intro H. assert (Hm : 0 <= m) by (apply (H 0); [lra | nra]).
    split; [exact Hm|].
    destruct (Qlt_le_dec (m * m) (sq d)) as [Hlt | Hge]; [|exact Hge].
    exfalso.
    set (e := (sq d - m * m) / (2 * m + 1 + (sq d - m * m))).
    assert (Hden : 0 < 2 * m + 1 + (sq d - m * m)) by lra.
    assert (He : 0 < e).
    { unfold e. apply Qlt_shift_div_l; [exact Hden | lra]. }
    assert (He1 : e <= 1).
    { unfold e. apply Qle_shift_div_r; [exact Hden | lra]. }
    assert (Hem : e * (2 * m + 1 + (sq d - m * m)) == sq d - m * m).
    { unfold e. field. lra. }
    assert (Hbound : (m + e) * (m + e) <= sq d) by nra.
    specialize (H (m + e) ltac:(lra) Hbound). lra.
Qed.

(** ** Nearest and second-nearest distance *)

Lemma Permutation_count {A : Type} (f : A -> bool) (l l' : list A) :
  Permutation l l' -> length (filter f l) = length (filter f l').
Proof.
  induction 1 as [|a l l' _ IH|a b l|l l' l'' _ IH1 _ IH2]; cbn.
  - reflexivity.
  - destruct (f a); cbn; now rewrite IH.
  - destruct (f a), (f b); reflexivity.
  - now rewrite IH1.
Qed.

Lemma count_none {A : Type} (f : A -> bool) (l : list A) :
  Forall (fun a => f a = false) l -> length (filter f l) = 0%nat.
Proof.
  induction 1 as [|a l Ha _ IH]; cbn; [reflexivity|]. now rewrite Ha.
Qed.

Lemma nearest_two_first_le (ds : list dist) (d1 d2 e : dist) :
  nearest_two ds d1 d2 -> In e ds -> sq d1 <= sq e.
Proof.
  intros (rest & Hperm & H12 & Hrest) He.
  apply (Permutation_in _ Hperm) in He.
  destruct He as [<- | [<- | He]]; [lra | exact H12 |].
  rewrite Forall_forall in Hrest. specialize (Hrest e He). lra.
Qed.

Lemma nearest_two_in (ds : list dist) (d1 d2 : dist) :
  nearest_two ds d1 d2 -> In d1 ds /\ In d2 ds.
Proof.
  intros (rest & Hperm & _). apply Permutation_sym in Hperm.
  split; apply (Permutation_in _ Hperm); cbn; auto.
Qed.

Lemma nearest_two_second_le (ds : list dist) (d1 d2 e1 e2 : dist) :
  nearest_two ds d1 d2 -> nearest_two ds e1 e2 -> sq d2 <= sq e2.
Proof.
  intros (rest & Hperm & H12 & Hrest) (rest' & Hperm' & H12' & Hrest').
  destruct (Qlt_le_dec (sq e2) (sq d2)) as [Hlt | Hge]; [|exact Hge].
  exfalso.
  set (f := fun d : dist => Qlt_bool (sq d) (sq d2)).
  pose proof (Permutation_count f _ _ Hperm) as C.
  pose proof (Permutation_count f _ _ Hperm') as C'.
  rewrite C in C'. cbn [filter] in C'.
  assert (F2 : f d2 = false) by (apply Qlt_bool_false_iff; lra).
  assert (Fe1 : f e1 = true) by (apply Qlt_bool_iff; lra).
  assert (Fe2 : f e2 = true) by (apply Qlt_bool_iff; lra).
  rewrite F2, Fe1, Fe2 in C'.
  assert (Hnone : length (filter f rest) = 0%nat).
  { apply count_none. eapply Forall_impl; [|exact Hrest].
    intros a Ha. apply Qlt_bool_false_iff. exact Ha. }
  destruct (f d1); cbn [length] in C'; rewrite Hnone in C'; lia.
Qed.

Lemma nearest_two_unique (ds : list dist) (d1 d2 e1 e2 : dist) :
  nearest_two ds d1 d2 -> nearest_two ds e1 e2 ->
  sq d1 == sq e1 /\ sq d2 == sq e2.
Proof.
  intros Hd He.
  pose proof (nearest_two_in _ _ _ Hd) as [Id _].
  pose proof (nearest_two_in _ _ _ He) as [Ie _].
  pose proof (nearest_two_first_le _ _ _ _ Hd Ie).
  pose proof (nearest_two_first_le _ _ _ _ He Id).
  pose proof (nearest_two_second_le _ _ _ _ _ Hd He).
  pose proof (nearest_two_second_le _ _ _ _ _ He Hd).
  split; lra.
Qed.

Lemma sorted_nearest_two (ds srt : list dist) :
  Permutation srt ds ->
  StronglySorted (fun a b => dist_leb a b = true) srt ->
  (2 <= length ds)%nat ->
  nearest_two ds (nth 0 srt (Sqrt 0)) (nth 1 srt (Sqrt 0)).
Proof.
  intros Hperm Hsorted Hlen.
  rewrite <- (Permutation_length Hperm) in Hlen.
  destruct srt as [|d1 [|d2 rest]]; cbn in Hlen; try lia.
  cbn [nth]. exists rest. split; [apply Permutation_sym, Hperm|].
  inversion Hsorted as [|? ? Hs1 H1]; subst.
  inversion Hs1 as [|? ? Hs2 H2]; subst.
  inversion H1 as [|? ? H12 _]; subst.
  split.
  - apply Qle_bool_iff. exact H12.
  - eapply Forall_impl; [|exact H2]. intros a Ha. apply Qle_bool_iff. exact Ha.
Qed.

Lemma row_sorted_nearest_two (self : Spalipy) (t : AffineTransform) (r : detection) :
  (2 <= length (template_cat self))%nat ->
  nearest_two (row_dists self t r)
              (nth 0 (row_sorted self t r) (Sqrt 0))
              (nth 1 (row_sorted self t r) (Sqrt 0)).
Proof.
  intro H. apply sorted_nearest_two.
  - apply argsort_values_perm.
  - apply argsort_values_sorted; [apply dist_leb_total | apply dist_leb_trans].
  - now rewrite row_dists_length.
Qed.

(** The test of [match_dets] is the match rule. *)
Lemma row_passed_iff (self : Spalipy) (t : AffineTransform) (m : Q) (r : detection) :
  (2 <= length (template_cat self))%nat ->
  row_passed self t m r = true <->
  matched (template_coo self) m (apply_transform_xy t (det_coords r)).
Proof.
  intro H. pose proof (row_sorted_nearest_two self t r H) as Hn.
  unfold row_passed. rewrite andb_true_iff, dist_le_Q_iff, dist_ge_Q_iff.
  unfold matched. fold (row_dists self t r). split.
  - intros [H1 H2]. eexists _, _. split; [exact Hn|]. split; assumption.
  - intros (d1 & d2 & Hd & H1 & H2).
    destruct (nearest_two_unique _ _ _ _ _ Hn Hd) as [E1 E2].
    rewrite E1, E2. split; assumption.
Qed.

(** The template detection paired with a matched source detection is a
    nearest one. *)
Lemma row_nearest_is_nearest (self : Spalipy) (t : AffineTransform) (r d : detection) :
  (1 <= length (template_cat self))%nat ->
  let near := nth (row_nearest self t r) (template_cat self) d in
  In near (template_cat self) /\
  forall r', In r' (template_cat self) ->
             sq (euclidean (apply_transform_xy t (det_coords r)) (det_coords near))
             <= sq (euclidean (apply_transform_xy t (det_coords r)) (det_coords r')).
Proof.
  intros H near.
  pose proof (row_nearest_in_range self t r H) as Hrange.
  split; [apply nth_In, Hrange|].
  intros r' Hr'.
  assert (Hsorted := argsort_values_sorted dist_leb (Sqrt 0) (row_dists self t r)
                       dist_leb_total dist_leb_trans).
  assert (Hperm := argsort_values_perm dist_leb (Sqrt 0) (row_dists self t r)).
  fold (row_argsort self t r) in Hsorted, Hperm. fold (row_sorted self t r) in Hsorted, Hperm.
  assert (Hval : nth 0 (row_sorted self t r) (Sqrt 0)
                 = euclidean (apply_transform_xy t (det_coords r)) (det_coords near)).
  { unfold row_sorted.
    assert (Hl : (0 < length (row_argsort self t r))%nat).
    { unfold row_argsort. rewrite argsort_length, row_dists_length. lia. }
    destruct (row_argsort self t r) as [|j idx] eqn:E; [cbn in Hl; lia|].
    cbn [map nth]. unfold near, row_nearest. rewrite E. cbn [nth].
    unfold row_dists, template_coo, get_det_coords. rewrite map_map.
    assert (Hj : (j < length (template_cat self))%nat).
    { unfold row_nearest in Hrange. rewrite E in Hrange. exact Hrange. }
    rewrite (nth_indep _ (Sqrt 0)
               (euclidean (apply_transform_xy t (det_coords r)) (det_coords d)))
      by (rewrite length_map; exact Hj).
    apply (map_nth (fun x => euclidean (apply_transform_xy t (det_coords r))
                                       (X_IMAGE x, Y_IMAGE x))). }
  assert (Hin : In (euclidean (apply_transform_xy t (det_coords r)) (det_coords r'))
                   (row_sorted self t r)).
  { apply (Permutation_in _ (Permutation_sym Hperm)).
    unfold row_dists, template_coo, get_det_coords. rewrite map_map.
    apply (in_map (fun x => euclidean (apply_transform_xy t (det_coords r))
                                      (X_IMAGE x, Y_IMAGE x))). exact Hr'. }
  rewrite <- Hval.
  destruct (row_sorted self t r) as [|d1 rest]; [contradiction|].
  cbn [nth]. destruct Hin as [<- | Hin]; [lra|].
  inversion Hsorted as [|? ? _ Hall]; subst.
  rewrite Forall_forall in Hall. apply Qle_bool_iff. apply (Hall _ Hin).
Qed.


(** ** match_dets on the distances as computed *)

Lemma dist_le_Q_compat (d e : dist) (m : Q) :
  sq d == sq e -> dist_le_Q d m = dist_le_Q e m.
Proof.
  intro H. unfold dist_le_Q. f_equal. apply Qleb_comp; [exact H | reflexivity].
Qed.

Lemma dist_ge_Q_compat (d e : dist) (m : Q) :
  sq d == sq e -> dist_ge_Q d m = dist_ge_Q e m.
Proof.
  intro H. unfold dist_ge_Q, dist_lt_Q, Qlt_bool. do 3 f_equal.
  apply Qleb_comp; [reflexivity | exact H].
Qed.

Lemma sorted_row_nearest_two (row : list dist) :
  (2 <= length row)%nat ->
  nearest_two row (nth 0 (sorted_row row) (Sqrt 0)) (nth 1 (sorted_row row) (Sqrt 0)).
Proof.
  intro H. apply sorted_nearest_two.
  - apply argsort_values_perm.
  - apply argsort_values_sorted; [apply dist_leb_total | apply dist_leb_trans].
  - exact H.
Qed.

(** The test of [match_dets] on a row is the match rule. *)
Lemma row_test_iff (m : Q) (row : list dist) :
  (2 <= length row)%nat -> (row_test m row = true <-> matched_row row m).
Proof.
  intro H. pose proof (sorted_row_nearest_two row H) as Hn.
  unfold row_test. rewrite andb_true_iff. split.
  - intros [H1 H2]. eexists _, _. split; [exact Hn|]. split; assumption.
  - intros (d1 & d2 & Hd & H1 & H2).
    destruct (nearest_two_unique _ _ _ _ _ Hn Hd) as [E1 E2].
    rewrite (dist_le_Q_compat _ _ m E1), (dist_ge_Q_compat _ _ (2 * m) E2).
    split; assumption.
Qed.

(** The column first in the argsort of a row holds a smallest distance. *)
Lemma first_column_nearest (row : list dist) :
  (1 <= length row)%nat -> nearest_column row (first_column row).
Proof.
  intro H. unfold nearest_column, first_column.
  assert (Hl : (0 < length (argsort dist_leb row))%nat)
    by (rewrite argsort_length; lia).
  assert (Hsorted := argsort_values_sorted dist_leb (Sqrt 0) row
                       dist_leb_total dist_leb_trans).
  assert (Hperm := argsort_values_perm dist_leb (Sqrt 0) row).
  split.
  - apply (argsort_in_range dist_leb). apply nth_In. exact Hl.
  - intros e He. apply (Permutation_in _ (Permutation_sym Hperm)) in He.
    destruct (argsort dist_leb row) as [|j idx]; [cbn in Hl; lia|].
    cbn [map nth] in *. destruct He as [<- | He]; [lra|].
    inversion Hsorted as [|? ? _ Hall]; subst.
    rewrite Forall_forall in Hall. apply Qle_bool_iff. apply (Hall _ He).
Qed.

Lemma combine_map_r {A B C : Type} (g : B -> C) (l : list A) (l' : list B) :
  combine l (map g l') = map (fun ab => (fst ab, g (snd ab))) (combine l l').
Proof.
  revert l'. induction l as [|a l IH]; intros [|b l']; cbn; [reflexivity..|].
  now rewrite IH.
Qed.

Lemma combine_self_map {A B : Type} (g : A -> B) (l : list A) :
  combine l (map g l) = map (fun a => (a, g a)) l.
Proof. induction l as [|a l IH]; cbn; [reflexivity | now rewrite IH]. Qed.

Lemma mask_rows_combine {A B : Type} (p : B -> bool) (l : list A) (l' : list B) :
  mask_rows l (map p l') = map fst (filter (fun ab => p (snd ab)) (combine l l')).
Proof.
  unfold mask_rows. rewrite combine_map_r.
  induction (combine l l') as [|[a b] rest IH]; cbn; [reflexivity|].
  destruct (p b); cbn; now rewrite IH.
Qed.

Lemma mask_rows_map_combine {A B C : Type} (g : B -> C) (p : B -> bool)
    (l : list A) (l' : list B) :
  length l = length l' ->
  mask_rows (map g l') (map p l')
  = map (fun ab => g (snd ab)) (filter (fun ab => p (snd ab)) (combine l l')).
Proof.
  unfold mask_rows. rewrite combine_map_same. revert l'.
  induction l as [|a l IH]; intros [|b l'] H; cbn in *; try discriminate; [reflexivity|].
  injection H as H. destruct (p b); cbn; now rewrite IH.
Qed.

Lemma count_passed_combine {A B : Type} (p : B -> bool) (l : list A) (l' : list B) :
  length l = length l' ->
  length (filter (fun b : bool => b) (map p l'))
  = length (filter (fun ab => p (snd ab)) (combine l l')).
Proof.
  revert l'. induction l as [|a l IH]; intros [|b l'] H; cbn in *; try discriminate;
    [reflexivity|].
  injection H as H. destruct (p b); cbn; now rewrite IH.
Qed.

(** With at least two template detections [match_dets] returns, whatever
    the distances computed: the source rows kept are those whose row of
    distances passes the test, each paired with the template row at the
    column first in the argsort. *)
Lemma match_dets_from_rows (self : Spalipy) (dists : list (list dist)) (m : Q)
    (d : detection) :
  (2 <= length (template_cat self))%nat ->
  length dists = length (source_cat self) ->
  Forall (fun row => length row = length (template_cat self)) dists ->
  let kept := filter (fun rd => row_test m (snd rd)) (combine (source_cat self) dists) in
  match_dets_from self dists m
  = Ok (length kept, map fst kept,
        map (fun rd => nth (first_column (snd rd)) (template_cat self) d) kept).
Proof.
  intros Hlen Hrows Hcols kept. unfold match_dets_from.
  rewrite combine_self_map, !map_map. cbn [fst snd].
  change (fun x : list dist => map (fun j => nth j x (Sqrt 0)) (argsort dist_leb x))
    with sorted_row.
  unfold take_col.
  replace (length (template_coo self)) with (length (template_cat self))
    by (symmetry; apply get_det_coords_length).
  assert (H0 : Nat.ltb 0 (length (template_cat self)) = true) by (apply Nat.ltb_lt; lia).
  assert (H1 : Nat.ltb 1 (length (template_cat self)) = true) by (apply Nat.ltb_lt; lia).
  rewrite H0, H1. cbn [bind].
  rewrite !map_map, combine_map_same, map_map. cbn [fst snd].
  change (fun x : list dist =>
            dist_le_Q (nth 0 (sorted_row x) (Sqrt 0)) m
            && dist_ge_Q (nth 1 (sorted_row x) (Sqrt 0)) (2 * m))
    with (row_test m).
  change (fun x : list dist => nth 0 (argsort dist_leb x) 0%nat) with first_column.
  rewrite (count_passed_combine (row_test m) (source_cat self) dists (eq_sym Hrows)).
  rewrite (mask_rows_combine (row_test m) (source_cat self) dists).
  rewrite (mask_rows_map_combine first_column (row_test m) (source_cat self) dists
             (eq_sym Hrows)).
  fold kept.
  rewrite (take_rows_in_range d).
  - cbn [bind]. rewrite map_map. reflexivity.
  - apply Forall_forall. intros j Hj.
    apply in_map_iff in Hj. destruct Hj as ([r row] & <- & Hin). cbn [snd].
    unfold kept in Hin. apply filter_In in Hin. destruct Hin as [Hin _].
    apply in_combine_r in Hin. rewrite Forall_forall in Hcols.
    rewrite <- (Hcols row Hin).
    apply (first_column_nearest row). rewrite (Hcols row Hin). lia.
Qed.

Lemma nth_map_at {A B : Type} (f : A -> B) (l : list A) (d : B) (i : nat) (a : A) :
  nth_error l i = Some a -> nth i (map f l) d = f a.
Proof.
  intro H. apply nth_error_nth. rewrite nth_error_map, H. reflexivity.
Qed.

(** C2, as the code has it.  When the template catalogue has at least two
    detections, [match_dets] returns the number of matches with two lists of
    that length, whatever values [cdist] has computed: the first holds, in
    catalogue order, exactly the source detections whose row of computed
    distances has its nearest entry at most [maxmatchdist] and its second
    nearest at least [2 * maxmatchdist]; the second holds, index by index,
    the template detection at a column of a smallest computed distance of
    that row.  [match_dets] itself is this on the distances of the
    transformed source detections to the template detections. *)
Theorem match_dets_spec (self : Spalipy) (dists : list (list dist)) (m : Q) :
  (2 <= length (template_cat self))%nat ->
  length dists = length (source_cat self) ->
  Forall (fun row => length row = length (template_cat self)) dists ->
  (exists (passed : list dist -> bool) (tmpl : table),
      let kept := filter (fun rd => passed (snd rd)) (combine (source_cat self) dists) in
      match_dets_from self dists m = Ok (length kept, map fst kept, tmpl) /\
      length tmpl = length kept /\
      (forall row, In row dists -> (passed row = true <-> matched_row row m)) /\
      Forall2 (fun rd r' => exists j, nearest_column (snd rd) j /\
                                      nth_error (template_cat self) j = Some r')
              kept tmpl) /\
  (forall t m_arg,
      match_dets self t m_arg
      = match_dets_from self
          (cdist (apply_transform t (source_coo self)) (template_coo self))
          (default_of m_arg (maxmatchdist self))) /\
  (forall t i j r r',
      nth_error (source_cat self) i = Some r ->
      nth_error (template_cat self) j = Some r' ->
      nth j (nth i (cdist (apply_transform t (source_coo self)) (template_coo self)) [])
            (Sqrt 0)
      = euclidean (apply_transform_xy t (det_coords r)) (det_coords r')).
Proof.
  intros Hlen Hrows Hcols. split; [|split].
  - exists (row_test m). eexists. cbv zeta.
    split; [apply (match_dets_from_rows self dists m (mkDet 0 0 0 0 0) Hlen Hrows Hcols)|].
    split; [apply length_map|]. split.
    + intros row Hin. apply row_test_iff.
      rewrite Forall_forall in Hcols. rewrite (Hcols row Hin). exact Hlen.
    + assert (Hall : forall rd, In rd (combine (source_cat self) dists) ->
                                length (snd rd) = length (template_cat self)).
      { intros [r row] Hin. apply in_combine_r in Hin.
        rewrite Forall_forall in Hcols. apply (Hcols row Hin). }
      induction (combine (source_cat self) dists) as [|rd l IH]; cbn [filter].
      * constructor.
      * assert (IH' := IH (fun rd' H => Hall rd' (or_intror H))).
        destruct (row_test m (snd rd)); [|exact IH'].
        cbn [map]. constructor; [|exact IH'].
        pose proof (Hall rd (or_introl eq_refl)) as Hl.
        assert (Hnear : nearest_column (snd rd) (first_column (snd rd)))
          by (apply first_column_nearest; lia).
        exists (first_column (snd rd)). split; [exact Hnear|].
        apply nth_error_nth'. destruct Hnear as [Hj _]. lia.
  - intros t m_arg. reflexivity.
  - intros t i j r r' Hr Hr'.
    unfold cdist, apply_transform, source_coo, template_coo, get_det_coords.
    rewrite !map_map.
    rewrite (nth_map_at _ _ _ i r Hr). rewrite map_map.
    apply (nth_map_at (fun x => euclidean (apply_transform_xy t (det_coords r))
                                          (det_coords x)) _ _ j r' Hr').
Qed.

Lemma match_dets_spec_witness :
  let self := tiny_self tiny_source tiny_template 3 0 in
  let dists := cdist (apply_transform (mkAffine 1 0 1 0) (source_coo self))
                     (template_coo self) in
  (exists (passed : list dist -> bool) (tmpl : table),
      let kept := filter (fun rd => passed (snd rd)) (combine (source_cat self) dists) in
      match_dets_from self dists 1 = Ok (length kept, map fst kept, tmpl) /\
      length tmpl = length kept /\
      (forall row, In row dists -> (passed row = true <-> matched_row row 1)) /\
      Forall2 (fun rd r' => exists j, nearest_column (snd rd) j /\
                                      nth_error (template_cat self) j = Some r')
              kept tmpl) /\
  (forall t m_arg,
      match_dets self t m_arg
      = match_dets_from self
          (cdist (apply_transform t (source_coo self)) (template_coo self))
          (default_of m_arg (maxmatchdist self))) /\
  (forall t i j r r',
      nth_error (source_cat self) i = Some r ->
      nth_error (template_cat self) j = Some r' ->
      nth j (nth i (cdist (apply_transform t (source_coo self)) (template_coo self)) [])
            (Sqrt 0)
      = euclidean (apply_transform_xy t (det_coords r)) (det_coords r')).
Proof.
  apply (match_dets_spec (tiny_self tiny_source tiny_template 3 0)
           (cdist (apply_transform (mkAffine 1 0 1 0)
                     (source_coo (tiny_self tiny_source tiny_template 3 0)))
                  (template_coo (tiny_self tiny_source tiny_template 3 0))) 1).
  - cbn. lia.
  - reflexivity.
  - repeat constructor.
Defined.

Example init_example (spline_order : Z) :
  init example_source example_template example_image (2, 2)%nat
       (ndets_int 6) 6 1 1 4 spline_order 3 true
  = ([step_trim_cat source; step_get_det_coords source;
      step_trim_cat template; step_get_det_coords template],
     Ok (example_self spline_order)).
Proof. reflexivity. Qed.

Example match_dets_example :
  match_dets (example_self 0) example_transform None
  = Ok (6%nat, example_source, example_template).
Proof. vm_compute. reflexivity. Qed.

(** C2 as stated fails on a template catalogue of one detection: the
    second-nearest column does not exist and [match_dets] raises instead of
    returning, even for a source detection that falls exactly on the
    template detection. *)
Lemma match_dets_single_template_counterexample :
  match_dets
    (mkSpalipy [mkDet 7 (-2) 10 3 0] [mkDet 7 (-2) 10 3 0] example_image (2, 2)%nat
               1 20 50 5 0 3 3 [mkDet 7 (-2) 10 3 0] [mkDet 7 (-2) 10 3 0]
               [] [] 0%nat None None None false None None None false true [])
    (mkAffine 1 0 0 0) None
  = Raise IndexError.
Proof. reflexivity. Qed.


(** ** trim_cat: close pairs *)

Lemma combine_seq_In {A : Type} (d : A) (l : list A) (k i : nat) :
  (k <= i < k + length l)%nat ->
  In (i, nth (i - k) l d) (combine (seq k (length l)) l).
Proof.
  revert k. induction l as [|a l IH]; intros k H; cbn [length] in H.
  - lia.
  - cbn. destruct (Nat.eq_dec i k) as [-> | Hne].
    + left. now rewrite Nat.sub_diag.
    + right. replace (i - k)%nat with (S (i - S k)) by lia.
      apply IH. lia.
Qed.

Lemma enumerate_In {A : Type} (d : A) (l : list A) (i : nat) :
  (i < length l)%nat -> In (i, nth i l d) (enumerate l).
Proof.
  intro H. unfold enumerate.
  rewrite <- (Nat.sub_0_r i) at 2. apply combine_seq_In. lia.
Qed.

Lemma query_pairs_from_In (d : point) (X : list point) (r : Q) (k i j : nat) :
  In (i, j) (query_pairs_from k X r) <->
  (k <= i)%nat /\ (i < j)%nat /\ (j < k + length X)%nat /\
  within_radius (euclidean (nth (i - k) X d) (nth (j - k) X d)) r = true.
Proof.
  revert k. induction X as [|p X IH]; intro k; cbn [query_pairs_from length].
  - split; [contradiction | lia].
  - rewrite in_app_iff, IH, in_map_iff. split.
    + intros [((j' & q) & Heq & Hin) | (H1 & H2 & H3 & H4)].
      * cbn [fst] in Heq. injection Heq as <- <-.
        apply filter_In in Hin. destruct Hin as [Hin Hclose]. cbn [snd] in Hclose.
        apply (enumerate_from_nth d) in Hin. destruct Hin as [Hj Hq].
        rewrite Nat.sub_diag. cbn [nth].
        replace (j' - k)%nat with (S (j' - S k)) by lia. cbn [nth].
        rewrite Hq. repeat split; try lia. exact Hclose.
      * replace (i - k)%nat with (S (i - S k)) by lia.
        replace (j - k)%nat with (S (j - S k)) by lia.
        cbn [nth]. repeat split; try lia. exact H4.
    + intros (H1 & H2 & H3 & H4).
      destruct (Nat.eq_dec i k) as [-> | Hne].
      * left. exists (j, nth (j - S k) X d). split; [reflexivity|].
        apply filter_In. split; [apply combine_seq_In; lia|].
        cbn [snd]. rewrite Nat.sub_diag in H4. cbn [nth] in H4.
        replace (j - k)%nat with (S (j - S k)) in H4 by lia. exact H4.
      * right. repeat split; try lia.
        replace (i - k)%nat with (S (i - S k)) in H4 by lia.
        replace (j - k)%nat with (S (j - S k)) in H4 by lia. exact H4.
Qed.

Lemma query_pairs_In (d : point) (X : list point) (r : Q) (i j : nat) :
  In (i, j) (query_pairs X r) <->
  (i < j)%nat /\ (j < length X)%nat /\
  within_radius (euclidean (nth i X d) (nth j X d)) r = true.
Proof.
  unfold query_pairs. rewrite (query_pairs_from_In d), !Nat.sub_0_r.
  split; [intros (_ & H) | intro H; split; [lia|]]; tauto.
Qed.

Lemma insert_unique_In (a b : nat) (l : list nat) :
  In b (insert_unique a l) <-> b = a \/ In b l.
Proof.
  induction l as [|c l IH]; cbn [insert_unique].
  - cbn [In]. intuition congruence.
  - destruct (Nat.ltb a c) eqn:E1.
    + cbn [In]. intuition congruence.
    + destruct (Nat.eqb a c) eqn:E2.
      * apply Nat.eqb_eq in E2. subst c. cbn [In]. intuition congruence.
      * cbn [In]. rewrite IH. intuition congruence.
Qed.

Lemma np_unique_In (b : nat) (l : list nat) : In b (np_unique l) <-> In b l.
Proof.
  induction l as [|a l IH]; cbn [np_unique fold_right In]; [tauto|].
  fold (np_unique l). rewrite insert_unique_In, IH. intuition congruence.
Qed.

Lemma within_radius_iff (d : dist) (r : Q) :
  within_radius d r = true <-> sq d <= r * r.
Proof. apply Qle_bool_iff. Qed.

Lemma within_radius_sym (p q : point) (r : Q) :
  within_radius (euclidean p q) r = within_radius (euclidean q p) r.
Proof.
  unfold within_radius, euclidean. cbn [sq].
  apply Qleb_comp; [ring | reflexivity].
Qed.

(** An index is removed exactly when another row lies within [minsep]. *)
Lemma to_remove_In (d : point) (X : list point) (r : Q) (i : nat) :
  In i (flat_map (fun pair : nat * nat => [fst pair; snd pair]) (query_pairs X r)) <->
  (i < length X)%nat /\
  exists j, (j < length X)%nat /\ j <> i /\
            within_radius (euclidean (nth i X d) (nth j X d)) r = true.
Proof.
  rewrite in_flat_map. split.
  - intros ([a b] & Hin & Hi). apply (query_pairs_In d) in Hin.
    destruct Hin as (Hab & Hb & Hclose). cbn in Hi.
    destruct Hi as [<- | [<- | []]].
    + split; [lia|]. exists b. repeat split; [lia | lia | exact Hclose].
    + split; [lia|]. exists a. repeat split; [lia | lia |].
      rewrite within_radius_sym. exact Hclose.
  - intros (Hi & j & Hj & Hne & Hclose).
    destruct (Nat.lt_ge_cases i j) as [Hlt | Hge].
    + exists (i, j). split; [apply (query_pairs_In d); auto|]. cbn. auto.
    + exists (j, i). split; [|cbn; auto].
      apply (query_pairs_In d). repeat split; [lia | lia |].
      rewrite within_radius_sym. exact Hclose.
Qed.

Lemma existsb_eqb_In (i : nat) (l : list nat) :
  existsb (Nat.eqb i) l = true <-> In i l.
Proof.
  rewrite existsb_exists. split.
  - intros (x & Hx & E). apply Nat.eqb_eq in E. now subst.
  - intro H. exists i. split; [exact H | apply Nat.eqb_refl].
Qed.

Lemma bool_eq_iff (a b : bool) : (a = true <-> b = true) -> a = b.
Proof. destruct a, b; intuition congruence. Qed.

Lemma remove_rows_close_pairs (cat : table) (minsep : Q) :
  remove_rows cat (np_unique (flat_map (fun pair : nat * nat => [fst pair; snd pair])
                                       (query_pairs (get_det_coords cat) minsep)))
  = remove_close_pairs cat minsep.
Proof.
  unfold remove_rows, remove_close_pairs. f_equal.
  apply filter_ext_in. intros [i r] Hin. unfold isolated. cbn [fst snd]. f_equal.
  apply bool_eq_iff.
  rewrite existsb_eqb_In, np_unique_In, (to_remove_In (0, 0)), existsb_exists.
  pose proof (enumerate_nth r cat i r Hin) as [Hi Hr].
  unfold get_det_coords. rewrite length_map.
  change (0, 0) with (det_coords (mkDet 0 0 0 0 0)).
  change (fun r0 : detection => (X_IMAGE r0, Y_IMAGE r0)) with det_coords.
  rewrite !map_nth.
  rewrite (nth_indep cat (mkDet 0 0 0 0 0) r Hi), Hr.
  split.
  - intros (_ & j & Hj & Hne & Hclose).
    exists (j, nth j cat (mkDet 0 0 0 0 0)). split; [apply enumerate_In, Hj|].
    cbn [fst snd]. apply andb_true_iff. rewrite map_nth in Hclose.
    split; [|exact Hclose].
    apply negb_true_iff, Nat.eqb_neq. congruence.
  - intros ([j s] & Hjs & Hc). cbn [fst snd] in Hc.
    apply andb_true_iff in Hc. destruct Hc as [Hne Hclose].
    apply negb_true_iff, Nat.eqb_neq in Hne.
    apply (enumerate_nth (mkDet 0 0 0 0 0)) in Hjs. destruct Hjs as [Hj Hs].
    split; [exact Hi|]. exists j. repeat split; [exact Hj | congruence |].
    rewrite map_nth, Hs. exact Hclose.
Qed.

Lemma filter_all {A : Type} (l : list A) : filter (fun _ => true) l = l.
Proof. induction l as [|a l IH]; cbn; [reflexivity | now rewrite IH]. Qed.

Lemma remove_rows_nil {A : Type} (cat : list A) : remove_rows cat [] = cat.
Proof.
  unfold remove_rows. cbn [existsb negb].
  rewrite filter_all. apply map_snd_enumerate.
Qed.


(** ** trim_cat *)

Lemma StronglySorted_app {A : Type} (R : A -> A -> Prop) (l1 l2 : list A) :
  StronglySorted R l1 -> StronglySorted R l2 ->
  (forall x y, In x l1 -> In y l2 -> R x y) ->
  StronglySorted R (l1 ++ l2).
Proof.
  induction 1 as [|a l1 Hs IH Ha]; intros H2 Hx; cbn; [exact H2|].
  constructor.
  - apply IH; [exact H2|]. intros x y Hx1 Hy. apply Hx; [now right | exact Hy].
  - apply Forall_app. split; [exact Ha|].
    apply Forall_forall. intros y Hy. apply Hx; [now left | exact Hy].
Qed.

Lemma StronglySorted_rev {A : Type} (R : A -> A -> Prop) (l : list A) :
  StronglySorted R l -> StronglySorted (fun a b => R b a) (rev l).
Proof.
  induction 1 as [|a l Hs IH Ha]; cbn; [constructor|].
  apply StronglySorted_app; [exact IH | repeat constructor|].
  intros x y Hx [<- | []]. apply in_rev in Hx.
  rewrite Forall_forall in Ha. apply Ha, Hx.
Qed.

Lemma StronglySorted_weaken {A : Type} (R R' : A -> A -> Prop) (l : list A) :
  (forall a b, R a b -> R' a b) -> StronglySorted R l -> StronglySorted R' l.
Proof.
  intros HR. induction 1 as [|a l Hs IH Ha]; constructor; [exact IH|].
  eapply Forall_impl; [|exact Ha]. intros b. apply HR.
Qed.

Lemma flux_leb_total (r s : detection) : flux_leb r s = true \/ flux_leb s r = true.
Proof.
  unfold flux_leb. rewrite !Qle_bool_iff.
  destruct (Qlt_le_dec (FLUX_BEST s) (FLUX_BEST r)); [right | left]; lra.
Qed.

Lemma flux_leb_trans (r s u : detection) :
  flux_leb r s = true -> flux_leb s u = true -> flux_leb r u = true.
Proof. unfold flux_leb. rewrite !Qle_bool_iff. lra. Qed.

(** A row is kept by [remove_close_pairs] exactly when no row at another
    index is at distance at most [minsep] from it. *)
Lemma isolated_iff (cat : table) (minsep : Q) (ir : nat * detection) :
  isolated cat minsep ir = true <->
  forall js, In js (enumerate cat) -> fst js <> fst ir ->
             ~ sq (euclidean (det_coords (snd ir)) (det_coords (snd js)))
               <= minsep * minsep.
Proof.
  unfold isolated. rewrite negb_true_iff. split.
  - intros H js Hjs Hne Hclose.
    assert (K : existsb (fun js0 => negb (Nat.eqb (fst ir) (fst js0))
                  && within_radius (euclidean (det_coords (snd ir))
                                              (det_coords (snd js0)))
                                   minsep) (enumerate cat) = true).
    { apply existsb_exists. exists js. split; [exact Hjs|].
      apply andb_true_iff. split.
      - apply negb_true_iff, Nat.eqb_neq. congruence.
      - apply within_radius_iff. exact Hclose. }
    congruence.
  - intro H. destruct (existsb _ _) eqn:E; [|reflexivity].
    apply existsb_exists in E. destruct E as (js & Hjs & Hc).
    apply andb_true_iff in Hc. destruct Hc as [Hne Hclose].
    apply negb_true_iff, Nat.eqb_neq in Hne. apply within_radius_iff in Hclose.
    exfalso. apply (H js Hjs); [congruence | exact Hclose].
Qed.


Example trim_cat_example :
  trim_cat (example_self 0)
           [mkDet 5 5 3 3 0; mkDet 50 50 9 1 0; mkDet 20 5 4 3 0; mkDet 90 90 8 3 9;
            mkDet 40 40 7 3 0; mkDet 41 41 6 3 0; mkDet 80 5 5 3 0] 2 7 None
  = [mkDet 80 5 5 3 0; mkDet 20 5 4 3 0; mkDet 5 5 3 3 0].
Proof. reflexivity. Qed.

(** C4 at the boundary: two valid detections exactly [minsep = 2 *
    maxmatchdist = 10] apart are not closer than [minsep] and have the
    minimum separation that the docstring of [trim_cat] allows; trimming by
    "closer than [minsep]" keeps both, yet the kd-tree query returns the
    pair and both are removed. *)
Lemma trim_cat_removes_pair_at_minsep :
  let cat := [mkDet 0 0 10 3 0; mkDet 10 0 9 3 0] in
  dist_lt_Q (euclidean (0, 0) (10, 0)) (2 * 5) = false /\
  trim_closer_than 10 5 cat 2 7 = cat /\
  trim_cat_with 10 5 cat 2 7 None = [].
Proof. repeat split. Qed.


(** ** find_affine_transform *)





Lemma hash_dist_nan_r (h : option hash) : hash_dist h None = None.
Proof. destruct h as [[[[a b] c] d]|]; reflexivity. Qed.

(** [np.argmin] stops at the first nan. *)
Lemma argmin_from_nan (whole l prefix : list (option dist)) (best : option dist)
    (bi : nat) :
  whole = prefix ++ l ->
  nth bi whole None = best ->
  best = None \/ In None l ->
  nth (argmin_from best bi (length prefix) l) whole None = None.
Proof.
  revert prefix best bi. induction l as [|d l IH]; intros prefix best bi Hw Hb Hnan.
  - cbn [argmin_from]. destruct Hnan as [-> | []]. exact Hb.
  - cbn [argmin_from].
    assert (Hw' : whole = (prefix ++ [d]) ++ l) by (rewrite <- app_assoc; exact Hw).
    assert (Hlen : length (prefix ++ [d]) = S (length prefix))
      by (rewrite length_app; cbn; lia).
    destruct (nan_ltb d best) eqn:E.
    + rewrite <- Hlen. apply (IH (prefix ++ [d]) d (length prefix) Hw').
      * rewrite Hw, app_nth2, Nat.sub_diag by lia. reflexivity.
      * destruct Hnan as [-> | [-> | Hin]]; [cbn in E; discriminate E | now left | now right].
    + rewrite <- Hlen. apply (IH (prefix ++ [d]) best bi Hw' Hb).
      destruct Hnan as [-> | [-> | Hin]]; [now left | | now right].
      left. destruct best; [cbn in E; discriminate E | reflexivity].
Qed.

Lemma argmin_nan (c : list (option dist)) :
  In None c -> nth (argmin c) c None = None.
Proof.
  destruct c as [|d l]; [contradiction|]. intro H. unfold argmin.
  apply (argmin_from_nan (d :: l) l [d] d 0%nat); [reflexivity | reflexivity|].
  destruct H as [-> | H]; [now left | now right].
Qed.

Lemma cdist_hash_rows (XA XB : list (option hash)) (dists : list (list (option dist))) :
  cdist_hash XA XB = Ok dists ->
  XA <> [] /\ XB <> [] /\ dists = map (fun h => map (hash_dist h) XB) XA.
Proof.
  unfold cdist_hash. destruct XA as [|a XA]; [discriminate|].
  destruct XB as [|b XB]; [discriminate|].
  intro H. injection H as <-. repeat split; discriminate.
Qed.



Lemma getitem_In {A : Type} (l : list A) (i : nat) (a : A) :
  getitem l i = Ok a -> In a l.
Proof.
  unfold getitem. destruct (nth_error l i) eqn:E; [|discriminate].
  intro H. injection H as <-. eapply nth_error_In, E.
Qed.

(** ** argmin *)



(** ** find_affine_transform: the nearest template quad *)





(** ** calc_affine_transform: the system it solves *)





(** ** find_affine_transform: the first candidate that succeeds *)



(** On that run the first candidate is passed over with four matches, the
    second succeeds with six, and with [maxcands = 1] nothing is found. *)
Example find_affine_transform_twin :
  cdist_hash (map snd (template_quadlist twin_ready))
             (map snd (source_quadlist twin_ready)) = Ok twin_dists /\
  affine_eq twin_refit (mkAffine 1 0 1 0) /\
  outcome (find_affine_transform twin_ready None None 1 (5 # 1000))
  = (Ok tt, [MsgTooFewMatches 4 4], None).
Proof.
  split; [vm_compute; reflexivity|].
  split; [vm_compute; repeat split | vm_compute; reflexivity].
Qed.

(** ** find_affine_transform: no candidate succeeds *)

Lemma candidates_not_tried (self : Spalipy) (m : Q) (minnmatch : Z)
    (minquaddist : Q) (mindist : list (option dist)) (idx : list nat)
    (cands : list nat) (nm : nat) :
  Forall (not_tried minquaddist mindist) cands ->
  candidates self m minnmatch minquaddist mindist idx cands nm = Ok (NotFound nm).
Proof.
  induction 1 as [|b cands (dist & Hd & Hfar) _ IH]; [reflexivity|].
  cbn [candidates]. rewrite Hd. cbn [bind]. rewrite Hfar. exact IH.
Qed.

Lemma candidates_last_trial (self : Spalipy) (m : Q) (minnmatch : Z)
    (minquaddist : Q) (mindist : list (option dist)) (idx : list nat)
    (pre post : list nat) (bi n0 nm : nat) (s0 t0 : table) (dist : option dist) :
  Forall (rejected self m minnmatch minquaddist mindist idx) pre ->
  getitem mindist bi = Ok dist -> below dist minquaddist = true ->
  initial_guess self m idx bi = Ok (n0, s0, t0) -> (Z.of_nat n0 <= minnmatch)%Z ->
  Forall (not_tried minquaddist mindist) post ->
  candidates self m minnmatch minquaddist mindist idx (pre ++ bi :: post) nm
  = Ok (NotFound n0).
Proof.
  intros Hpre Hd Hbelow Hguess Hn Hpost. revert nm.
  induction Hpre as [|b pre Hb Hpre IH]; intro nm.
  - cbn [app candidates]. rewrite Hd. cbn [bind]. rewrite Hbelow, Hguess.
    cbn [bind]. apply Z.ltb_ge in Hn. rewrite Hn.
    apply candidates_not_tried, Hpost.
  - destruct Hb as (d & Hdb & [Hfar | (n & s & t & Hg & Hle)]).
    + cbn [app candidates]. rewrite Hdb. cbn [bind]. rewrite Hfar. apply IH.
    + cbn [app candidates]. rewrite Hdb. cbn [bind].
      destruct (below d minquaddist); [|apply IH].
      rewrite Hg. cbn [bind]. apply Z.ltb_ge in Hle. rewrite Hle. apply IH.
Qed.

(** When every examined candidate is passed over, the count printed is that
    of the last candidate tried: the candidates before it are passed over,
    its trial transform matches [n0 <= minnmatch] detections, and the
    candidates after it are not tried.  Nothing is stored. *)
Theorem find_affine_transform_too_few_matches (self : Spalipy)
    (dists : list (list (option dist))) (m : Q) (minn : Z)
    (maxcands : Z) (minquaddist : Q)
    (pre post : list nat) (bi n0 : nat) (s0 t0 : table) (dist : option dist) :
  let nsource := length (map snd (source_quadlist self)) in
  let mindist := hash_min nsource dists in
  let idx := hash_argmin nsource dists in
  let best := argsort nan_leb mindist in
  firstn (Z.to_nat (Z.min maxcands (Z.of_nat (length best)))) best
  = pre ++ bi :: post ->
  Forall (rejected self m minn minquaddist mindist idx) pre ->
  getitem mindist bi = Ok dist -> below dist minquaddist = true ->
  initial_guess self m idx bi = Ok (n0, s0, t0) -> (Z.of_nat n0 <= minn)%Z ->
  Forall (not_tried minquaddist mindist) post ->
  find_affine_transform_from self dists m minn maxcands minquaddist
  = (Ok tt, print (MsgTooFewMatches n0 minn) self) /\
  (cdist_hash (map snd (template_quadlist self)) (map snd (source_quadlist self))
   = Ok dists ->
   forall maxmatchdist_arg minnmatch_arg,
     default_of maxmatchdist_arg (maxmatchdist self) = m ->
     default_of minnmatch_arg (minnmatch self) = minn ->
     find_affine_transform self maxmatchdist_arg minnmatch_arg maxcands minquaddist
     = (Ok tt, print (MsgTooFewMatches n0 minn) self)).
Proof.
  intros nsource mindist idx best Hcands Hpre Hd Hbelow Hguess Hn Hpost.
  assert (Hfrom : find_affine_transform_from self dists m minn maxcands minquaddist
                  = (Ok tt, print (MsgTooFewMatches n0 minn) self)).
  { unfold find_affine_transform_from.
    fold nsource. fold mindist. fold idx. fold best.
    assert (Hex : existsb (fun d => below d minquaddist) mindist = true).
    { apply existsb_exists. exists dist. split; [eapply getitem_In, Hd | exact Hbelow]. }
    rewrite Hex. cbn [negb]. rewrite Hcands.
    rewrite (candidates_last_trial self m minn minquaddist mindist idx pre post bi n0
               0%nat s0 t0 dist Hpre Hd Hbelow Hguess Hn Hpost).
    reflexivity. }
  split; [exact Hfrom|].
  intros Hcdist m_arg minn_arg Hm Hminn. unfold find_affine_transform.
  rewrite Hcdist.
  change (match m_arg with
          | Some m0 => m0
          | None => maxmatchdist self
          end) with (default_of m_arg (maxmatchdist self)).
  change (match minn_arg with
          | Some n1 => n1
          | None => minnmatch self
          end) with (default_of minn_arg (minnmatch self)).
  rewrite Hm, Hminn. exact Hfrom.
Qed.

Lemma find_affine_transform_too_few_matches_witness :
  find_affine_transform_from twin_ready twin_dists 1 6 2 (5 # 1000)
  = (Ok tt, print (MsgTooFewMatches 6 6) twin_ready) /\
  (cdist_hash (map snd (template_quadlist twin_ready))
              (map snd (source_quadlist twin_ready)) = Ok twin_dists ->
   forall maxmatchdist_arg minnmatch_arg,
     default_of maxmatchdist_arg (maxmatchdist twin_ready) = 1 ->
     default_of minnmatch_arg (minnmatch twin_ready) = 6%Z ->
     find_affine_transform twin_ready maxmatchdist_arg minnmatch_arg 2 (5 # 1000)
     = (Ok tt, print (MsgTooFewMatches 6 6) twin_ready)).
Proof.
  apply (find_affine_transform_too_few_matches twin_ready twin_dists 1 6 2 (5 # 1000)
           [0%nat] [] 1%nat 6%nat twin_source twin_matched
           (nth 1 (hash_min (length (map snd (source_quadlist twin_ready)))
                            twin_dists) None)).
  - vm_compute. reflexivity.
  - constructor; [|constructor].
    eexists. split; [vm_compute; reflexivity|].
    right. exists 4%nat. eexists. eexists.
    split; [vm_compute; reflexivity | vm_compute; discriminate].
  - vm_compute. reflexivity.
  - vm_compute. reflexivity.
  - vm_compute. reflexivity.
  - vm_compute. discriminate.
  - constructor.
Defined.

(** ** find_affine_transform: non-finite hashes *)

(** A source quad whose hash is not finite is not tried: its nearest hash
    distance is not below [minquaddist], and the loop goes on to the next
    candidate without computing a transform for it. *)
Theorem nonfinite_source_hash_passed_over (self : Spalipy) (m : Q) (minn : Z)
    (minquaddist : Q) (dists : list (list (option dist))) (bi : nat) :
  let nsource := length (map snd (source_quadlist self)) in
  let mindist := hash_min nsource dists in
  let idx := hash_argmin nsource dists in
  cdist_hash (map snd (template_quadlist self)) (map snd (source_quadlist self))
  = Ok dists ->
  nth_error (map snd (source_quadlist self)) bi = Some None ->
  not_tried minquaddist mindist bi /\
  forall rest nm,
    candidates self m minn minquaddist mindist idx (bi :: rest) nm
    = candidates self m minn minquaddist mindist idx rest nm.
Proof.
  intros nsource mindist idx Hd Hbi.
  set (XA := map snd (template_quadlist self)) in *.
  set (XB := map snd (source_quadlist self)) in *.
  assert (Hget : getitem mindist bi = Ok None).
  { unfold mindist. apply cdist_hash_rows in Hd. destruct Hd as (HA & _ & ->).
    assert (Hlt : (bi < length XB)%nat) by (apply nth_error_Some; congruence).
    unfold getitem, hash_min, columns. rewrite map_map.
    rewrite nth_error_map. unfold nsource.
    rewrite (nth_error_nth' (seq 0 (length XB)) 0%nat)
      by (rewrite length_seq; exact Hlt).
    rewrite seq_nth by exact Hlt. cbn [option_map Nat.add].
    rewrite argmin_nan; [reflexivity|].
    destruct XA as [|h XA']; [contradiction|].
    left. cbn [map].
    rewrite (nth_indep _ None (hash_dist h None)) by (rewrite length_map; exact Hlt).
    rewrite (map_nth (hash_dist h)).
    rewrite (nth_error_nth _ _ None Hbi). apply hash_dist_nan_r. }
  split.
  - exists None. split; [exact Hget | reflexivity].
  - intros rest nm. cbn [candidates]. rewrite Hget. reflexivity.
Qed.

Lemma nonfinite_source_hash_passed_over_witness :
  let self := twin_vertical in
  let nsource := length (map snd (source_quadlist self)) in
  exists dists,
    cdist_hash (map snd (template_quadlist self)) (map snd (source_quadlist self))
    = Ok dists /\
    not_tried (5 # 1000) (hash_min nsource dists) 0 /\
    forall rest nm,
      candidates self 1 4 (5 # 1000) (hash_min nsource dists)
                 (hash_argmin nsource dists) (0%nat :: rest) nm
      = candidates self 1 4 (5 # 1000) (hash_min nsource dists)
                   (hash_argmin nsource dists) rest nm.
Proof.
  cbv zeta.
  destruct (cdist_hash (map snd (template_quadlist twin_vertical))
                       (map snd (source_quadlist twin_vertical)))
    as [dists|e] eqn:E; [|vm_compute in E; discriminate E].
  exists dists. split; [reflexivity|].
  apply (nonfinite_source_hash_passed_over twin_vertical 1 4 (5 # 1000) dists 0 E).
  reflexivity.
Defined.


Example find_affine_transform_example :
  affine_eq example_refit example_transform.
Proof. vm_compute. repeat split. Qed.

Example find_affine_transform_five :
  affine_eq five_refit (mkAffine 1 0 1 0).
Proof. vm_compute. repeat split. Qed.


(** ** What each method leaves untouched *)

Lemma make_quadlist_frame (self : Spalipy) (image : image_name)
    (nquaddets_arg : option Z) (minquadsep_arg : option Q) :
  let self' := snd (make_quadlist self image nquaddets_arg minquadsep_arg) in
  affine_transform self' = affine_transform self /\
  source_data_transform self' = source_data_transform self /\
  spline_transform self' = spline_transform self /\
  same_setup self self'.
Proof.
  unfold make_quadlist, same_setup.
  destruct image; cbn zeta;
    repeat match goal with
           | |- context [if ?b then _ else _] => destruct b
           | |- context [match quads_of ?a ?b ?c with _ => _ end] =>
               destruct (quads_of a b c)
           end; cbn; auto 10.
Qed.

Lemma same_setup_trans (s s' s'' : Spalipy) :
  same_setup s s' -> same_setup s' s'' -> same_setup s s''.
Proof. unfold same_setup. intuition congruence. Qed.

Lemma same_setup_refl (s : Spalipy) : same_setup s s.
Proof. unfold same_setup. auto. Qed.

(** A transform found by the loop comes from an accepted candidate. *)
Lemma candidates_found (self : Spalipy) (m : Q) (minnmatch : Z)
    (minquaddist : Q) (mindist : list (option dist)) (idx : list nat)
    (cands : list nat) (nm : nat) (final : search) (n : nat) (s t : table)
    (transform : AffineTransform) :
  candidates self m minnmatch minquaddist mindist idx cands nm
  = Ok (Found n s t transform) ->
  exists bi, In bi cands /\
             accepted self m minnmatch minquaddist mindist idx bi
                      (Found n s t transform).
Proof.
  revert nm. induction cands as [|b cands IH]; intros nm H; [discriminate|].
  cbn [candidates] in H.
  destruct (getitem mindist b) as [dist|] eqn:Ed; [|discriminate].
  cbn [bind] in H.
  destruct (below dist minquaddist) eqn:Eb.
  - destruct (initial_guess self m idx b) as [[[n0 s0] t0]|] eqn:Eg; [|discriminate].
    cbn [bind] in H.
    destruct (minnmatch <? Z.of_nat n0)%Z eqn:En.
    + exists b. split; [now left|].
      exists dist, n0, s0, t0. apply Z.ltb_lt in En. auto.
    + destruct (IH _ H) as (bi & Hin & Hacc). exists bi. split; [now right | exact Hacc].
  - destruct (IH _ H) as (bi & Hin & Hacc). exists bi. split; [now right | exact Hacc].
Qed.

(** [find_affine_transform] either leaves the results as they are or stores
    a transform re-fitted on more than [minnmatch] matches together with the
    detections it matches. *)
Lemma find_affine_transform_outcome (self : Spalipy)
    (maxmatchdist_arg : option Q) (minnmatch_arg : option Z)
    (maxcands : Z) (minquaddist : Q) :
  let m := default_of maxmatchdist_arg (maxmatchdist self) in
  let minn := default_of minnmatch_arg (minnmatch self) in
  let out := find_affine_transform self maxmatchdist_arg minnmatch_arg maxcands
                                   minquaddist in
  (affine_transform (snd out) = affine_transform self /\
   nmatch (snd out) = nmatch self /\
   source_data_transform (snd out) = source_data_transform self /\
   spline_transform (snd out) = spline_transform self /\
   same_setup self (snd out)) \/
  (exists n s t transform n0 s0 t0,
      out = (Ok tt, set_found n s t transform self) /\
      (minn < Z.of_nat n0)%Z /\
      calc_affine_transform (get_det_coords s0) (get_det_coords t0) = Ok transform /\
      match_dets self transform (Some m) = Ok (n, s, t)).
Proof.
  intros m minn. unfold find_affine_transform, find_affine_transform_from.
  change (match maxmatchdist_arg with
          | Some m0 => m0
          | None => maxmatchdist self
          end) with m.
  change (match minnmatch_arg with
          | Some n1 => n1
          | None => minnmatch self
          end) with minn.
  destruct (cdist_hash _ _) as [dists|e];
    [|left; cbn; auto using same_setup_refl].
  destruct (negb _); [left; unfold same_setup; cbn; auto 10|].
  destruct (candidates _ _ _ _ _ _ _ _) as [[n s t transform|n]|e] eqn:E;
    [|left; unfold same_setup; cbn; auto 10|left; unfold same_setup; cbn; auto 10].
  right. apply candidates_found in E; [|exact (NotFound 0)].
  destruct E as (bi & _ & dist & n0 & s0 & t0 & _ & _ & _ & Hn & Href).
  unfold refine in Href.
  destruct (calc_affine_transform (get_det_coords s0) (get_det_coords t0))
    as [tr|] eqn:E5; [|discriminate].
  cbn [bind] in Href.
  destruct (match_dets self tr (Some m)) as [[[n' s'] t']|] eqn:E6; [|discriminate].
  cbn [bind] in Href. injection Href as -> -> -> ->.
  exists n, s, t, transform, n0, s0, t0. auto.
Qed.

Lemma find_affine_transform_frame (self : Spalipy)
    (maxmatchdist_arg : option Q) (minnmatch_arg : option Z)
    (maxcands : Z) (minquaddist : Q) :
  let self' := snd (find_affine_transform self maxmatchdist_arg minnmatch_arg
                                          maxcands minquaddist) in
  source_data_transform self' = source_data_transform self /\
  spline_transform self' = spline_transform self /\
  same_setup self self'.
Proof.
  cbv zeta.
  destruct (find_affine_transform_outcome self maxmatchdist_arg minnmatch_arg
              maxcands minquaddist)
    as [(_ & _ & H1 & H2 & H3) | (n & s & t & tr & n0 & s0 & t0 & -> & _)];
    [auto | unfold same_setup; cbn; auto 10].
Qed.

(** ** find_affine_transform: every way it ends *)

Lemma initial_guess_trial (self : Spalipy) (m : Q) (idx : list nat) (bi n : nat)
    (s t : table) :
  initial_guess self m idx bi = Ok (n, s, t) ->
  exists guess, trial_transform self guess /\
                match_dets self guess (Some m) = Ok (n, s, t).
Proof.
  unfold initial_guess. intro H.
  destruct (getitem idx bi) as [ti|]; [|discriminate]. cbn [bind] in H.
  destruct (getitem (template_quadlist self) ti) as [tq|] eqn:E2; [|discriminate].
  cbn [bind] in H.
  destruct (getitem (source_quadlist self) bi) as [sq0|] eqn:E3; [|discriminate].
  cbn [bind] in H.
  destruct (calc_affine_transform _ _) as [guess|] eqn:E4; [|discriminate].
  cbn [bind] in H.
  exists guess. split; [|exact H].
  exists tq, sq0. split; [eapply getitem_In, E2|]. split; [eapply getitem_In, E3|].
  exact E4.
Qed.

(** The count of the [else] clause is the count of the last trial, or the
    count the loop started with. *)
Lemma candidates_not_found (self : Spalipy) (m : Q) (minnmatch : Z)
    (minquaddist : Q) (mindist : list (option dist)) (idx : list nat)
    (cands : list nat) (nm n : nat) :
  candidates self m minnmatch minquaddist mindist idx cands nm = Ok (NotFound n) ->
  n = nm \/
  exists guess s t,
    trial_transform self guess /\
    match_dets self guess (Some m) = Ok (n, s, t) /\ (Z.of_nat n <= minnmatch)%Z.
Proof.
  revert nm. induction cands as [|b cands IH]; intros nm H.
  - cbn in H. injection H as <-. now left.
  - cbn [candidates] in H.
    destruct (getitem mindist b) as [dist|]; [|discriminate]. cbn [bind] in H.
    destruct (below dist minquaddist); [|apply (IH _ H)].
    destruct (initial_guess self m idx b) as [[[n0 s0] t0]|] eqn:Eg; [|discriminate].
    cbn [bind] in H.
    destruct (minnmatch <? Z.of_nat n0)%Z eqn:En.
    + unfold refine in H.
      destruct (calc_affine_transform _ _); [|discriminate]. cbn [bind] in H.
      destruct (match_dets _ _ _) as [[[? ?] ?]|]; discriminate.
    + destruct (IH _ H) as [-> | K]; [|right; exact K].
      right. destruct (initial_guess_trial _ _ _ _ _ _ _ Eg) as (guess & Hg & Hm).
      apply Z.ltb_ge in En. exists guess, s0, t0. auto.
Qed.

Lemma candidates_validated (self : Spalipy) (m : Q) (minnmatch : Z)
    (minquaddist : Q) (mindist : list (option dist)) (idx : list nat)
    (cands : list nat) (nm n : nat) (s t : table) (transform : AffineTransform) :
  candidates self m minnmatch minquaddist mindist idx cands nm
  = Ok (Found n s t transform) ->
  validated self m minnmatch n s t transform.
Proof.
  intro H. apply candidates_found in H; [|exact (NotFound 0)].
  destruct H as (bi & _ & dist & n0 & s0 & t0 & _ & _ & Hguess & Hn & Href).
  destruct (initial_guess_trial _ _ _ _ _ _ _ Hguess) as (guess & Hg & Hm).
  unfold refine in Href.
  destruct (calc_affine_transform (get_det_coords s0) (get_det_coords t0))
    as [tr|] eqn:E5; [|discriminate].
  cbn [bind] in Href.
  destruct (match_dets self tr (Some m)) as [[[n' s'] t']|] eqn:E6; [|discriminate].
  cbn [bind] in Href. injection Href as -> -> -> ->.
  exists guess, n0, s0, t0. auto.
Qed.

(** [find_affine_transform] ends in one of four ways: an exception, with
    the instance as it was; the message that no quad is below
    [minquaddist]; the message that too few detections matched, with the
    count of a trial; or a validated transform stored with its matches. *)
Lemma find_affine_transform_cases (self : Spalipy)
    (maxmatchdist_arg : option Q) (minnmatch_arg : option Z)
    (maxcands : Z) (minquaddist : Q) :
  let m := default_of maxmatchdist_arg (maxmatchdist self) in
  let minn := default_of minnmatch_arg (minnmatch self) in
  let out := find_affine_transform self maxmatchdist_arg minnmatch_arg maxcands
                                   minquaddist in
  (exists e, out = (Raise e, self)) \/
  (out = (Ok tt, print (MsgNoMatchingQuads minquaddist) self) /\
   exists dists,
     cdist_hash (map snd (template_quadlist self)) (map snd (source_quadlist self))
     = Ok dists /\
     Forall (fun d => below d minquaddist = false)
            (hash_min (length (source_quadlist self)) dists)) \/
  (exists n, out = (Ok tt, print (MsgTooFewMatches n minn) self) /\
             reported_count self m minn n) \/
  (exists n s t transform,
      out = (Ok tt, set_found n s t transform self) /\
      validated self m minn n s t transform).
Proof.
  intros m minn. unfold find_affine_transform, find_affine_transform_from.
  change (match maxmatchdist_arg with
          | Some m0 => m0
          | None => maxmatchdist self
          end) with m.
  change (match minnmatch_arg with
          | Some n1 => n1
          | None => minnmatch self
          end) with minn.
  destruct (cdist_hash _ _) as [dists|e] eqn:Ec; [|left; exists e; reflexivity].
  destruct (existsb _ _) eqn:Ex; cbn [negb].
  - destruct (candidates _ _ _ _ _ _ _ _) as [[n s t transform|n]|e] eqn:E.
    + right. right. right. exists n, s, t, transform. split; [reflexivity|].
      eapply candidates_validated, E.
    + right. right. left. exists n. split; [reflexivity|].
      apply candidates_not_found in E. destruct E as [-> | K]; [now left | now right].
    + left. exists e. reflexivity.
  - right. left. split; [reflexivity|]. exists dists. split; [reflexivity|].
    rewrite length_map in Ex. apply Forall_forall. intros d Hd.
    destruct (below d minquaddist) eqn:Eb; [|reflexivity].
    rewrite <- Ex. symmetry. apply existsb_exists. exists d. auto.
Qed.


Section PipelineProperties.

Variable SmoothBivariateSpline :
  list Q -> list Q -> list Q -> Z -> Z -> result surface.
Variable map_coordinates : image -> list (list point) -> Z -> image.
Variable ndimage_affine_transform :
  image -> (Q * Q) * (Q * Q) -> Q * Q -> Z -> nat * nat -> image.

Local Abbreviation find_spline_transform_ :=
  (find_spline_transform SmoothBivariateSpline).
Local Abbreviation align_ := (align map_coordinates ndimage_affine_transform).
Local Abbreviation main_ :=
  (main SmoothBivariateSpline map_coordinates ndimage_affine_transform).

Lemma find_spline_transform_frame (self : Spalipy) (spline_order_arg : option Z) :
  let self' := snd (find_spline_transform_ self spline_order_arg) in
  affine_transform self' = affine_transform self /\
  source_data_transform self' = source_data_transform self.
Proof.
  unfold find_spline_transform.
  destruct (affine_transform self) as [t|] eqn:Et; [|cbn; auto].
  destruct (source_matchdets self), (template_matchdets self); try (cbn; auto).
  destruct (SmoothBivariateSpline _ _ _ _ _) as [sx|e].
  - destruct (SmoothBivariateSpline _ _ _ _ _) as [sy|e]; [cbn; auto|].
    destruct e; cbn; auto.
  - destruct e; cbn; auto.
Qed.

(** [align] leaves the transform as it is, and stores a resampled image
    only when there is one. *)
Lemma align_frame (self : Spalipy) :
  let self' := snd (align_ self) in
  affine_transform self' = affine_transform self /\
  (source_data_transform self' = source_data_transform self \/
   exists t, affine_transform self = Some t).
Proof.
  unfold align. destruct (affine_transform self) as [t|] eqn:Et.
  - assert (Hr : exists t0, Some t = Some t0) by (exists t; reflexivity).
    destruct (spline_transform self).
    + destruct (final_transform_call _ _) as [f|e]; cbn; rewrite ?Et; auto.
    + destruct (inverse t) as [inv|e]; [|cbn; rewrite ?Et; auto].
      destruct (matrix_form inv) as [matrix offset]. cbn. rewrite ?Et. auto.
  - cbn. rewrite Et. auto.
Qed.

(** The tail of [main] after a transform has been found. *)
Lemma main_unfold (self : Spalipy) (quiet_arg : option bool) :
  main_ self quiet_arg =
  let quiet := default_of quiet_arg (quiet self) in
  seq_ (make_quadlist self source None None) (fun self =>
  seq_ (make_quadlist self template None None) (fun self =>
  seq_ (find_affine_transform self None None 10 (5 # 1000)) (fun self =>
  match affine_transform self with
  | None => (Ok tt, print MsgNoInitialAffine self)
  | Some _ =>
      seq_ (if quiet then (Ok tt, self)
            else
              let self := print (MsgMatched (nmatch self) (maxmatchdist self)) self in
              match get_residuals self affine with
              | Raise e => (Raise e, self)
              | Ok (dx, dy) => (Ok tt, print (MsgAffineResiduals dx dy) self)
              end) (fun self =>
      seq_ (if (0 <? spline_order self)%Z then find_spline_transform_ self None
            else (Ok tt, self)) (fun self =>
      seq_ (align_ self) (fun self =>
      if negb quiet && final_transform self then
        match get_residuals self final with
        | Raise e => (Raise e, self)
        | Ok (dx, dy) => (Ok tt, print (MsgFinalResiduals dx dy) self)
        end
      else (Ok tt, self))))
  end))).
Proof. reflexivity. Qed.

Lemma nth_map_seq {A : Type} (g : nat -> A) (d : A) (n i : nat) :
  (i < n)%nat -> nth i (map g (seq 0 n)) d = g i.
Proof.
  intro H. rewrite (nth_indep _ d (g 0%nat)) by (now rewrite length_map, length_seq).
  rewrite map_nth, seq_nth by exact H. reflexivity.
Qed.

Lemma meshgrid_nth (f : point -> point) (w h i j : nat) :
  (i < h)%nat -> (j < w)%nat ->
  nth j (nth i (map (map f) (meshgrid w h)) []) (0, 0) = f (Zq j, Zq i).
Proof.
  intros Hi Hj. unfold meshgrid. rewrite map_map.
  rewrite (nth_map_seq (fun i0 => map f (map (fun j0 => (Zq j0, Zq i0)) (seq 0 w)))
                       [] h i Hi).
  rewrite map_map. apply (nth_map_seq (fun j0 => f (Zq j0, Zq i)) (0, 0) w j Hj).
Qed.

(** Without residual surfaces [align] resamples with the affine primitive,
    given the inverse transform in matrix and offset form. *)
Lemma align_affine (self : Spalipy) (t inv : AffineTransform) :
  spline_transform self = false ->
  affine_transform self = Some t ->
  inverse t = Ok inv ->
  align_ self =
  (Ok tt,
   set_source_data_transform
     (Some (img_T (ndimage_affine_transform (img_T (source_data self))
                     (fst (matrix_form inv)) (snd (matrix_form inv))
                     (interp_order self) (shape self)))) self).
Proof.
  intros Hs Ht Hinv. unfold align. rewrite Ht, Hs, Hinv. reflexivity.
Qed.

(** With residual surfaces [align] resamples with [map_coordinates] at the
    inverse transform of each output pixel plus the relative spline shift. *)
Lemma align_spline (self : Spalipy) (t inv : AffineTransform) (sx sy : surface) :
  spline_transform self = true ->
  affine_transform self = Some t ->
  inverse t = Ok inv ->
  sbs_x self = Some sx -> sbs_y self = Some sy ->
  align_ self =
  (Ok tt,
   set_source_data_transform
     (Some (map_coordinates (img_T (source_data self))
              (map (map (fun xy => padd (apply_transform_xy inv xy)
                                        (0 - sx (fst xy) (snd xy),
                                         0 - sy (fst xy) (snd xy))))
                   (meshgrid (fst (shape self)) (snd (shape self))))
              (interp_order self)))
     (set_final_transform true self)).
Proof.
  intros Hs Ht Hinv Hx Hy. unfold align. rewrite Ht, Hs.
  unfold final_transform_call, spline_transform_relative.
  cbn [affine_transform sbs_x sbs_y set_final_transform].
  rewrite Ht, Hinv, Hx, Hy. reflexivity.
Qed.

(** Up to the residual fit, [main] changes neither the resampled image, nor
    the spline flag, nor the inputs of the resampler. *)
Ltac main_walk self quiet_arg s4 t Et4 D4 S4 U4 :=
  rewrite main_unfold; cbv zeta; unfold seq_;
  let A1 := fresh "A1" in let D1 := fresh "D1" in
  let S1 := fresh "S1" in let U1 := fresh "U1" in
  pose proof (make_quadlist_frame self source None None) as (A1 & D1 & S1 & U1);
  let r1 := fresh "r1" in let s1 := fresh "s1" in
  destruct (make_quadlist self source None None) as [r1 s1]; cbn [fst snd] in *;
  destruct r1 as [[]|?];
  [ let A2 := fresh "A2" in let D2 := fresh "D2" in
    let S2 := fresh "S2" in let U2 := fresh "U2" in
    pose proof (make_quadlist_frame s1 template None None) as (A2 & D2 & S2 & U2);
    let r2 := fresh "r2" in let s2 := fresh "s2" in
    destruct (make_quadlist s1 template None None) as [r2 s2]; cbn [fst snd] in *;
    destruct r2 as [[]|?];
    [ let D3 := fresh "D3" in let S3 := fresh "S3" in let U3 := fresh "U3" in
      pose proof (find_affine_transform_frame s2 None None 10 (5 # 1000))
        as (D3 & S3 & U3);
      let r3 := fresh "r3" in let s3 := fresh "s3" in
      destruct (find_affine_transform s2 None None 10 (5 # 1000)) as [r3 s3];
      cbn [fst snd] in *;
      destruct r3 as [[]|?];
      [ let Et := fresh "Et" in
        destruct (affine_transform s3) as [t|] eqn:Et;
        [ let stage4 := fresh "stage4" in
          set (stage4 := if default_of quiet_arg (quiet self) then (Ok tt, s3) else _);
          let H4 := fresh "H4" in
          assert (H4 : affine_transform (snd stage4) = Some t /\
                       source_data_transform (snd stage4) = source_data_transform self /\
                       spline_transform (snd stage4) = spline_transform self /\
                       same_setup self (snd stage4))
            by (unfold stage4; destruct (default_of quiet_arg (quiet self));
                [ cbn [snd]; (split; [|split; [|split]]);
                  [ assumption | congruence | congruence
                  | eauto using same_setup_trans ]
                | destruct (get_residuals _ _) as [[? ?]|?]; cbn [snd];
                  ((split; [|split; [|split]]);
                   [ exact Et | cbn; congruence | cbn; congruence
                   | apply (same_setup_trans _ s3);
                     [ eauto using same_setup_trans
                     | unfold same_setup; cbn; auto ] ]) ]);
          destruct H4 as (Et4 & D4 & S4 & U4);
          let r4 := fresh "r4" in
          destruct stage4 as [r4 s4]; cbn [fst snd] in *;
          destruct r4 as [[]|?]
        | ]
      | ]
    | ]
  | ].

(** With [spline_order <= 0] the residual fit is not run: whatever the fit
    would do, [main] gives the same result. *)
Lemma main_skips_fit (self : Spalipy) (quiet_arg : option bool)
    (other_fit : list Q -> list Q -> list Q -> Z -> Z -> result surface) :
  (spline_order self <= 0)%Z ->
  main other_fit map_coordinates ndimage_affine_transform self quiet_arg
  = main_ self quiet_arg.
Proof.
  intro Hk. unfold main, seq_.
  pose proof (make_quadlist_frame self source None None) as (_ & _ & _ & U1).
  destruct (make_quadlist self source None None) as [r1 s1]. cbn [fst snd] in *.
  destruct r1 as [[]|e]; [|reflexivity].
  pose proof (make_quadlist_frame s1 template None None) as (_ & _ & _ & U2).
  destruct (make_quadlist s1 template None None) as [r2 s2]. cbn [fst snd] in *.
  destruct r2 as [[]|e]; [|reflexivity].
  pose proof (find_affine_transform_frame s2 None None 10 (5 # 1000)) as (_ & _ & U3).
  destruct (find_affine_transform s2 None None 10 (5 # 1000)) as [r3 s3].
  cbn [fst snd] in *.
  destruct r3 as [[]|e]; [|reflexivity].
  destruct (affine_transform s3) as [t|]; [|reflexivity].
  assert (K3 : spline_order s3 = spline_order self).
  { destruct U1 as (_ & _ & K1 & _), U2 as (_ & _ & K2 & _), U3 as (_ & _ & K3 & _).
    congruence. }
  destruct (default_of quiet_arg (quiet self)).
  - cbn [fst snd].
    assert (E : (0 <? spline_order s3)%Z = false) by (apply Z.ltb_ge; lia).
    rewrite E. reflexivity.
  - destruct (get_residuals _ _) as [[dx dy]|e]; cbn [fst snd]; [|reflexivity].
    assert (E : (0 <? spline_order (print (MsgAffineResiduals dx dy)
                         (print (MsgMatched (nmatch s3) (maxmatchdist s3)) s3)))%Z
                = false) by (apply Z.ltb_ge; cbn; lia).
    rewrite E. reflexivity.
Qed.

(** With [spline_order <= 0] and no residual surfaces, a resampled image
    stored by [main] is that of the affine primitive at the inverse of the
    stored transform. *)
Lemma main_affine_only (self : Spalipy) (quiet_arg : option bool) :
  (spline_order self <= 0)%Z ->
  spline_transform self = false ->
  spline_transform (snd (main_ self quiet_arg)) = false /\
  (source_data_transform (snd (main_ self quiet_arg)) <> source_data_transform self ->
   exists t inv,
     affine_transform (snd (main_ self quiet_arg)) = Some t /\
     inverse t = Ok inv /\
     source_data_transform (snd (main_ self quiet_arg)) =
     Some (img_T (ndimage_affine_transform (img_T (source_data self))
                    (fst (matrix_form inv)) (snd (matrix_form inv))
                    (interp_order self) (shape self)))).
Proof.
  intros Hk Hs.
  main_walk self quiet_arg s4 t Et4 D4 S4 U4;
    try (cbn [snd]; split; [cbn; congruence | cbn; congruence]).
  destruct U4 as (Ud & Ush & Uk & Ui).
  assert (E : (0 <? spline_order s4)%Z = false) by (apply Z.ltb_ge; lia).
  rewrite E. cbn [fst snd].
  destruct (inverse t) as [inv|e] eqn:Einv.
  - rewrite (align_affine s4 t inv) by congruence. cbn [fst snd].
    match goal with
    | |- context [if ?c then ?a else ?b] =>
        assert (Hres : spline_transform (snd (if c then a else b)) = false /\
                       affine_transform (snd (if c then a else b)) = Some t /\
                       source_data_transform (snd (if c then a else b)) =
                       Some (img_T (ndimage_affine_transform (img_T (source_data self))
                                      (fst (matrix_form inv)) (snd (matrix_form inv))
                                      (interp_order self) (shape self))))
          by (destruct c;
              [ destruct (get_residuals _ final) as [[? ?]|?] | ];
              cbn; rewrite ?Ud, ?Ush, ?Ui; repeat split; congruence)
    end.
    destruct Hres as (R1 & R2 & R3).
    split; [exact R1|]. intros _. exists t, inv. auto.
  - assert (Hal : align_ s4 = (Raise e, s4)).
    { unfold align. rewrite Et4. replace (spline_transform s4) with false by congruence.
      rewrite Einv. reflexivity. }
    rewrite Hal. cbn [fst snd]. split; congruence.
Qed.

(** A fit that returns normally has stored both surfaces and set the spline
    flag; a fit that raises has not set it. *)
Lemma find_spline_transform_result (self : Spalipy) (spline_order_arg : option Z) :
  let out := find_spline_transform_ self spline_order_arg in
  match fst out with
  | Ok _ => spline_transform (snd out) = true /\
            exists sx sy, sbs_x (snd out) = Some sx /\ sbs_y (snd out) = Some sy
  | Raise e => spline_transform (snd out) = spline_transform self /\
               (e = dfitpackError -> stdout (snd out) = stdout self ++ [MsgSplineFailed])
  end.
Proof.
  unfold find_spline_transform.
  destruct (affine_transform self) as [t|]; [|cbn; split; [reflexivity | discriminate]].
  destruct (source_matchdets self), (template_matchdets self);
    try (cbn; split; [reflexivity | discriminate]).
  destruct (SmoothBivariateSpline _ _ _ _ _) as [sx|e].
  - destruct (SmoothBivariateSpline _ _ _ _ _) as [sy|e].
    + cbn. split; [reflexivity|]. exists sx, sy. auto.
    + destruct e; cbn; split; auto; discriminate.
  - destruct e; cbn; split; auto; discriminate.
Qed.

(** [align] keeps the spline flag. *)
Lemma align_spline_flag (self : Spalipy) :
  spline_transform (snd (align_ self)) = spline_transform self.
Proof.
  unfold align. destruct (affine_transform self) as [t|]; [|reflexivity].
  destruct (spline_transform self) eqn:Es.
  - destruct (final_transform_call _ _) as [f|e]; cbn; auto.
  - destruct (inverse t) as [inv|e]; [|cbn; auto].
    destruct (matrix_form inv) as [matrix offset]. cbn. auto.
Qed.

(** A run of [main] with [spline_order > 0] that returns normally with a
    transform has fitted the residual surfaces: a failed fit is never
    replaced by the affine transform alone. *)
Lemma main_no_fallback (self : Spalipy) (quiet_arg : option bool) :
  fst (main_ self quiet_arg) = Ok tt ->
  (0 < spline_order self)%Z ->
  (exists t, affine_transform (snd (main_ self quiet_arg)) = Some t) ->
  spline_transform (snd (main_ self quiet_arg)) = true.
Proof.
  intros Hok Hk Ht. revert Hok Ht.
  main_walk self quiet_arg s4 t Et4 D4 S4 U4;
    try (cbn [fst snd]; intros; discriminate);
    try (cbn [fst snd]; intros _ (t' & Ht'); cbn in Ht'; congruence).
  destruct U4 as (_ & _ & Uk & _).
  assert (E : (0 <? spline_order s4)%Z = true) by (apply Z.ltb_lt; lia).
  rewrite E.
  pose proof (find_spline_transform_result s4 None) as R. cbv zeta in R.
  destruct (find_spline_transform_ s4 None) as [r5 s5]. cbn [fst snd] in *.
  destruct r5 as [[]|e]; [|cbn [fst snd]; intros; discriminate].
  destruct R as [R _].
  pose proof (align_spline_flag s5) as F.
  destruct (align_ s5) as [r6 s6]. cbn [fst snd] in *.
  destruct r6 as [[]|e]; [|cbn [fst snd]; intros; discriminate].
  intros _ _.
  destruct (negb _ && _); [|cbn [snd]; congruence].
  destruct (get_residuals s6 final) as [[dx dy]|e]; cbn; congruence.
Qed.

(** After the search [main] either passes on its exception, or prints that
    no transform was found and returns, or goes on with the transform the
    instance holds, which it keeps to the end. *)
Lemma main_after_search (self s1 s2 : Spalipy) (quiet_arg : option bool) :
  make_quadlist self source None None = (Ok tt, s1) ->
  make_quadlist s1 template None None = (Ok tt, s2) ->
  let searched := find_affine_transform s2 None None 10 (5 # 1000) in
  match fst searched with
  | Raise e => main_ self quiet_arg = (Raise e, snd searched)
  | Ok _ =>
      match affine_transform (snd searched) with
      | None => main_ self quiet_arg = (Ok tt, print MsgNoInitialAffine (snd searched))
      | Some t => affine_transform (snd (main_ self quiet_arg)) = Some t
      end
  end.
Proof.
  intros H1 H2. cbv zeta. rewrite main_unfold. cbv zeta. unfold seq_.
  rewrite H1. cbn [fst snd]. rewrite H2. cbn [fst snd].
  destruct (find_affine_transform s2 None None 10 (5 # 1000)) as [r3 s3].
  cbn [fst snd].
  destruct r3 as [[]|e]; [|reflexivity].
  destruct (affine_transform s3) as [t|] eqn:Et; [|reflexivity].
  set (stage4 := if default_of quiet_arg (quiet self) then (Ok tt, s3) else _).
  assert (A4 : affine_transform (snd stage4) = Some t).
  { unfold stage4. destruct (default_of quiet_arg (quiet self)); [auto|].
    destruct (get_residuals _ _) as [[dx dy]|e]; cbn; auto. }
  destruct stage4 as [r4 s4]. cbn [fst snd] in *.
  destruct r4 as [[]|e]; [|cbn [snd]; congruence].
  set (stage5 := if (0 <? spline_order s4)%Z then _ else (Ok tt, s4)).
  assert (A5 : affine_transform (snd stage5) = Some t).
  { unfold stage5. destruct (0 <? spline_order s4)%Z; [|auto].
    pose proof (find_spline_transform_frame s4 None) as [F1 _].
    cbv zeta in F1. rewrite F1. auto. }
  destruct stage5 as [r5 s5]. cbn [fst snd] in *.
  destruct r5 as [[]|e]; [|cbn [snd]; congruence].
  pose proof (align_frame s5) as [A6 _].
  cbv zeta in A6.
  destruct (align_ s5) as [r6 s6]. cbn [fst snd] in *.
  destruct r6 as [[]|e]; [|cbn [snd]; congruence].
  destruct (negb _ && _); [|cbn [snd]; congruence].
  destruct (get_residuals s6 final) as [[dx dy]|e]; cbn; congruence.
Qed.

(** With a fit routine that fails, [find_spline_transform] raises. *)
Lemma find_spline_transform_fails (self : Spalipy) (spline_order_arg : option Z) :
  (forall x y z kx ky, exists e, SmoothBivariateSpline x y z kx ky = Raise e) ->
  exists e, fst (find_spline_transform_ self spline_order_arg) = Raise e.
Proof.
  intro Hfail. unfold find_spline_transform.
  destruct (affine_transform self) as [t|]; [|eexists; reflexivity].
  destruct (source_matchdets self), (template_matchdets self);
    try (eexists; reflexivity).
  match goal with
  | |- context [SmoothBivariateSpline ?x ?y ?z ?kx ?ky] =>
      destruct (Hfail x y z kx ky) as (e & ->)
  end.
  exists e. reflexivity.
Qed.

(** With [spline_order > 0] and a fit that fails, [main] stores no image,
    and returns normally only when no transform was found. *)
Lemma main_failing_fit (self : Spalipy) (quiet_arg : option bool) :
  (forall x y z kx ky, exists e, SmoothBivariateSpline x y z kx ky = Raise e) ->
  (0 < spline_order self)%Z ->
  source_data_transform (snd (main_ self quiet_arg)) = source_data_transform self /\
  (fst (main_ self quiet_arg) = Ok tt ->
   affine_transform (snd (main_ self quiet_arg)) = None).
Proof.
  intros Hfail Hk.
  main_walk self quiet_arg s4 t Et4 D4 S4 U4;
    try (cbn [fst snd]; split; [cbn; congruence | intro; first [discriminate | cbn; congruence]]).
  destruct U4 as (_ & _ & Uk & _).
  assert (E : (0 <? spline_order s4)%Z = true) by (apply Z.ltb_lt; lia).
  rewrite E.
  destruct (find_spline_transform_fails s4 None Hfail) as (e & He).
  pose proof (find_spline_transform_frame s4 None) as [_ F2].
  cbv zeta in F2.
  destruct (find_spline_transform_ s4 None) as [r5 s5]. cbn [fst snd] in *.
  subst r5. cbn [fst snd]. split; [congruence | discriminate].
Qed.

(** C7.  The coordinate map of the resampler follows from the presence of
    residual surfaces.  With [spline_order <= 0] the fit is skipped
    entirely -- [main] gives the same result whatever the fit routine is --
    and, no surfaces being present, an image it stores is the one the affine
    primitive gives for the inverse transform in matrix and offset form.
    Without surfaces [align] calls that primitive; with surfaces it samples
    the source image with [map_coordinates] over the whole output grid, and
    the coordinate of output pixel [(x, y)] is the inverse transform of
    [(x, y)] plus the relative shift of the surfaces at [(x, y)]. *)
Theorem align_coordinate_map (self : Spalipy) (quiet_arg : option bool) :
  ((spline_order self <= 0)%Z ->
   (forall other_fit,
       main other_fit map_coordinates ndimage_affine_transform self quiet_arg
       = main_ self quiet_arg) /\
   (spline_transform self = false ->
    spline_transform (snd (main_ self quiet_arg)) = false /\
    (source_data_transform (snd (main_ self quiet_arg)) <> source_data_transform self ->
     exists t inv,
       affine_transform (snd (main_ self quiet_arg)) = Some t /\
       inverse t = Ok inv /\
       source_data_transform (snd (main_ self quiet_arg)) =
       Some (img_T (ndimage_affine_transform (img_T (source_data self))
                      (fst (matrix_form inv)) (snd (matrix_form inv))
                      (interp_order self) (shape self)))))) /\
  (forall t inv,
      affine_transform self = Some t -> inverse t = Ok inv ->
      spline_transform self = false ->
      align_ self =
      (Ok tt,
       set_source_data_transform
         (Some (img_T (ndimage_affine_transform (img_T (source_data self))
                         (fst (matrix_form inv)) (snd (matrix_form inv))
                         (interp_order self) (shape self)))) self)) /\
  (forall t inv sx sy,
      affine_transform self = Some t -> inverse t = Ok inv ->
      spline_transform self = true ->
      sbs_x self = Some sx -> sbs_y self = Some sy ->
      exists coords : list (list point),
        align_ self =
        (Ok tt,
         set_source_data_transform
           (Some (map_coordinates (img_T (source_data self)) coords (interp_order self)))
           (set_final_transform true self)) /\
        length coords = snd (shape self) /\
        Forall (fun row => length row = fst (shape self)) coords /\
        forall x y, (x < fst (shape self))%nat -> (y < snd (shape self))%nat ->
          nth x (nth y coords []) (0, 0)
          = padd (apply_transform_xy inv (Zq x, Zq y))
                 (0 - sx (Zq x) (Zq y), 0 - sy (Zq x) (Zq y))).
Proof.
  split; [|split].
  - intro Hk. split.
    + intro other_fit. rewrite (main_skips_fit self quiet_arg other_fit Hk).
      symmetry. apply (main_skips_fit self quiet_arg SmoothBivariateSpline Hk).
    + intro Hs. apply main_affine_only; assumption.
  - intros t inv Ht Hinv Hs. apply (align_affine self t inv Hs Ht Hinv).
  - intros t inv sx sy Ht Hinv Hs Hx Hy.
    eexists. split; [apply (align_spline self t inv sx sy Hs Ht Hinv Hx Hy)|].
    split; [|split].
    + unfold meshgrid. now rewrite !length_map, length_seq.
    + unfold meshgrid. rewrite map_map. apply Forall_forall. intros row Hrow.
      apply in_map_iff in Hrow. destruct Hrow as (i & <- & _).
      now rewrite !length_map, length_seq.
    + intros x y Hx' Hy'.
      apply (meshgrid_nth
               (fun xy => padd (apply_transform_xy inv xy)
                               (0 - sx (fst xy) (snd xy), 0 - sy (fst xy) (snd xy)))
               (fst (shape self)) (snd (shape self)) y x Hy' Hx').
Qed.

End PipelineProperties.

(** The three cases of C7 on the example: the run with [spline_order = 0]
    does not depend on the fit, the shifted image, and the image sampled
    pixel by pixel. *)
Lemma align_coordinate_map_witness :
  (main failing_spline nearest_map_coordinates nearest_affine_transform
        (tiny_self tiny_source tiny_template 3 0) None
   = main zero_spline nearest_map_coordinates nearest_affine_transform
          (tiny_self tiny_source tiny_template 3 0) None) /\
  source_data_transform
    (snd (align nearest_map_coordinates nearest_affine_transform shifted_self))
  = Some [[0; 1]; [0; 3]] /\
  source_data_transform
    (snd (align nearest_map_coordinates nearest_affine_transform splined_self))
  = Some [[1; 2]; [3; 4]].
Proof.
  split; [|split].
  - destruct (align_coordinate_map zero_spline nearest_map_coordinates
                nearest_affine_transform
                (tiny_self tiny_source tiny_template 3 0) None) as (H & _).
    destruct H as (H & _); [vm_compute; discriminate|].
    apply (H failing_spline).
  - destruct (align_coordinate_map zero_spline nearest_map_coordinates
                nearest_affine_transform shifted_self None) as (_ & H & _).
    rewrite (H (mkAffine 1 0 1 0) (mkAffine 1 0 (-1) 0));
      [vm_compute | | |]; reflexivity.
  - destruct (align_coordinate_map zero_spline nearest_map_coordinates
                nearest_affine_transform splined_self None) as (_ & _ & H).
    destruct (H (mkAffine 1 0 1 0) (mkAffine 1 0 (-1) 0)
                (fun _ _ => -1) (fun _ _ => 0)
                eq_refl eq_refl eq_refl eq_refl eq_refl)
      as (coords & Halign & Hlen & Hrows & Hpix).
    rewrite Halign. cbn [snd source_data_transform set_source_data_transform].
    destruct coords as [|[|c00 [|c01 [|? ?]]] [|[|c10 [|c11 [|? ?]]] [|? ?]]];
      try discriminate Hlen;
      try (exfalso; inversion Hrows as [|? ? Hr0 Hrest]; subst;
           try discriminate Hr0;
           inversion Hrest as [|? ? Hr1 _]; subst; discriminate Hr1).
    pose proof (Hpix 0%nat 0%nat ltac:(cbn; lia) ltac:(cbn; lia)) as P00.
    pose proof (Hpix 1%nat 0%nat ltac:(cbn; lia) ltac:(cbn; lia)) as P10.
    pose proof (Hpix 0%nat 1%nat ltac:(cbn; lia) ltac:(cbn; lia)) as P01.
    pose proof (Hpix 1%nat 1%nat ltac:(cbn; lia) ltac:(cbn; lia)) as P11.
    cbn [nth] in P00, P10, P01, P11. subst. vm_compute. reflexivity.
Defined.

(** C9 as stated fails: when no quad matches, and when too few detections
    match, [main] has printed its messages and returns normally, exactly as
    a run that succeeds does; nothing is raised and nothing is returned. *)
Lemma main_silent_return_counterexample :
  let run := main zero_spline nearest_map_coordinates nearest_affine_transform in
  outcome (run (tiny_self tiny_source tiny_unrelated 3 0) None)
  = (Ok tt, [MsgNoMatchingQuads (5 # 1000); MsgNoInitialAffine], None) /\
  outcome (run (tiny_self tiny_source tiny_template 4 0) None)
  = (Ok tt, [MsgTooFewMatches 4 4; MsgNoInitialAffine], None) /\
  outcome (run (tiny_self tiny_source tiny_template 3 0) None)
  = (Ok tt, [], Some [[0; 1]; [0; 3]]).
Proof. vm_compute. repeat split. Qed.

(** With three detections in each catalogue no quads are made and the run
    ends in the exception of [cdist] on the empty hash lists. *)
Example main_few_detections_example :
  outcome (main zero_spline nearest_map_coordinates nearest_affine_transform
                (tiny_self (firstn 3 tiny_source) (firstn 3 tiny_template) 2 0) None)
  = (Raise ValueError, [MsgRestrictingNquaddets 3; MsgRestrictingNquaddets 3], None).
Proof. vm_compute. reflexivity. Qed.

(** A failing fit ends the run of [main] with its exception and without a
    resampled image; with a fit that succeeds the image is resampled through
    the surfaces. *)
Example main_fit_failure_example :
  outcome (main failing_spline nearest_map_coordinates nearest_affine_transform
                (tiny_self tiny_source tiny_template 3 1) None)
  = (Raise dfitpackError, [MsgSplineFailed], None) /\
  outcome (main zero_spline nearest_map_coordinates nearest_affine_transform
                (tiny_self tiny_source tiny_template 3 1) None)
  = (Ok tt, [], Some [[0; 1]; [0; 3]]).
Proof. vm_compute. split; reflexivity. Qed.



(** * Further properties of the code *)

(** ** AffineTransform *)

(** [inverse] raises exactly for the degenerate transforms, those with
    [a = b = 0], and the exception is that of [linalg.inv] on a singular
    matrix. *)
Theorem inverse_raises_iff_degenerate (t : AffineTransform) :
  (inverse t = Raise LinAlgError <-> v0 t * v0 t + v1 t * v1 t == 0) /\
  (forall e, inverse t = Raise e -> e = LinAlgError).
Proof.
  destruct (Qeq_dec (v0 t * v0 t + v1 t * v1 t) 0) as [H | H].
  - rewrite (inverse_singular t H). split.
    + split; auto.
    + intros e K. now injection K as <-.
  - rewrite (inverse_defined t H). split.
    + split; [discriminate | contradiction].
    + discriminate.
Qed.

Lemma apply_transform_distance (t : AffineTransform) (p q : point) :
  sq (euclidean (apply_transform_xy t p) (apply_transform_xy t q))
  == (v0 t * v0 t + v1 t * v1 t) * sq (euclidean p q).
Proof.
  unfold euclidean, apply_transform_xy. cbn [sq fst snd]. ring.
Qed.


(** ** quad: what it returns *)

Lemma argmax_from_bound (l : list dist) (best : dist) (bi i : nat) :
  (bi < i)%nat -> (argmax_from best bi i l < i + length l)%nat.
Proof.
  revert best bi i. induction l as [|d l IH]; intros best bi i H; cbn [argmax_from length].
  - lia.
  - destruct (dist_ltb best d).
    + specialize (IH d i (S i)). lia.
    + specialize (IH best bi (S i)). lia.
Qed.

Lemma argmax_bound (l : list dist) (k : nat) :
  argmax l = Ok k -> (k < length l)%nat.
Proof.
  destruct l as [|d l]; [discriminate|]. unfold argmax. intro H. injection H as <-.
  pose proof (argmax_from_bound l d 0%nat 1%nat). cbn [length]. lia.
Qed.

Ltac perm_step :=
  match goal with
  | |- Permutation [] [] => apply perm_nil
  | |- Permutation (?a :: _) ?L =>
      match L with
      | a :: _ => apply perm_skip
      | ?b :: a :: ?r => apply (Permutation_cons_app [b] r); cbn [app]
      | ?b :: ?c :: a :: ?r => apply (Permutation_cons_app [b; c] r); cbn [app]
      | ?b :: ?c :: ?d :: a :: ?r =>
          apply (Permutation_cons_app [b; c; d] r); cbn [app]
      end
  end.

(** In exact arithmetic a finite hash has its first coordinate at most its
    third and their sum at most 1. *)
Lemma quad_returns_canonical (q0 q1 q2 q3 : point) :
  exists pts h,
    quad [q0; q1; q2; q3] (pdist [q0; q1; q2; q3]) = Ok (pts, h) /\
    Permutation pts [q0; q1; q2; q3] /\
    forall xC yC xD yD, h = Some (xC, yC, xD, yD) -> xC <= xD /\ xC + xD <= 1.
Proof.
  unfold quad, longest_first.
  destruct (argmax (pdist [q0; q1; q2; q3])) as [k|e] eqn:Ek; [|discriminate].
  apply argmax_bound in Ek. cbn in Ek. cbn [bind].
  assert (Hcanon : forall A B C D,
             Permutation [A; B; C; D] [q0; q1; q2; q3] ->
             exists pts h,
               Ok (quad_ordered A B C D) = Ok (pts, h) /\
               Permutation pts [q0; q1; q2; q3] /\
               forall xC yC xD yD, h = Some (xC, yC, xD, yD) ->
                                   xC <= xD /\ xC + xD <= 1).
  { intros A B C D Hperm. unfold quad_ordered.
    destruct (quad_transform A B) as [t|].
    - destruct (apply_transform_xy t C) as [xC yC].
      destruct (apply_transform_xy t D) as [xD yD].
      bool_cases; eexists; eexists; (split; [reflexivity|]); split;
        try (intros ? ? ? ? K; injection K as <- <- <- <-; lra);
        (eapply perm_trans; [|exact Hperm]); repeat perm_step.
    - eexists; eexists. split; [reflexivity|]. split; [exact Hperm|]. discriminate. }
  do 6 (destruct k as [|k]; [cbn; apply Hcanon; repeat perm_step|]). lia.
Qed.
(** On four points [quad] returns, and the points it gives are the four
    points it was given, in some order. *)
Theorem quad_returns_points (q0 q1 q2 q3 : point) :
  exists pts h,
    quad [q0; q1; q2; q3] (pdist [q0; q1; q2; q3]) = Ok (pts, h) /\
    Permutation pts [q0; q1; q2; q3].
Proof.
  destruct (quad_returns_canonical q0 q1 q2 q3) as (pts & h & Hq & Hp & _).
  exists pts, h. auto.
Qed.



(** In exact arithmetic the hash [quad] returns is the position of the third
    and fourth point it returns, in the frame that has the first point it
    returns at [(0, 0)] and the second at [(1, 1)]: the first two points of
    two quads with the same hash correspond to each other.  In float64 the
    hash is that position up to rounding. *)
Theorem quad_hash_is_frame_position (q0 q1 q2 q3 : point) (pts : list point) (h : hash) :
  quad [q0; q1; q2; q3] (pdist [q0; q1; q2; q3]) = Ok (pts, Some h) ->
  exists P0 P1 P2 P3 t,
    pts = [P0; P1; P2; P3] /\
    quad_transform P0 P1 = Some t /\
    point_eq (apply_transform_xy t P0) (0, 0) /\
    point_eq (apply_transform_xy t P1) (1, 1) /\
    hash_eq h (fst (apply_transform_xy t P2), snd (apply_transform_xy t P2),
               fst (apply_transform_xy t P3), snd (apply_transform_xy t P3)).
Proof.
  unfold quad, longest_first.
  destruct (argmax (pdist [q0; q1; q2; q3])) as [k|e]; [|discriminate].
  cbn [bind].
  destruct (getitem orders k) as [order|e]; [|discriminate]. cbn [bind].
  destruct (take_rows [q0; q1; q2; q3] order) as [[|A [|B [|C [|D [|? ?]]]]]|e];
    cbn [bind]; try discriminate.
  intro H. injection H as H. revert H. unfold quad_ordered.
  destruct (quad_transform A B) as [t|] eqn:Et; [|discriminate].
  destruct (quad_transform_frame A B t Et) as [HA HB].
  destruct (quad_transform_swap A B t Et) as (t' & Et' & Hrel).
  destruct (quad_transform_frame B A t' Et') as [HB' HA'].
  pose proof (Hrel C) as [HCx HCy]. pose proof (Hrel D) as [HDx HDy].
  destruct (apply_transform_xy t C) as [xC yC] eqn:EC.
  destruct (apply_transform_xy t D) as [xD yD] eqn:ED.
  cbn [fst snd] in *.
  destruct (Qlt_bool xD xC), (Qlt_bool 1 (xC + xD));
    intro H; injection H as <- <-.
  - exists B, A, C, D, t'. repeat split; try assumption; try apply HB'; try apply HA';
      cbn [fst snd]; symmetry; assumption.
  - exists A, B, D, C, t. rewrite EC, ED. repeat split; try assumption;
      try apply HA; try apply HB; reflexivity.
  - exists B, A, D, C, t'. repeat split; try assumption; try apply HB'; try apply HA';
      cbn [fst snd]; symmetry; assumption.
  - exists A, B, C, D, t. rewrite EC, ED. repeat split; try assumption;
      try apply HA; try apply HB; reflexivity.
Qed.

Lemma quad_hash_is_frame_position_witness :
  exists pts h P0 P1 P2 P3 t,
    quad [(5, 1); (0, 0); (2, 3); (4, 4)] (pdist [(5, 1); (0, 0); (2, 3); (4, 4)])
    = Ok (pts, Some h) /\
    pts = [P0; P1; P2; P3] /\
    quad_transform P0 P1 = Some t /\
    point_eq (apply_transform_xy t P0) (0, 0) /\
    point_eq (apply_transform_xy t P1) (1, 1) /\
    hash_eq h (fst (apply_transform_xy t P2), snd (apply_transform_xy t P2),
               fst (apply_transform_xy t P3), snd (apply_transform_xy t P3)).
Proof.
  assert (E : exists pts h,
             quad [(5, 1); (0, 0); (2, 3); (4, 4)]
                  (pdist [(5, 1); (0, 0); (2, 3); (4, 4)]) = Ok (pts, Some h))
    by (vm_compute; eauto).
  destruct E as (pts & h & E).
  destruct (quad_hash_is_frame_position (5, 1) (0, 0) (2, 3) (4, 4) pts h E)
    as (P0 & P1 & P2 & P3 & t & H).
  exists pts, h, P0, P1, P2, P3, t. split; [exact E | exact H].
Defined.

(** ** quad: the hash does not change under a similarity *)






Lemma pdist_scaled (t : AffineTransform) (X : list point) :
  scaled (v0 t * v0 t + v1 t * v1 t) (pdist X) (pdist (apply_transform t X)).
Proof.
  unfold scaled, apply_transform. induction X as [|p X IH]; cbn [pdist map].
  - constructor.
  - apply Forall2_app; [|exact IH].
    clear IH. induction X as [|q X IH]; cbn [map]; constructor; [|exact IH].
    apply apply_transform_distance.
Qed.






(** In exact arithmetic the distances between the images of a list of
    points are the distances between the points, all scaled by the same [a^2
    + b^2] (in squares): the transform is a similarity.  The float64
    distances agree with this up to rounding. *)
Theorem apply_transform_scales_distances (t : AffineTransform) (X : list point) :
  scaled (v0 t * v0 t + v1 t * v1 t) (pdist X) (pdist (apply_transform t X)) /\
  forall p q, sq (euclidean (apply_transform_xy t p) (apply_transform_xy t q))
              == (v0 t * v0 t + v1 t * v1 t) * sq (euclidean p q).
Proof.
  split; [apply pdist_scaled | apply apply_transform_distance].
Qed.



(** ** make_quadlist *)

Lemma combinations_sorted (k a n : nat) (c : list nat) :
  In c (combinations (seq a n) k) ->
  length c = k /\ StronglySorted lt c /\ Forall (fun i => (a <= i < a + n)%nat) c.
Proof.
  revert k a c. induction n as [|n IH]; intros k a c H.
  - destruct k; cbn in H; [|contradiction].
    destruct H as [<- | []]. repeat split; constructor.
  - destruct k as [|k]; cbn [seq combinations] in H.
    + destruct H as [<- | []]. repeat split; constructor.
    + apply in_app_or in H. destruct H as [H | H].
      * apply in_map_iff in H. destruct H as (c' & <- & H).
        apply IH in H. destruct H as (Hl & Hs & Hr).
        split; [cbn; lia|]. split.
        -- constructor; [exact Hs|].
           eapply Forall_impl; [|exact Hr]. cbn. intros; lia.
        -- constructor; [lia|].
           eapply Forall_impl; [|exact Hr]. cbn. intros; lia.
      * apply IH in H. destruct H as (Hl & Hs & Hr).
        split; [exact Hl|]. split; [exact Hs|].
        eapply Forall_impl; [|exact Hr]. cbn. intros; lia.
Qed.

Lemma combinations_complete (n a : nat) (c : list nat) :
  StronglySorted lt c -> Forall (fun i => (a <= i < a + n)%nat) c ->
  In c (combinations (seq a n) (length c)).
Proof.
  revert a c. induction n as [|n IH]; intros a c Hs Hr.
  - destruct c as [|x c]; [now left|].
    inversion Hr; subst. lia.
  - destruct c as [|x c]; [now left|].
    cbn [length seq combinations]. apply in_or_app.
    inversion Hs as [|? ? Hs' Hx]; subst. inversion Hr as [|? ? Hxr Hr']; subst.
    destruct (Nat.eq_dec x a) as [-> | Hne].
    + left. apply in_map. apply IH; [exact Hs'|].
      apply Forall_forall. intros i Hi. rewrite Forall_forall in Hx, Hr'.
      specialize (Hx i Hi). specialize (Hr' i Hi). cbn in Hr'. lia.
    + right. apply (IH (S a) (x :: c)); [exact Hs|].
      constructor; [lia|].
      apply Forall_forall. intros i Hi. rewrite Forall_forall in Hx, Hr'.
      specialize (Hx i Hi). specialize (Hr' i Hi). cbn in Hr'. lia.
Qed.

(** The index lists of [make_quadlist] are the increasing quadruples below
    [n]. *)
Lemma combinations_four (n : nat) (idx : list nat) :
  In idx (combinations (seq 0 n) 4) <->
  exists i0 i1 i2 i3, idx = [i0; i1; i2; i3] /\ (i0 < i1 < i2)%nat /\ (i2 < i3 < n)%nat.
Proof.
  split.
  - intro H. apply combinations_sorted in H. destruct H as (Hl & Hs & Hr).
    destruct idx as [|i0 [|i1 [|i2 [|i3 [|? ?]]]]]; try discriminate Hl.
    exists i0, i1, i2, i3. split; [reflexivity|].
    inversion Hs as [|? ? Hs1 H0]; subst. inversion Hs1 as [|? ? Hs2 H1]; subst.
    inversion Hs2 as [|? ? _ H2]; subst.
    inversion H0 as [|? ? H01 _]; subst. inversion H1 as [|? ? H12 _]; subst.
    inversion H2 as [|? ? H23 _]; subst.
    inversion Hr as [|? ? _ Hr1]; subst. inversion Hr1 as [|? ? _ Hr2]; subst.
    inversion Hr2 as [|? ? _ Hr3]; subst. inversion Hr3 as [|? ? H3 _]; subst.
    lia.
  - intros (i0 & i1 & i2 & i3 & -> & H1 & H2).
    apply (combinations_complete n 0 [i0; i1; i2; i3]).
    + repeat constructor; lia.
    + repeat constructor; lia.
Qed.

Lemma quad_defined (q0 q1 q2 q3 : point) :
  exists r, quad [q0; q1; q2; q3] (pdist [q0; q1; q2; q3]) = Ok r.
Proof.
  unfold quad, longest_first.
  destruct (argmax (pdist [q0; q1; q2; q3])) as [k|e] eqn:Ek; [|discriminate].
  apply argmax_bound in Ek. cbn in Ek. cbn [bind].
  do 6 (destruct k as [|k]; [cbn; eexists; reflexivity|]). lia.
Qed.

Lemma fold_left_dist_min (l : list dist) (d : dist) :
  (In (fold_left dist_min l d) (d :: l)) /\
  forall e, In e (d :: l) -> sq (fold_left dist_min l d) <= sq e.
Proof.
  revert d. induction l as [|x l IH]; intro d; cbn [fold_left].
  - split; [now left|]. intros e [<- | []]. apply Qle_refl.
  - destruct (IH (dist_min d x)) as [Hin Hle]. split.
    + destruct Hin as [Hin | Hin]; [|now right; right].
      rewrite <- Hin. unfold dist_min. destruct (dist_leb d x); [now left | right; now left].
    + intros e He.
      assert (Hm : sq (dist_min d x) <= sq d /\ sq (dist_min d x) <= sq x).
      { unfold dist_min, dist_leb. destruct (Qle_bool (sq d) (sq x)) eqn:E.
        - apply Qle_bool_iff in E. split; [apply Qle_refl | exact E].
        - apply Qle_bool_false_iff in E. split; [lra | apply Qle_refl]. }
      destruct He as [<- | [<- | He]].
      * eapply Qle_trans; [apply Hle; now left | apply Hm].
      * eapply Qle_trans; [apply Hle; now left | apply Hm].
      * apply Hle. now right.
Qed.

(** [np.min(dists) > minquadsep] says that every pair is farther apart than
    [minquadsep]. *)
Lemma np_min_separated (combo : list point) (sep : Q) (shortest : dist) :
  np_min (pdist combo) = Ok shortest ->
  (dist_gt_Q shortest sep = true <-> separated combo sep).
Proof.
  unfold np_min, separated. destruct (pdist combo) as [|d l]; [discriminate|].
  intro H. injection H as <-.
  destruct (fold_left_dist_min l d) as [Hin Hle].
  rewrite dist_gt_Q_iff. split.
  - intros [H | H] e He; [now left|]. right.
    eapply Qlt_le_trans; [exact H | apply Hle, He].
  - intro H. apply H. exact Hin.
Qed.

(** The quads built from a list of index quadruples in range. *)
Lemma quads_of_spec (coo : list point) (sep : Q) (quad_idxs : list (list nat)) :
  Forall (fun idx => length idx = 4%nat /\ Forall (fun i => (i < length coo)%nat) idx)
         quad_idxs ->
  exists quadlist,
    quads_of coo sep quad_idxs = Ok quadlist /\
    forall q, In q quadlist <->
              exists idx combo,
                In idx quad_idxs /\
                combo = map (fun i => nth i coo (0, 0)) idx /\
                separated combo sep /\
                quad combo (pdist combo) = Ok q.
Proof.
  induction 1 as [|idx rest [Hlen Hrange] _ IH].
  - exists []. split; [reflexivity|]. intro q. split; [contradiction|].
    intros (idx & combo & [] & _).
  - destruct IH as (ql & Hql & Hspec).
    set (combo := map (fun i => nth i coo (0, 0)) idx).
    assert (Hcombo : exists q0 q1 q2 q3, combo = [q0; q1; q2; q3]).
    { unfold combo.
      destruct idx as [|i0 [|i1 [|i2 [|i3 [|? ?]]]]]; try discriminate Hlen.
      cbn. eauto 6. }
    destruct Hcombo as (q0 & q1 & q2 & q3 & Ec).
    destruct (np_min (pdist combo)) as [shortest|e] eqn:Emin;
      [|rewrite Ec in Emin; discriminate].
    pose proof (np_min_separated combo sep shortest Emin) as Hsep.
    destruct (quad_defined q0 q1 q2 q3) as (r & Hr). rewrite <- Ec in Hr.
    assert (E : quads_of coo sep (idx :: rest)
                = Ok (if dist_gt_Q shortest sep then r :: ql else ql)).
    { cbn [quads_of]. rewrite (@take_rows_in_range point (0, 0) coo idx Hrange). cbn [bind].
      fold combo. rewrite Emin. cbn [bind].
      destruct (dist_gt_Q shortest sep).
      - rewrite Hr. cbn [bind]. rewrite Hql. reflexivity.
      - exact Hql. }
    eexists. split; [exact E|]. intro q.
    destruct (dist_gt_Q shortest sep) eqn:Egt; split.
    + intros [<- | Hq].
      * exists idx, combo. split; [now left|]. split; [reflexivity|].
        split; [apply Hsep; reflexivity | exact Hr].
      * apply Hspec in Hq. destruct Hq as (idx' & combo' & Hin & Hrest).
        exists idx', combo'. split; [now right | exact Hrest].
    + intros (idx' & combo' & [<- | Hin] & Hc & Hs & Hq).
      * left. fold combo in Hc. subst combo'. congruence.
      * right. apply Hspec. exists idx', combo'. auto.
    + intro Hq. apply Hspec in Hq. destruct Hq as (idx' & combo' & Hin & Hrest).
      exists idx', combo'. split; [now right | exact Hrest].
    + intros (idx' & combo' & [<- | Hin] & Hc & Hs & Hq).
      * fold combo in Hc. subst combo'. apply Hsep in Hs. discriminate.
      * apply Hspec. exists idx', combo'. auto.
Qed.

(** The number of detections [make_quadlist] makes quads from. *)
Lemma restricted_nquaddets (len : nat) (nquaddets : Z) :
  Z.to_nat (if (Z.of_nat len <? nquaddets)%Z then Z.of_nat len else nquaddets)
  = Nat.min (Z.to_nat nquaddets) len.
Proof.
  destruct (Z.of_nat len <? nquaddets)%Z eqn:E.
  - apply Z.ltb_lt in E. lia.
  - apply Z.ltb_ge in E. lia.
Qed.

Lemma make_quadlist_spec (self : Spalipy) (image : image_name)
    (nquaddets_arg : option Z) (minquadsep_arg : option Q) :
  image <> other_name ->
  let n := Nat.min (Z.to_nat (default_of nquaddets_arg (nquaddets self)))
                   (length (coo_of image self)) in
  let sep := default_of minquadsep_arg (minquadsep self) in
  let out := make_quadlist self image nquaddets_arg minquadsep_arg in
  fst out = Ok tt /\
  forall q, In q (quadlist_of image (snd out)) <->
            exists i0 i1 i2 i3 combo,
              combo_of (coo_of image self) n i0 i1 i2 i3 combo /\
              separated combo sep /\
              quad combo (pdist combo) = Ok q.
Proof.
  intros Himage n sep.
  assert (Hgen : forall coo (self' : Spalipy) (store : list quad_t -> Spalipy -> Spalipy)
                        (read : Spalipy -> list quad_t),
             (forall ql s, read (store ql s) = ql) ->
             let n := Nat.min (Z.to_nat (default_of nquaddets_arg (nquaddets self)))
                              (length coo) in
             let out :=
               match quads_of coo sep (combinations (seq 0 n) 4) with
               | Ok quadlist => (Ok tt, store quadlist self')
               | Raise e => (Raise e, self')
               end in
             fst out = Ok tt /\
             forall q, In q (read (snd out)) <->
                       exists i0 i1 i2 i3 combo,
                         combo_of coo n i0 i1 i2 i3 combo /\
                         separated combo sep /\
                         quad combo (pdist combo) = Ok q).
  { intros coo self' store read Hread n0.
    destruct (quads_of_spec coo sep (combinations (seq 0 n0) 4)) as (ql & Hql & Hspec).
    { apply Forall_forall. intros idx Hidx. apply combinations_four in Hidx.
      destruct Hidx as (i0 & i1 & i2 & i3 & -> & H1 & H2).
      split; [reflexivity|]. repeat constructor; unfold n0 in *; lia. }
    cbv zeta. rewrite Hql. cbn [fst snd]. split; [reflexivity|].
    intro q. rewrite Hread, Hspec. split.
    - intros (idx & combo & Hidx & Hc & Hs & Hq).
      apply combinations_four in Hidx.
      destruct Hidx as (i0 & i1 & i2 & i3 & -> & H1 & H2).
      exists i0, i1, i2, i3, combo. split; [|auto].
      unfold combo_of. split; [lia|]. split; [lia|]. split; [unfold n0; lia | exact Hc].
    - intros (i0 & i1 & i2 & i3 & combo & (H1 & H2 & H3 & Hc) & Hs & Hq).
      exists [i0; i1; i2; i3], combo. split; [|auto].
      apply combinations_four. exists i0, i1, i2, i3. auto. }
  unfold make_quadlist.
  destruct image; [| |contradiction]; cbn [coo_of quadlist_of] in *; cbv zeta.
  - change (match nquaddets_arg with
            | Some n0 => n0
            | None => nquaddets self
            end) with (default_of nquaddets_arg (nquaddets self)).
    match goal with
    | |- context [minquadsep (if ?b then ?x else ?y)] =>
        replace (minquadsep (if b then x else y)) with (minquadsep self)
          by (destruct b; reflexivity)
    end.
    change (match minquadsep_arg with
            | Some s => s
            | None => minquadsep self
            end) with sep.
    rewrite restricted_nquaddets.
    apply (Hgen (source_coo self) _ set_source_quadlist source_quadlist).
    reflexivity.
  - change (match nquaddets_arg with
            | Some n0 => n0
            | None => nquaddets self
            end) with (default_of nquaddets_arg (nquaddets self)).
    match goal with
    | |- context [minquadsep (if ?b then ?x else ?y)] =>
        replace (minquadsep (if b then x else y)) with (minquadsep self)
          by (destruct b; reflexivity)
    end.
    change (match minquadsep_arg with
            | Some s => s
            | None => minquadsep self
            end) with sep.
    rewrite restricted_nquaddets.
    apply (Hgen (template_coo self) _ set_template_quadlist template_quadlist).
    reflexivity.
Qed.




(** With fewer than four detections no quad is made. *)
Lemma make_quadlist_few (self : Spalipy) (image : image_name)
    (nquaddets_arg : option Z) (minquadsep_arg : option Q) :
  image <> other_name ->
  (length (coo_of image self) < 4)%nat ->
  fst (make_quadlist self image nquaddets_arg minquadsep_arg) = Ok tt /\
  quadlist_of image (snd (make_quadlist self image nquaddets_arg minquadsep_arg)) = [].
Proof.
  intros Himage Hlen.
  destruct (make_quadlist_spec self image nquaddets_arg minquadsep_arg Himage)
    as [Hok Hspec].
  split; [exact Hok|].
  destruct (quadlist_of image _) as [|q ql]; [reflexivity|].
  exfalso. destruct (proj1 (Hspec q) (or_introl eq_refl))
    as (i0 & i1 & i2 & i3 & combo & (H1 & H2 & _) & _).
  lia.
Qed.

(** [make_quadlist] writes the quad list of its image and prints; the
    catalogues, the other quad list and the results stay as they are. *)
Lemma make_quadlist_other (self : Spalipy) (image : image_name)
    (nquaddets_arg : option Z) (minquadsep_arg : option Q) :
  let self' := snd (make_quadlist self image nquaddets_arg minquadsep_arg) in
  source_cat self' = source_cat self /\ template_cat self' = template_cat self /\
  (image <> source -> source_quadlist self' = source_quadlist self) /\
  (image <> template -> template_quadlist self' = template_quadlist self).
Proof.
  unfold make_quadlist.
  destruct image; cbn zeta;
    repeat match goal with
           | |- context [if ?b then _ else _] => destruct b
           | |- context [match quads_of ?a ?b ?c with _ => _ end] =>
               destruct (quads_of a b c)
           end; cbn; repeat split; congruence.
Qed.

Lemma find_affine_transform_no_quads (self : Spalipy)
    (maxmatchdist_arg : option Q) (minnmatch_arg : option Z)
    (maxcands : Z) (minquaddist : Q) :
  source_quadlist self = [] \/ template_quadlist self = [] ->
  find_affine_transform self maxmatchdist_arg minnmatch_arg maxcands minquaddist
  = (Raise ValueError, self).
Proof.
  intro H. unfold find_affine_transform, find_affine_transform_from.
  destruct H as [H | H]; rewrite H; cbn [map cdist_hash].
  - destruct (map snd (template_quadlist self)); reflexivity.
  - reflexivity.
Qed.

(** [find_affine_transform] on an instance with an empty quad list -- one
    on which [make_quadlist] was not run, or found no quad -- raises the
    [ValueError] of [cdist] and changes nothing. *)
Theorem find_affine_transform_empty_quadlist (self : Spalipy)
    (maxmatchdist_arg : option Q) (minnmatch_arg : option Z)
    (maxcands : Z) (minquaddist : Q) :
  source_quadlist self = [] \/ template_quadlist self = [] ->
  find_affine_transform self maxmatchdist_arg minnmatch_arg maxcands minquaddist
  = (Raise ValueError, self).
Proof. apply find_affine_transform_no_quads. Qed.

Lemma find_affine_transform_empty_quadlist_witness :
  find_affine_transform (tiny_self tiny_source tiny_template 3 0) None None 10 (5 # 1000)
  = (Raise ValueError, tiny_self tiny_source tiny_template 3 0).
Proof.
  apply (find_affine_transform_empty_quadlist (tiny_self tiny_source tiny_template 3 0)).
  left. reflexivity.
Defined.

Section MainProperties.

Variable SmoothBivariateSpline :
  list Q -> list Q -> list Q -> Z -> Z -> result surface.
Variable map_coordinates : image -> list (list point) -> Z -> image.
Variable ndimage_affine_transform :
  image -> (Q * Q) * (Q * Q) -> Q * Q -> Z -> nat * nat -> image.

Local Abbreviation main_ :=
  (main SmoothBivariateSpline map_coordinates ndimage_affine_transform).

Lemma main_few_detections_raises (self : Spalipy) (quiet_arg : option bool) :
  (length (source_cat self) < 4)%nat \/ (length (template_cat self) < 4)%nat ->
  fst (main_ self quiet_arg) = Raise ValueError /\
  affine_transform (snd (main_ self quiet_arg)) = affine_transform self /\
  source_data_transform (snd (main_ self quiet_arg)) = source_data_transform self.
Proof.
  intro Hfew. rewrite main_unfold. cbv zeta. unfold seq_.
  pose proof (make_quadlist_frame self source None None) as (A1 & D1 & _ & _).
  pose proof (make_quadlist_other self source None None) as (C1 & T1 & _ & _).
  pose proof (make_quadlist_spec self source None None) as [O1 _]; [discriminate|].
  destruct (make_quadlist self source None None) as [r1 s1] eqn:E1.
  cbn [fst snd] in *. subst r1.
  pose proof (make_quadlist_frame s1 template None None) as (A2 & D2 & _ & _).
  pose proof (make_quadlist_other s1 template None None) as (C2 & T2 & Q2 & _).
  pose proof (make_quadlist_spec s1 template None None) as [O2 _]; [discriminate|].
  assert (Hempty : source_quadlist (snd (make_quadlist s1 template None None)) = [] \/
                   template_quadlist (snd (make_quadlist s1 template None None)) = []).
  { destruct Hfew as [Hs | Ht].
    - left. rewrite Q2 by discriminate.
      destruct (make_quadlist_few self source None None) as [_ K];
        [discriminate | |].
      + cbn [coo_of]. unfold source_coo. now rewrite get_det_coords_length.
      + rewrite E1 in K. exact K.
    - right.
      destruct (make_quadlist_few s1 template None None) as [_ K];
        [discriminate | |].
      + cbn [coo_of]. unfold template_coo. rewrite get_det_coords_length. congruence.
      + exact K. }
  destruct (make_quadlist s1 template None None) as [r2 s2].
  cbn [fst snd] in *. subst r2.
  rewrite (find_affine_transform_no_quads s2 None None 10 (5 # 1000) Hempty).
  cbn [fst snd]. repeat split; congruence.
Qed.

(** With fewer than four detections in a catalogue [main] builds no quad
    for it and ends in the [ValueError] that [cdist] raises on the empty
    hash array; no transform is found and no image is stored. *)
Theorem main_few_detections (self : Spalipy) (quiet_arg : option bool) :
  (length (source_cat self) < 4)%nat \/ (length (template_cat self) < 4)%nat ->
  fst (main_ self quiet_arg) = Raise ValueError /\
  affine_transform (snd (main_ self quiet_arg)) = affine_transform self /\
  source_data_transform (snd (main_ self quiet_arg)) = source_data_transform self.
Proof. apply main_few_detections_raises. Qed.

End MainProperties.

Lemma main_few_detections_witness :
  let self := tiny_self (firstn 3 tiny_source) tiny_template 2 0 in
  let out := main zero_spline nearest_map_coordinates nearest_affine_transform self None in
  fst out = Raise ValueError /\
  affine_transform (snd out) = affine_transform self /\
  source_data_transform (snd out) = source_data_transform self.
Proof.
  apply (main_few_detections zero_spline nearest_map_coordinates
           nearest_affine_transform
           (tiny_self (firstn 3 tiny_source) tiny_template 2 0) None).
  left. cbn. lia.
Defined.

(** ** How failures are reported *)

Section FailureReporting.

Variable SmoothBivariateSpline :
  list Q -> list Q -> list Q -> Z -> Z -> result surface.
Variable map_coordinates : image -> list (list point) -> Z -> image.
Variable ndimage_affine_transform :
  image -> (Q * Q) * (Q * Q) -> Q * Q -> Z -> nat * nat -> image.

Local Abbreviation find_spline_transform_ :=
  (find_spline_transform SmoothBivariateSpline).
Local Abbreviation align_ := (align map_coordinates ndimage_affine_transform).
Local Abbreviation main_ :=
  (main SmoothBivariateSpline map_coordinates ndimage_affine_transform).

Lemma make_quadlist_returns (self : Spalipy) (image : image_name) :
  image <> other_name ->
  make_quadlist self image None None
  = (Ok tt, snd (make_quadlist self image None None)).
Proof.
  intro H. destruct (make_quadlist_spec self image None None H) as [O _].
  destruct (make_quadlist self image None None) as [r s]. cbn [fst snd] in *.
  now subst r.
Qed.

(** C9, as the code has it.  [s2] is the instance after both quad lists
    are made, [searched] what the call of [find_affine_transform] in [main]
    gives.
    (1) [find_affine_transform] ends in an exception with the instance as
    it was, or prints that no quad is below [minquaddist] and returns, or
    prints the count of a trial that matched too few detections and
    returns, or stores a validated transform.
    (2) On an instance that holds no transform, after either message
    [main] prints that no transform was found and returns normally,
    without a transform and without a resampled image.
    (3) On an instance that holds no transform, [main] stores a resampled
    image only with a transform that this search stored, validated.
    (4) A fit that raises leaves the spline flag as it was and, for
    [dfitpackError], has printed a message; a run of [main] with
    [spline_order > 0] that returns normally with a transform has fitted
    the surfaces; and when the fit routine fails, [main] stores no image
    and returns normally only without a transform.
    (5) A resolved [ndets] below [minnmatch] raises [ValueError] in the
    constructor.
    (6) With fewer than four detections in a catalogue [main] raises the
    [ValueError] of [cdist] and stores no image.
    (7) [align] without a transform prints and returns. *)
Theorem main_failure_reporting (self : Spalipy) (quiet_arg : option bool) :
  let s1 := snd (make_quadlist self source None None) in
  let s2 := snd (make_quadlist s1 template None None) in
  let searched := find_affine_transform s2 None None 10 (5 # 1000) in
  let out := main_ self quiet_arg in
  (forall (s : Spalipy) (maxmatchdist_arg : option Q) (minnmatch_arg : option Z)
          (maxcands : Z) (minquaddist : Q),
      let m := default_of maxmatchdist_arg (maxmatchdist s) in
      let minn := default_of minnmatch_arg (minnmatch s) in
      let r := find_affine_transform s maxmatchdist_arg minnmatch_arg maxcands
                                     minquaddist in
      (exists e, r = (Raise e, s)) \/
      (r = (Ok tt, print (MsgNoMatchingQuads minquaddist) s) /\
       exists dists,
         cdist_hash (map snd (template_quadlist s)) (map snd (source_quadlist s))
         = Ok dists /\
         Forall (fun d => below d minquaddist = false)
                (hash_min (length (source_quadlist s)) dists)) \/
      (exists n, r = (Ok tt, print (MsgTooFewMatches n minn) s) /\
                 reported_count s m minn n) \/
      (exists n sm tm transform,
          r = (Ok tt, set_found n sm tm transform s) /\
          validated s m minn n sm tm transform)) /\
  (affine_transform self = None ->
   searched = (Ok tt, print (MsgNoMatchingQuads (5 # 1000)) s2) \/
   (exists n, searched = (Ok tt, print (MsgTooFewMatches n (minnmatch s2)) s2)) ->
   out = (Ok tt, print MsgNoInitialAffine (snd searched)) /\
   affine_transform (snd out) = None /\
   source_data_transform (snd out) = source_data_transform self) /\
  (affine_transform self = None ->
   source_data_transform (snd out) <> source_data_transform self ->
   exists n sm tm transform,
     searched = (Ok tt, set_found n sm tm transform s2) /\
     validated s2 (maxmatchdist s2) (minnmatch s2) n sm tm transform /\
     affine_transform (snd out) = Some transform) /\
  (forall (s : Spalipy) (spline_order_arg : option Z) (e : exn),
      fst (find_spline_transform_ s spline_order_arg) = Raise e ->
      spline_transform (snd (find_spline_transform_ s spline_order_arg))
      = spline_transform s /\
      (e = dfitpackError ->
       stdout (snd (find_spline_transform_ s spline_order_arg))
       = stdout s ++ [MsgSplineFailed])) /\
  (fst out = Ok tt -> (0 < spline_order self)%Z ->
   (exists t, affine_transform (snd out) = Some t) ->
   spline_transform (snd out) = true) /\
  ((forall x y z kx ky, exists e, SmoothBivariateSpline x y z kx ky = Raise e) ->
   (0 < spline_order self)%Z ->
   source_data_transform (snd out) = source_data_transform self /\
   (fst out = Ok tt -> affine_transform (snd out) = None)) /\
  (forall (Table_read : String.string -> result table)
          (fits_open : String.string -> result HDUList)
          (fits_getheader : String.string -> result (nat * nat))
          (source_arg template_arg : cat_arg) (source_fits : fits_arg)
          (shape_arg0 : shape_arg) (ndets : ndets_value) (nquaddets : Z)
          (minquadsep maxmatchdist : Q) (minnmatch : Z)
          (spline_order interp_order : Z) (quiet : bool)
          (sc tc : table) (h : HDUList) (sh : nat * nat) (n : Z),
      snd (load_cat Table_read source source_arg) = Ok sc ->
      snd (load_cat Table_read template template_arg) = Ok tc ->
      snd (load_fits fits_open source_fits) = Ok h ->
      snd (load_shape fits_getheader shape_arg0 h) = Ok sh ->
      snd (load_ndets ndets sc tc) = Ok n ->
      (n < minnmatch)%Z ->
      snd (construct Table_read fits_open fits_getheader source_arg template_arg
                     source_fits shape_arg0 ndets nquaddets minquadsep maxmatchdist
                     minnmatch spline_order interp_order quiet)
      = Raise ValueError) /\
  ((length (source_cat self) < 4)%nat \/ (length (template_cat self) < 4)%nat ->
   fst out = Raise ValueError /\
   source_data_transform (snd out) = source_data_transform self) /\
  (forall s : Spalipy,
      affine_transform s = None -> align_ s = (Ok tt, print MsgAffineNotDefined s)).
Proof.
  intros s1 s2 searched out.
  pose proof (make_quadlist_returns self source ltac:(discriminate)) as H1.
  pose proof (make_quadlist_returns s1 template ltac:(discriminate)) as H2.
  fold s1 in H1. fold s2 in H2.
  pose proof (main_after_search SmoothBivariateSpline map_coordinates
                ndimage_affine_transform self s1 s2 quiet_arg H1 H2) as Hmain.
  cbv zeta in Hmain. fold searched in Hmain. fold out in Hmain.
  pose proof (make_quadlist_frame self source None None) as (A1 & D1 & _ & U1).
  pose proof (make_quadlist_frame s1 template None None) as (A2 & D2 & _ & U2).
  cbv zeta in A1, D1, U1, A2, D2, U2. fold s1 in A1, D1, U1, A2, D2, U2.
  fold s2 in A2, D2, U2.
  pose proof (find_affine_transform_frame s2 None None 10 (5 # 1000)) as (D3 & _ & _).
  cbv zeta in D3. fold searched in D3.
  split; [|split; [|split; [|split; [|split; [|split; [|split; [|split]]]]]]].
  - intros s m_arg minn_arg maxcands minquaddist.
    apply find_affine_transform_cases.
  - intros Hnone Hmsg.
    assert (Hs : fst searched = Ok tt /\ affine_transform (snd searched) = None).
    { destruct Hmsg as [-> | (n & ->)]; cbn; split; congruence. }
    destruct Hs as [Hok Haff]. rewrite Hok, Haff in Hmain. rewrite Hmain.
    cbn [snd]. split; [reflexivity|]. split; [exact Haff|]. cbn. congruence.
  - intros Hnone Hchanged.
    pose proof (find_affine_transform_cases s2 None None 10 (5 # 1000)) as Hc.
    cbv zeta in Hc. fold searched in Hc. cbn [default_of] in Hc.
    destruct Hc
      as [(e & He) | [(Hq & _) | [(n & Hn & _) | (n & sm & tm & tr & Hf & Hv)]]].
    + exfalso. apply Hchanged. rewrite He in Hmain, D3. cbn [fst snd] in Hmain, D3.
      rewrite Hmain. cbn [snd]. congruence.
    + exfalso. apply Hchanged. rewrite Hq in Hmain, D3. cbn [fst snd] in Hmain, D3.
      replace (affine_transform (print (MsgNoMatchingQuads (5 # 1000)) s2))
        with (@None AffineTransform) in Hmain by (cbn; congruence).
      rewrite Hmain. cbn. cbn in D3. congruence.
    + exfalso. apply Hchanged. rewrite Hn in Hmain, D3. cbn [fst snd] in Hmain, D3.
      replace (affine_transform (print (MsgTooFewMatches n (minnmatch s2)) s2))
        with (@None AffineTransform) in Hmain by (cbn; congruence).
      rewrite Hmain. cbn. cbn in D3. congruence.
    + exists n, sm, tm, tr. split; [exact Hf|]. split; [exact Hv|].
      rewrite Hf in Hmain. cbn in Hmain. exact Hmain.
  - intros s arg e He.
    pose proof (find_spline_transform_result SmoothBivariateSpline s arg) as R.
    cbv zeta in R. rewrite He in R. exact R.
  - apply main_no_fallback.
  - apply main_failing_fit.
  - intros Table_read fits_open fits_getheader source_arg template_arg source_fits
           shape_arg0 ndets nquaddets minquadsep maxmatchdist minnmatch
           spline_order interp_order quiet sc tc h sh n Hs Ht Hf Hsh Hn Hlt.
    rewrite (construct_check Table_read fits_open fits_getheader source_arg
               template_arg source_fits shape_arg0 ndets nquaddets minquadsep
               maxmatchdist minnmatch spline_order interp_order quiet
               sc tc h sh n Hs Ht Hf Hsh Hn).
    apply Z.ltb_lt in Hlt. rewrite Hlt. reflexivity.
  - intro Hfew.
    destruct (main_few_detections_raises SmoothBivariateSpline map_coordinates
                ndimage_affine_transform self quiet_arg Hfew) as (R1 & _ & R3).
    split; assumption.
  - intros s Hs. unfold align. rewrite Hs. reflexivity.
Qed.

End FailureReporting.

(** With a transform left by an earlier call, a search that finds no
    matching quad is followed by a resampling with that transform. *)
Example main_stale_transform_example :
  outcome (main zero_spline nearest_map_coordinates nearest_affine_transform
                stale_self None)
  = (Ok tt, [MsgNoMatchingQuads (5 # 1000)], Some [[1; 2]; [3; 4]]).
Proof. vm_compute. reflexivity. Qed.




(** ** trim_cat: what is kept *)

Lemma trim_cat_with_unfold (ndets : Z) (maxmatchdist : Q) (cat : table)
    (minfwhm : Q) (maxflag : Z) (minsep_arg : option Q) :
  trim_cat_with ndets maxmatchdist cat minfwhm maxflag minsep_arg
  = slice_to ndets
      (remove_close_pairs
         (rev (sort_by flux_leb (filter (valid_detection minfwhm maxflag) cat)))
         (default_of minsep_arg (2 * maxmatchdist))).
Proof.
  unfold trim_cat_with.
  change (match minsep_arg with
          | Some s => s
          | None => 2 * maxmatchdist
          end) with (default_of minsep_arg (2 * maxmatchdist)).
  change (filter (fun r => Qle_bool minfwhm (FWHM_IMAGE r) && (FLAGS r <=? maxflag)%Z) cat)
    with (filter (valid_detection minfwhm maxflag) cat).
  f_equal. rewrite <- remove_rows_close_pairs.
  destruct (flat_map _ (query_pairs _ _)) eqn:E.
  - cbn [np_unique fold_right]. symmetry. apply remove_rows_nil.
  - reflexivity.
Qed.

Lemma slice_to_firstn {A : Type} (n : Z) (l : list A) :
  exists k, slice_to n l = firstn k l /\ ((0 <= n)%Z -> k = Z.to_nat n).
Proof.
  unfold slice_to. destruct (0 <=? n)%Z eqn:E.
  - eexists. split; [reflexivity | reflexivity].
  - eexists. split; [reflexivity|]. apply Z.leb_gt in E. lia.
Qed.

Lemma In_firstn {A : Type} (k : nat) (l : list A) (x : A) :
  In x (firstn k l) -> In x l.
Proof.
  revert l. induction k as [|k IH]; intros [|a l] H; cbn in *; try contradiction.
  destruct H as [H | H]; [now left | right; apply IH, H].
Qed.

Lemma StronglySorted_firstn {A : Type} (R : A -> A -> Prop) (k : nat) (l : list A) :
  StronglySorted R l -> StronglySorted R (firstn k l).
Proof.
  intro H. revert k. induction H as [|a l Hs IH Ha]; intro k.
  - rewrite firstn_nil. constructor.
  - destruct k as [|k]; cbn [firstn]; [constructor|].
    constructor; [apply IH|].
    apply Forall_forall. intros x Hx. rewrite Forall_forall in Ha.
    apply Ha. eapply In_firstn. exact Hx.
Qed.

Lemma filter_combine_sorted {A : Type} (R : A -> A -> Prop) (p : nat * A -> bool)
    (l : list A) (k : nat) :
  StronglySorted R l ->
  StronglySorted R (map snd (filter p (combine (seq k (length l)) l))).
Proof.
  intro H. revert k. induction H as [|a l Hs IH Ha]; intro k; cbn; [constructor|].
  destruct (p (k, a)); cbn [map snd]; [|apply IH].
  constructor; [apply IH|].
  apply Forall_forall. intros x Hx. rewrite Forall_forall in Ha. apply Ha.
  apply in_map_iff in Hx. destruct Hx as ([j y] & <- & Hy).
  apply filter_In in Hy. destruct Hy as [Hy _].
  apply in_combine_r in Hy. exact Hy.
Qed.

Lemma remove_close_pairs_In (cat : table) (minsep : Q) (r : detection) :
  In r (remove_close_pairs cat minsep) -> In r cat.
Proof.
  unfold remove_close_pairs. intro H.
  apply in_map_iff in H. destruct H as ([i r'] & <- & H).
  apply filter_In in H. destruct H as [H _].
  unfold enumerate in H. apply in_combine_r in H. exact H.
Qed.

Lemma remove_close_pairs_length (cat : table) (minsep : Q) :
  (length (remove_close_pairs cat minsep) <= length cat)%nat.
Proof.
  unfold remove_close_pairs. rewrite length_map.
  eapply Nat.le_trans; [apply filter_length_le|].
  unfold enumerate. rewrite length_combine, length_seq. lia.
Qed.

(** [trim_cat] returns rows of the catalogue it was given, all of them valid
    detections, in order of descending flux; it never returns more rows than
    it was given, nor more than [ndets] when [ndets] is not negative. *)
Theorem trim_cat_rows (self : Spalipy) (cat : table) (minfwhm : Q) (maxflag : Z)
    (minsep_arg : option Q) :
  let out := trim_cat self cat minfwhm maxflag minsep_arg in
  (forall r, In r out ->
             In r cat /\ minfwhm <= FWHM_IMAGE r /\ (FLAGS r <= maxflag)%Z) /\
  (length out <= length cat)%nat /\
  ((0 <= ndets self)%Z -> (Z.of_nat (length out) <= ndets self)%Z) /\
  StronglySorted (fun r s => FLUX_BEST s <= FLUX_BEST r) out.
Proof.
  cbv zeta. unfold trim_cat. rewrite trim_cat_with_unfold.
  set (valid := filter (valid_detection minfwhm maxflag) cat).
  set (sorted := rev (sort_by flux_leb valid)).
  set (minsep := default_of minsep_arg (2 * maxmatchdist self)).
  destruct (slice_to_firstn (ndets self) (remove_close_pairs sorted minsep))
    as (k & -> & Hk).
  assert (Hperm : Permutation sorted valid).
  { unfold sorted. eapply perm_trans; [apply Permutation_sym, Permutation_rev|].
    apply sort_by_perm. }
  split; [|split; [|split]].
  - intros r Hr. apply In_firstn, remove_close_pairs_In in Hr.
    apply (Permutation_in _ Hperm) in Hr. unfold valid in Hr.
    apply filter_In in Hr. destruct Hr as [Hin Hv]. split; [exact Hin|].
    unfold valid_detection in Hv. apply andb_true_iff in Hv. destruct Hv as [H1 H2].
    apply Qle_bool_iff in H1. apply Z.leb_le in H2. auto.
  - rewrite length_firstn.
    pose proof (remove_close_pairs_length sorted minsep) as H1.
    pose proof (Permutation_length Hperm) as H2.
    pose proof (filter_length_le (valid_detection minfwhm maxflag) cat) as H3.
    fold valid in H3. lia.
  - intro Hn. rewrite (Hk Hn), length_firstn. lia.
  - apply StronglySorted_firstn. unfold remove_close_pairs, enumerate.
    apply filter_combine_sorted. unfold sorted.
    apply (StronglySorted_rev (fun r s => FLUX_BEST r <= FLUX_BEST s)).
    eapply StronglySorted_weaken.
    + intros r s H. apply Qle_bool_iff. exact H.
    + apply (sort_by_sorted flux_leb flux_leb_total flux_leb_trans).
Qed.

(** Rows with distinct keys keep distinct keys when some are filtered out. *)
Lemma filter_keeps_distinct {K R : Type} (key : R -> K) (keep : R -> bool)
    (rows : list R) (Hkeys : NoDup (map key rows)) :
  NoDup (map key (filter keep rows)).
Proof.
  induction rows as [|r rows IH]; cbn in *; [constructor|].
  inversion Hkeys as [|? ? Hnot Hnd]; subst.
  destruct (keep r); cbn; [|apply IH, Hnd].
  constructor; [|apply IH, Hnd].
  intro Hin. apply Hnot. apply in_map_iff in Hin. destruct Hin as (x & Hx & Hin).
  apply filter_In in Hin. apply in_map_iff. exists x. tauto.
Qed.

Lemma map_fst_combine_seq {A : Type} (l : list A) (k : nat) :
  map fst (combine (seq k (length l)) l) = seq k (length l).
Proof.
  revert k. induction l as [|a l IH]; intro k; cbn; [reflexivity|].
  now rewrite IH.
Qed.

(** Two rows that [trim_cat] returns at different positions are not within
    [minsep] of each other. *)
Theorem trim_cat_separated (self : Spalipy) (cat : table) (minfwhm : Q) (maxflag : Z)
    (minsep_arg : option Q) (d : detection) (i j : nat) :
  let out := trim_cat self cat minfwhm maxflag minsep_arg in
  let minsep := default_of minsep_arg (2 * maxmatchdist self) in
  (i < length out)%nat -> (j < length out)%nat -> i <> j ->
  dist_le_Q (euclidean (det_coords (nth i out d)) (det_coords (nth j out d))) minsep
  = false.
Proof.
  cbv zeta. unfold trim_cat. rewrite trim_cat_with_unfold.
  set (sorted := rev (sort_by flux_leb (filter (valid_detection minfwhm maxflag) cat))).
  set (minsep := default_of minsep_arg (2 * maxmatchdist self)).
  destruct (slice_to_firstn (ndets self) (remove_close_pairs sorted minsep))
    as (k & -> & _).
  intros Hi Hj Hne.
  rewrite length_firstn in Hi, Hj.
  rewrite !nth_firstn.
  replace (i <? k)%nat with true by (symmetry; apply Nat.ltb_lt; lia).
  replace (j <? k)%nat with true by (symmetry; apply Nat.ltb_lt; lia).
  unfold remove_close_pairs in *. rewrite length_map in Hi, Hj.
  set (kept := filter (isolated sorted minsep) (enumerate sorted)) in *.
  assert (Hnd : NoDup (map fst kept)).
  { unfold kept. apply filter_keeps_distinct. unfold enumerate.
    rewrite map_fst_combine_seq. apply seq_NoDup. }
  rewrite !(map_nth snd kept (0%nat, d)).
  assert (Hin_i : In (nth i kept (0%nat, d)) kept) by (apply nth_In; lia).
  assert (Hin_j : In (nth j kept (0%nat, d)) kept) by (apply nth_In; lia).
  apply filter_In in Hin_i. destruct Hin_i as [_ Hiso].
  apply filter_In in Hin_j. destruct Hin_j as [Hj_in _].
  destruct (dist_le_Q _ minsep) eqn:E; [|reflexivity]. exfalso.
  apply dist_le_Q_iff in E.
  apply (proj1 (isolated_iff sorted minsep _) Hiso _ Hj_in); [|exact (proj2 E)].
  intro K.
  assert (Hfi : nth i (map fst kept) 0%nat = fst (nth i kept (0%nat, d)))
    by (apply (map_nth fst kept (0%nat, d))).
  assert (Hfj : nth j (map fst kept) 0%nat = fst (nth j kept (0%nat, d)))
    by (apply (map_nth fst kept (0%nat, d))).
  apply Hne. symmetry.
  apply (proj1 (NoDup_nth (map fst kept) 0%nat) Hnd); rewrite ?length_map; lia.
Qed.

Lemma trim_cat_separated_witness :
  let out := trim_cat (example_self 0)
               [mkDet 5 5 3 3 0; mkDet 50 50 9 1 0; mkDet 20 5 4 3 0; mkDet 90 90 8 3 9;
                mkDet 40 40 7 3 0; mkDet 41 41 6 3 0; mkDet 80 5 5 3 0] 2 7 None in
  dist_le_Q (euclidean (det_coords (nth 0 out (mkDet 0 0 0 0 0)))
                       (det_coords (nth 2 out (mkDet 0 0 0 0 0))))
            (default_of None (2 * maxmatchdist (example_self 0)))
  = false.
Proof.
  apply (trim_cat_separated (example_self 0)
           [mkDet 5 5 3 3 0; mkDet 50 50 9 1 0; mkDet 20 5 4 3 0; mkDet 90 90 8 3 9;
            mkDet 40 40 7 3 0; mkDet 41 41 6 3 0; mkDet 80 5 5 3 0] 2 7 None
           (mkDet 0 0 0 0 0) 0 2).
  - vm_compute. lia.
  - vm_compute. lia.
  - discriminate.
Defined.



(** ** match_dets on an exact transform *)

Lemma Forall2_nth_l {A B : Type} (R : A -> B -> Prop) (l : list A) (l' : list B)
    (a : A) (db : B) :
  Forall2 R l l' -> In a l ->
  exists i, (i < length l')%nat /\ R a (nth i l' db).
Proof.
  induction 1 as [|x y l l' Hxy _ IH]; intro Hin; [contradiction|].
  destruct Hin as [<- | Hin].
  - exists 0%nat. cbn. split; [lia | exact Hxy].
  - destruct (IH Hin) as (i & Hi & HR). exists (S i). cbn. split; [lia | exact HR].
Qed.

Lemma count_at_most_one {A : Type} (f : A -> bool) (l : list A) (i : nat) (d : A) :
  (forall j, (j < length l)%nat -> j <> i -> f (nth j l d) = false) ->
  (length (filter f l) <= 1)%nat.
Proof.
  revert i. induction l as [|a l IH]; intros i H; cbn [filter]; [cbn; lia|].
  destruct i as [|i].
  - assert (Hrest : length (filter f l) = 0%nat).
    { apply count_none. apply Forall_forall. intros x Hx.
      apply In_nth with (d := d) in Hx. destruct Hx as (j & Hj & <-).
      apply (H (S j)); cbn; lia. }
    destruct (f a); cbn [length]; lia.
  - assert (Ha : f a = false) by (apply (H 0%nat); cbn; lia).
    rewrite Ha. apply (IH i). intros j Hj Hne. apply (H (S j)); cbn; lia.
Qed.

Lemma euclidean_compat (p p' q : point) :
  point_eq p p' -> sq (euclidean p q) == sq (euclidean p' q).
Proof.
  intros [Hx Hy]. unfold euclidean. cbn [sq]. rewrite Hx, Hy. reflexivity.
Qed.

Lemma euclidean_zero (p q : point) :
  sq (euclidean p q) <= 0 -> point_eq p q.
Proof.
  intro H. unfold euclidean in H. cbn [sq] in H. unfold point_eq.
  set (dx := fst p - fst q) in *. set (dy := snd p - snd q) in *.
  assert (Hx : dx == 0) by nra. assert (Hy : dy == 0) by nra.
  unfold dx in Hx. unfold dy in Hy. split; lra.
Qed.

Lemma euclidean_self (p q : point) : point_eq p q -> sq (euclidean p q) == 0.
Proof.
  intros [Hx Hy]. unfold euclidean. cbn [sq]. rewrite Hx, Hy. ring.
Qed.

(** A row whose image is a template detection, all others being at least
    [2 * m] away from that one, passes the test of [match_dets] and is
    paired with a template detection at its image. *)
Lemma row_exact (self : Spalipy) (t : AffineTransform) (m : Q) (r d : detection)
    (i : nat) :
  0 < m ->
  (2 <= length (template_cat self))%nat ->
  (i < length (template_cat self))%nat ->
  point_eq (det_coords (nth i (template_cat self) d))
           (apply_transform_xy t (det_coords r)) ->
  spaced (template_cat self) (2 * m) ->
  row_passed self t m r = true /\
  point_eq (det_coords (nth (row_nearest self t r) (template_cat self) d))
           (apply_transform_xy t (det_coords r)).
Proof.
  intros Hm Hlen Hi Himage Hspaced.
  set (p := apply_transform_xy t (det_coords r)) in *.
  set (u := nth i (template_cat self) d) in *.
  assert (Hzero : sq (euclidean p (det_coords u)) == 0).
  { apply euclidean_self. destruct Himage. split; symmetry; assumption. }
  split.
  - apply (row_passed_iff self t m r Hlen).
    pose proof (row_sorted_nearest_two self t r Hlen) as Hn.
    fold p. unfold matched.
    exists (nth 0 (row_sorted self t r) (Sqrt 0)), (nth 1 (row_sorted self t r) (Sqrt 0)).
    split; [exact Hn|].
    assert (Hin : In (euclidean p (det_coords u)) (row_dists self t r)).
    { unfold row_dists, template_coo, get_det_coords. rewrite map_map.
      apply in_map_iff. exists u. split; [reflexivity|]. apply nth_In, Hi. }
    pose proof (nearest_two_first_le _ _ _ _ Hn Hin) as H1.
    split; [split; [lra | nra]|].
    right.
    destruct (Qlt_le_dec (sq (nth 1 (row_sorted self t r) (Sqrt 0)))
                         (2 * m * (2 * m))) as [Hlt | Hge]; [|exact Hge].
    exfalso.
    set (f := fun e : dist => Qlt_bool (sq e) (2 * m * (2 * m))).
    destruct Hn as (rest & Hperm & H12 & _).
    pose proof (Permutation_count f _ _ Hperm) as C.
    assert (Cge : (2 <= length (filter f (nth 0 (row_sorted self t r) (Sqrt 0)
                                          :: nth 1 (row_sorted self t r) (Sqrt 0)
                                          :: rest)))%nat).
    { cbn [filter].
      assert (F1 : f (nth 0 (row_sorted self t r) (Sqrt 0)) = true)
        by (apply Qlt_bool_iff; lra).
      assert (F2 : f (nth 1 (row_sorted self t r) (Sqrt 0)) = true)
        by (apply Qlt_bool_iff; lra).
      rewrite F1, F2. cbn [length]. lia. }
    assert (Cle : (length (filter f (row_dists self t r)) <= 1)%nat).
    { apply (count_at_most_one f _ i (Sqrt 0)).
      intros j Hj Hne. rewrite row_dists_length in Hj.
      unfold row_dists, template_coo, get_det_coords. rewrite map_map.
      rewrite (nth_indep _ (Sqrt 0) (euclidean p (X_IMAGE d, Y_IMAGE d)))
        by (rewrite length_map; exact Hj).
      rewrite (map_nth (fun x => euclidean p (X_IMAGE x, Y_IMAGE x))).
      apply Qlt_bool_false_iff.
      pose proof (Hspaced i j d Hi Hj (not_eq_sym Hne)) as Hsep. fold u in Hsep.
      assert (E : sq (euclidean p (det_coords (nth j (template_cat self) d)))
                  == sq (euclidean (det_coords u)
                                   (det_coords (nth j (template_cat self) d)))).
      { apply euclidean_compat. destruct Himage. split; symmetry; assumption. }
      unfold det_coords in E at 1. rewrite E. exact Hsep. }
    lia.
  - destruct (row_nearest_is_nearest self t r d ltac:(lia)) as [_ Hnear].
    cbv zeta in Hnear. fold p in Hnear.
    specialize (Hnear u (nth_In _ _ Hi)).
    assert (K : point_eq p (det_coords (nth (row_nearest self t r) (template_cat self) d))).
    { apply euclidean_zero. lra. }
    destruct K. split; symmetry; assumption.
Qed.

(** When the template detections are exactly the images of the source
    detections and lie at least [2 * maxmatchdist] apart, [match_dets]
    matches every source detection, each with a template detection at its
    image. *)
Theorem match_dets_exact (self : Spalipy) (t : AffineTransform) (m_arg : option Q) :
  let m := default_of m_arg (maxmatchdist self) in
  0 < m ->
  (2 <= length (template_cat self))%nat ->
  exact_transform t (source_cat self) (template_cat self) ->
  spaced (template_cat self) (2 * m) ->
  exists tmpl,
    match_dets self t m_arg = Ok (length (source_cat self), source_cat self, tmpl) /\
    exact_transform t (source_cat self) tmpl.
Proof.
  intros m Hm Hlen Hexact Hspaced.
  set (d := mkDet 0 0 0 0 0).
  rewrite (match_dets_rows self t m_arg d Hlen). cbv zeta. fold m.
  assert (Hall : forall r, In r (source_cat self) ->
                           row_passed self t m r = true /\
                           point_eq (det_coords (nth (row_nearest self t r)
                                                     (template_cat self) d))
                                    (apply_transform_xy t (det_coords r))).
  { intros r Hr.
    destruct (Forall2_nth_l _ _ _ r d Hexact Hr) as (i & Hi & Hri).
    apply (row_exact self t m r d i Hm Hlen Hi Hri Hspaced). }
  assert (Hfilter : filter (row_passed self t m) (source_cat self) = source_cat self).
  { clear Hexact. induction (source_cat self) as [|r l IH]; cbn [filter]; [reflexivity|].
    rewrite (proj1 (Hall r (or_introl eq_refl))). f_equal.
    apply IH. intros r' Hr'. apply Hall. now right. }
  rewrite Hfilter. eexists. split; [reflexivity|].
  unfold exact_transform. clear Hfilter Hexact.
  induction (source_cat self) as [|r l IH]; cbn [map]; constructor.
  - apply (Hall r). now left.
  - apply IH. intros r' Hr'. apply Hall. now right.
Qed.

Lemma match_dets_exact_witness :
  exists tmpl,
    match_dets (tiny_self tiny_source tiny_template 3 0) (mkAffine 1 0 1 0) None
    = Ok (4%nat, tiny_source, tmpl) /\
    exact_transform (mkAffine 1 0 1 0) tiny_source tmpl.
Proof.
  apply (match_dets_exact (tiny_self tiny_source tiny_template 3 0)
           (mkAffine 1 0 1 0) None).
  - reflexivity.
  - cbn. lia.
  - repeat constructor.
  - intros i j d Hi Hj Hne. cbn in Hi, Hj.
    destruct i as [|[|[|[|i]]]], j as [|[|[|[|j]]]]; try lia;
      vm_compute; discriminate.
Defined.



(** ** __init__: the number of detections *)

Lemma int_of_floor (q : Q) :
  0 <= q -> inject_Z (int_of q) <= q /\ q < inject_Z (int_of q) + 1.
Proof.
  destruct q as [n d]. unfold int_of, Qle, Qlt. cbn [Qnum Qden inject_Z Qplus].
  intro H.
  assert (Hn : (0 <= n)%Z) by lia.
  rewrite Z.quot_div_nonneg by lia.
  pose proof (Z.div_mod n (Z.pos d) ltac:(lia)) as Hdm.
  pose proof (Z.mod_pos_bound n (Z.pos d) ltac:(lia)) as Hb.
  split; nia.
Qed.

(** With the default arguments ([ndets = 0.5], [minnmatch = 200]) the
    constructor raises exactly when one of the catalogues has fewer than 400
    detections. *)
Theorem init_default_needs_400 (source_cat template_cat : table)
    (source_data : image) (shape : nat * nat) (quiet : bool) :
  init source_cat template_cat source_data shape (ndets_float (1 # 2)) 20 50 5 200 3 3
       quiet = ([], Raise ValueError)
  <-> (Nat.min (length source_cat) (length template_cat) < 400)%nat.
Proof.
  set (ntot := Nat.min (length source_cat) (length template_cat)).
  assert (Hnt : 0 <= Zq ntot).
  { unfold Zq. rewrite <- (Zle_Qle 0). lia. }
  assert (Hq : 0 <= (1 # 2) * Zq ntot) by lra.
  destruct (int_of_floor ((1 # 2) * Zq ntot) Hq) as [Hlo Hhi].
  assert (Hiff : (int_of ((1 # 2) * Zq ntot) < 200)%Z <-> (ntot < 400)%nat).
  { split; intro H.
    - assert (K : inject_Z (int_of ((1 # 2) * Zq ntot)) + 1 <= 200).
      { rewrite <- (inject_Z_plus _ 1). rewrite <- (Zle_Qle _ 200). lia. }
      assert (K' : Zq ntot < 400) by lra.
      unfold Zq in K'. rewrite <- (Zlt_Qlt _ 400) in K'. lia.
    - assert (K : Zq ntot < 400).
      { unfold Zq. rewrite <- (Zlt_Qlt _ 400). lia. }
      assert (K' : inject_Z (int_of ((1 # 2) * Zq ntot)) < 200) by lra.
      rewrite <- (Zlt_Qlt _ 200) in K'. exact K'. }
  unfold init, resolve_ndets. fold ntot. rewrite <- Hiff.
  destruct (int_of ((1 # 2) * Zq ntot) <? 200)%Z eqn:E.
  - apply Z.ltb_lt in E. tauto.
  - apply Z.ltb_ge in E. split; [discriminate | lia].
Qed.

(** ** align on surfaces that are zero *)

Section ExactTransform.

Variable SmoothBivariateSpline :
  list Q -> list Q -> list Q -> Z -> Z -> result surface.
Variable map_coordinates : image -> list (list point) -> Z -> image.
Variable ndimage_affine_transform :
  image -> (Q * Q) * (Q * Q) -> Q * Q -> Z -> nat * nat -> image.

(** With surfaces that are zero [align] samples the source image, through
    [map_coordinates], at the coordinates the affine primitive is asked to
    sample it at: the matrix of the inverse transform applied to the output
    pixel, plus its offset. *)
Theorem align_zero_surfaces (self : Spalipy) (t inv : AffineTransform)
    (sx sy : surface) :
  affine_transform self = Some t -> inverse t = Ok inv ->
  spline_transform self = true ->
  sbs_x self = Some sx -> sbs_y self = Some sy ->
  (forall a b, sx a b == 0 /\ sy a b == 0) ->
  exists coords : list (list point),
    align map_coordinates ndimage_affine_transform self
    = (Ok tt,
       set_source_data_transform
         (Some (map_coordinates (img_T (source_data self)) coords (interp_order self)))
         (set_final_transform true self)) /\
    forall x y, (x < fst (shape self))%nat -> (y < snd (shape self))%nat ->
      let '(matrix, offset) := matrix_form inv in
      point_eq (nth x (nth y coords []) (0, 0))
               (fst (fst matrix) * Zq x + snd (fst matrix) * Zq y + fst offset,
                fst (snd matrix) * Zq x + snd (snd matrix) * Zq y + snd offset).
Proof.
  intros Ht Hinv Hs Hx Hy Hzero.
  eexists. split.
  - apply (align_spline map_coordinates ndimage_affine_transform self t inv sx sy
             Hs Ht Hinv Hx Hy).
  - intros x y Hx' Hy'.
    rewrite (meshgrid_nth
               (fun xy => padd (apply_transform_xy inv xy)
                               (0 - sx (fst xy) (snd xy), 0 - sy (fst xy) (snd xy)))
               (fst (shape self)) (snd (shape self)) y x Hy' Hx').
    destruct (Hzero (Zq x) (Zq y)) as [Zx Zy].
    unfold matrix_form, point_eq, padd, apply_transform_xy. cbn [fst snd].
    rewrite Zx, Zy. split; ring.
Qed.

End ExactTransform.

Lemma align_zero_surfaces_witness :
  let self := set_spline_transform true
                (set_sbs_y (Some (fun _ _ => 0))
                   (set_sbs_x (Some (fun _ _ => 0)) shifted_self)) in
  exists coords : list (list point),
    align nearest_map_coordinates nearest_affine_transform self
    = (Ok tt,
       set_source_data_transform
         (Some (nearest_map_coordinates (img_T (source_data self)) coords
                                        (interp_order self)))
         (set_final_transform true self)) /\
    forall x y, (x < fst (shape self))%nat -> (y < snd (shape self))%nat ->
      let '(matrix, offset) := matrix_form (mkAffine 1 0 (-1) 0) in
      point_eq (nth x (nth y coords []) (0, 0))
               (fst (fst matrix) * Zq x + snd (fst matrix) * Zq y + fst offset,
                fst (snd matrix) * Zq x + snd (snd matrix) * Zq y + snd offset).
Proof.
  apply (align_zero_surfaces nearest_map_coordinates nearest_affine_transform
           (set_spline_transform true
              (set_sbs_y (Some (fun _ _ => 0))
                 (set_sbs_x (Some (fun _ _ => 0)) shifted_self)))
           (mkAffine 1 0 1 0) (mkAffine 1 0 (-1) 0) (fun _ _ => 0) (fun _ _ => 0));
    try reflexivity.
  intros a b. split; reflexivity.
Defined.




(** ** find_affine_transform: what it stores *)

(** When [find_affine_transform] stores a transform it stores, with it, the
    detections [match_dets] matches under that transform: as many source as
    template detections, their number in [nmatch], all of them rows of the
    two catalogues. *)
Theorem find_affine_transform_stored (self : Spalipy)
    (maxmatchdist_arg : option Q) (minnmatch_arg : option Z)
    (maxcands : Z) (minquaddist : Q) :
  let m := default_of maxmatchdist_arg (maxmatchdist self) in
  let out := find_affine_transform self maxmatchdist_arg minnmatch_arg maxcands
                                   minquaddist in
  affine_transform (snd out) <> affine_transform self ->
  exists t smd tmd,
    fst out = Ok tt /\
    affine_transform (snd out) = Some t /\
    source_matchdets (snd out) = Some smd /\
    template_matchdets (snd out) = Some tmd /\
    nmatch (snd out) = length smd /\ length tmd = length smd /\
    match_dets self t (Some m) = Ok (length smd, smd, tmd) /\
    incl smd (source_cat self) /\ incl tmd (template_cat self).
Proof.
  intros m out Hchanged.
  destruct (find_affine_transform_outcome self maxmatchdist_arg minnmatch_arg
              maxcands minquaddist)
    as [(Hsame & _) | (n & s & t & tr & n0 & s0 & t0 & Hout & _ & _ & Hmatch)].
  - contradiction.
  - fold out in Hout. fold m in Hmatch. rewrite Hout. cbn [fst snd].
    destruct (Nat.lt_ge_cases (length (template_cat self)) 2) as [Hfew | Hlen].
    + rewrite (match_dets_few_templates self tr (Some m) Hfew) in Hmatch. discriminate.
    + rewrite (match_dets_rows self tr (Some m) (mkDet 0 0 0 0 0) Hlen) in Hmatch.
      cbv zeta in Hmatch. injection Hmatch as <- <- <-.
      eexists. eexists. eexists.
      split; [reflexivity|]. split; [reflexivity|]. split; [reflexivity|].
      split; [reflexivity|]. split; [reflexivity|].
      split; [apply length_map|].
      split; [apply (match_dets_rows self tr (Some m) (mkDet 0 0 0 0 0) Hlen)|].
      split.
      * intros r Hr. apply filter_In in Hr. tauto.
      * intros r Hr. apply in_map_iff in Hr. destruct Hr as (r0 & <- & _).
        apply nth_In. apply row_nearest_in_range. lia.
Qed.

Lemma find_affine_transform_stored_witness :
  let out := find_affine_transform five_ready None None 3 (5 # 1000) in
  exists t smd tmd,
    fst out = Ok tt /\
    affine_transform (snd out) = Some t /\
    source_matchdets (snd out) = Some smd /\
    template_matchdets (snd out) = Some tmd /\
    nmatch (snd out) = length smd /\ length tmd = length smd /\
    match_dets five_ready t (Some (default_of None (maxmatchdist five_ready)))
    = Ok (length smd, smd, tmd) /\
    incl smd (source_cat five_ready) /\ incl tmd (template_cat five_ready).
Proof.
  apply (find_affine_transform_stored five_ready None None 3 (5 # 1000)).
  vm_compute. discriminate.
Defined.

(** On these two catalogues, exact images of each other, one quad has a
    vertical longest diagonal and a hash with nan entries; the run finds no
    matching quad.  Without the fifth detection the run succeeds. *)
Example main_vertical_diagonal_example :
  outcome (main zero_spline nearest_map_coordinates nearest_affine_transform
                vertical_self None)
  = (Ok tt, [MsgNoMatchingQuads (5 # 1000); MsgNoInitialAffine], None) /\
  outcome (main zero_spline nearest_map_coordinates nearest_affine_transform
                (tiny_self (firstn 4 vertical_source) (firstn 4 vertical_template) 3 0)
                None)
  = (Ok tt, [], Some [[0; 1]; [0; 3]]).
Proof. vm_compute. split; reflexivity. Qed.

